(** * Package signature verifier ([verifier.c])

    A shallow embedding of the two entry points of [verifier.c],
    [verify_file] (whole-file signature carried in the ZIP comment) and
    [verify_jar_signature] (the .RSA -> .SF -> MANIFEST.MF -> entries chain),
    and the properties the specification states about them.

    Conventions of the embedding.
    - Bytes are [Byte.byte]; buffers, files and names are [list byte].
      C [int] / [size_t] values are [Z]; [unsigned] counters wrap modulo 2^32.
    - Calls that leave the verifier ([ui_set_progress], [SHA_init],
      [SHA_update], [SHA_final], [RSA_verify], [b64_pton]) are recorded, in
      program order, in a trace of [event]s carried by the writer monad
      [Trace].
    - A [double] is the rational it denotes ([Q]); the operations on
      doubles round to the nearest double as IEEE 754 binary64 does.
    - [malloc], [calloc], [strdup] and [asprintf] are taken to succeed. *)

From Stdlib Require Import ZArith QArith Qround Lia Lqa Sorted.
From Stdlib.Strings Require Import String Byte.
From stdpp Require Import base list.

Close Scope Q_scope.
Open Scope Z_scope.

(** ** Bytes and C strings *)

Definition byteZ (b : byte) : Z := Z.of_N (Byte.to_N b).

Definition bytes (s : string) : list byte := list_byte_of_string s.

(** [buf[i]] for an index inside the buffer. *)
Definition at_ (buf : list byte) (i : Z) : Z :=
  byteZ (nth (Z.to_nat i) buf x00).

Fixpoint bytes_eqb (a b : list byte) : bool :=
  match a, b with
  | [], [] => true
  | x :: a', y :: b' => Byte.eqb x y && bytes_eqb a' b'
  | _, _ => false
  end.

(** [memcmp(a, b, n) == 0] *)
Definition memcmp_eq (a b : list byte) (n : Z) : bool :=
  bytes_eqb (take (Z.to_nat n) a) (take (Z.to_nat n) b).

(** [tolower] in the C locale. *)
Definition tolower (c : byte) : Z :=
  let z := byteZ c in
  if (0x41 <=? z) && (z <=? 0x5a) then z + 32 else z.

Definition eqb_case (a b : byte) : bool := Byte.eqb a b.
Definition eqb_nocase (a b : byte) : bool := tolower a =? tolower b.

(** [strncmp(s, lit, n) == 0] and [strncasecmp(s, lit, n) == 0] for a
    literal [lit] of [n] characters: the first [n] characters of [s] are
    those of [lit].  A string that ends before [n] characters does not
    match. *)
Fixpoint starts_with (eqb : byte -> byte -> bool) (lit s : list byte) : bool :=
  match lit, s with
  | [], _ => true
  | p :: lit', c :: s' => eqb p c && starts_with eqb lit' s'
  | _ :: _, [] => false
  end.

(** The C string held in a buffer: the bytes before the first NUL. *)
Fixpoint c_str (buf : list byte) : list byte :=
  match buf with
  | [] => []
  | c :: buf' => if Byte.eqb c x00 then [] else c :: c_str buf'
  end.

Definition is_eol (c : byte) : bool := Byte.eqb c x0d || Byte.eqb c x0a.

(** The tokens [strtok_r(buf, "\r\n", &save)] and its follow-up calls
    return, in order: the maximal runs of characters other than CR and LF.
    [cur] is the token being read, reversed. *)
Fixpoint strtok_from (cur : list byte) (s : list byte) : list (list byte) :=
  match s with
  | [] => match cur with [] => [] | _ => [rev cur] end
  | c :: s' =>
    if is_eol c
    then match cur with
         | [] => strtok_from [] s'
         | _ => rev cur :: strtok_from [] s'
         end
    else strtok_from (c :: cur) s'
  end.

Definition strtok_lines (buf : list byte) : list (list byte) :=
  strtok_from [] (c_str buf).

(** ** Doubles

    A [double] is the rational number it denotes; the verifier meets no
    infinity and no NaN, its operands being sizes and fractions, far below
    2^1024.  Arithmetic is IEEE 754 binary64 in the default rounding mode:
    an operation gives the exact result rounded to the nearest double, a
    tie going to the even mantissa.  A double is a whole number of units
    of 2^-1074 with a mantissa of at most 53 bits. *)

(** The nearest integer, a tie going to the even one. *)
Definition round_half_even (q : Q) : Z :=
  let fl := Qfloor q in
  match (q - inject_Z fl ?= 1 # 2)%Q with
  | Lt => fl
  | Gt => fl + 1
  | Eq => if Z.even fl then fl else fl + 1
  end.

(** The bits a number of [t] units has beyond 53. *)
Definition double_shift (t : Q) : Z := Z.max 0 (Z.log2 (Qfloor t) - 52).

(** The double nearest to [q >= 0], in units of 2^-1074. *)
Definition double_units (q : Q) : Z :=
  let t := (q * inject_Z (2 ^ 1074))%Q in
  let sh := double_shift t in
  round_half_even (t / inject_Z (2 ^ sh)) * 2 ^ sh.

(** The double nearest to [q]. *)
Definition to_double (q : Q) : Q :=
  if Qle_bool 0 q
  then Qred (inject_Z (double_units q) / inject_Z (2 ^ 1074))
  else Qred (- (inject_Z (double_units (- q)) / inject_Z (2 ^ 1074))).

(** [(double) n], [a + b], [a * b] and [a / b] on doubles. *)
Definition double_of_Z (n : Z) : Q := to_double (inject_Z n).
Definition double_add (a b : Q) : Q := to_double (a + b).
Definition double_mul (a b : Q) : Q := to_double (a * b).
Definition double_div (a b : Q) : Q := to_double (a / b).

(** The literal [0.02]. *)
Definition double_0_02 : Q := to_double (2 # 100).

(** [a / (double) L] for sizes [a] and [L]. *)
Definition fraction (a L : Z) : Q := double_div (double_of_Z a) (double_of_Z L).

(** ** The archive reader

    Modelled from the spec: the minzip reader ([mzZipEntryCount],
    [mzGetZipEntryAt], [mzFindZipEntry], [mzIsZipEntryIntact],
    [mzGetZipEntryUncompLen], [mzGetZipEntryFileName], [mzReadZipEntry],
    [mzProcessZipEntryContents], [mzGetZipEntryIndex]) is not part of the
    verifier.  An archive is the sequence of its entries; an entry pointer
    is the entry's index.  An entry has a name, the blocks of uncompressed
    data the reader hands to a callback, its integrity bit, and whether
    decompression succeeds. *)
Record ZipEntry : Type := {
  fileName : list byte;
  blocks : list (list byte);
  intact : bool;
  inflates : bool
}.

Abbreviation ZipArchive := (list ZipEntry) (only parsing).

Definition contents (e : ZipEntry) : list byte := concat (blocks e).

Definition mzZipEntryCount (pArchive : ZipArchive) : Z :=
  Z.of_nat (length pArchive).

Definition mzGetZipEntryUncompLen (e : ZipEntry) : Z :=
  Z.of_nat (length (contents e)).

(** [mzFindZipEntry(pArchive, entryName)]: the first entry whose name is the
    C string [entryName]. *)
Fixpoint find_name (name : list byte) (es : list ZipEntry) (i : nat) : option nat :=
  match es with
  | [] => None
  | e :: es' => if bytes_eqb (fileName e) name then Some i
                else find_name name es' (S i)
  end.

Definition mzFindZipEntry (pArchive : ZipArchive) (entryName : list byte) : option nat :=
  find_name (c_str entryName) pArchive 0.

(** [UINT_MAX + 1] for the 32-bit [unsigned] counters. *)
Definition UINT_MAX1 : Z := 2 ^ 32.

(** ** The reboot menu ([cot/reboot.cpp])

    [Reboot::RebootMenu] asks [get_menu_selection] until the answer is one
    of the three menu items or [Device::kGoBack].  The constants
    [REBOOTMENU_MAIN], [REBOOTMENU_RECOVERY], [REBOOTMENU_BOOTLOADER]
    (cot.h) and [Device::kGoBack] (device.h) are parameters;
    [get_menu_selection n] is what the call number [n] returns, counting
    from 0.  The loop [for (;;)] has fuel: one unit for each call. *)
Section RebootMenu.

Variables REBOOTMENU_MAIN REBOOTMENU_RECOVERY REBOOTMENU_BOOTLOADER kGoBack : Z.
Variable get_menu_selection : nat -> Z.

(** The [switch]: [Some] the value returned, [None] to go round again. *)
Definition RebootMenu_switch (RebootSelection : Z) : option Z :=
  if RebootSelection =? REBOOTMENU_MAIN then Some REBOOTMENU_MAIN
  else if RebootSelection =? REBOOTMENU_RECOVERY then Some REBOOTMENU_RECOVERY
  else if RebootSelection =? REBOOTMENU_BOOTLOADER then Some REBOOTMENU_BOOTLOADER
  else if RebootSelection =? kGoBack then Some (-1)
  else None.

Fixpoint RebootMenu_from (fuel : nat) (calls : nat) : option Z :=
  match fuel with
  | O => None
  | S fuel' =>
    match RebootMenu_switch (get_menu_selection calls) with
    | Some r => Some r
    | None => RebootMenu_from fuel' (S calls)
    end
  end.

Definition RebootMenu (fuel : nat) : option Z := RebootMenu_from fuel 0.

End RebootMenu.

(** ** Sample inputs

    Stand-ins for the primitives (a checksum for SHA-1, a signature that is
    the key followed by the digest, a base64 codec that maps every
    character to itself) and files and archives built with them, for the
    examples below. *)
Module Samples.

Definition CRLF : list byte := [x0d; x0a].

Definition letter (n : Z) : byte :=
  match Byte.of_N (Z.to_N (0x41 + n mod 26)) with
  | Some b => b
  | None => x41
  end.

Definition SHA (msg : list byte) : list byte :=
  letter (fold_right (fun b acc => (byteZ b + 3 * acc) mod 65521) 0 msg) ::
  letter (Z.of_nat (length msg)) :: repeat x2e 18.

Definition sign (key sha : list byte) : list byte :=
  take 256 (key ++ sha ++ repeat x00 256).

Definition RSA_verify (key sig : list byte) (len : Z) (sha : list byte) : bool :=
  bytes_eqb sig (sign key sha).

Definition b64_pton (src : list byte) (targsize : Z) : Z * list byte :=
  if Z.of_nat (length src) <=? targsize
  then (Z.of_nat (length src), src)
  else (-1, []).

Definition key1 : list byte := bytes "release-key".
Definition key2 : list byte := bytes "test-key".

Definition le16 (n : Z) : list byte :=
  match Byte.of_N (Z.to_N (n mod 256)), Byte.of_N (Z.to_N (n / 256 mod 256)) with
  | Some lo, Some hi => [lo; hi]
  | _, _ => []
  end.

(** A file: [body], the 22-byte EOCD record, and a comment made of [pad],
    the signature of the signed range and the 6-byte footer
    [sigStart FF FF commentLen]. *)
Definition signed_file (body pad : list byte) (key : list byte)
    (signature_start : Z) (sentinel : list byte) : list byte :=
  let comment_size := Z.of_nat (length pad) + 256 + 6 in
  let signed := body ++ [x50; x4b; x05; x06] ++ repeat x00 16 in
  signed ++ le16 comment_size ++ pad ++ sign key (SHA signed) ++
  le16 signature_start ++ sentinel ++ le16 comment_size.

Definition update_zip : list byte :=
  signed_file (repeat x41 5000) (bytes "signed by SignApk") key1 262 [xff; xff].

(** The same with the sentinel FF FE. *)
Definition no_sentinel_zip : list byte :=
  signed_file (repeat x41 5000) (bytes "signed by SignApk") key1 262 [xff; xfe].

(** The same with [sigStart = 261]. *)
Definition short_signature_zip : list byte :=
  signed_file (repeat x41 5000) (bytes "signed by SignApk") key1 261 [xff; xff].

(** A second EOCD marker inside the comment, the signature valid. *)
Definition hostile_zip : list byte :=
  signed_file (repeat x41 5000) ([x50; x4b; x05; x06] ++ bytes "second")
    key1 262 [xff; xff].

(** [sigStart] points 300 bytes before the end, at the padding. *)
Definition far_sigstart_zip : list byte :=
  signed_file (repeat x41 5000) (repeat x42 100) key1 300 [xff; xff].

(** A signed range of 4097 bytes: two blocks, of 4096 bytes and of one. *)
Definition two_block_zip : list byte :=
  signed_file (repeat x41 4077) [] key1 262 [xff; xff].

(** A signed range of 50 blocks of 4096 bytes. *)
Definition fifty_block_zip : list byte :=
  signed_file (repeat x41 (50 * 4096 - 20)) [] key1 262 [xff; xff].

Definition disk (f : list byte) (path : string) : option (list byte) :=
  if String.eqb path "update.zip" then Some f else None.

(** An archive signed the JAR way. *)
Definition stanza (name data : list byte) : list byte :=
  bytes "Name: " ++ name ++ CRLF ++
  bytes "SHA1-Digest: " ++ SHA data ++ CRLF ++ CRLF.

Definition build_prop : list byte := bytes "ro.build.id=MASTER".
Definition boot_img : list byte := bytes "ANDROID!" ++ repeat x00 8 ++ bytes "kernel".

Definition manifest : list byte :=
  bytes "Manifest-Version: 1.0" ++ CRLF ++ CRLF ++
  stanza (bytes "system/build.prop") build_prop ++
  stanza (bytes "boot.img") boot_img.

Definition file_entry (name data : list byte) : ZipEntry :=
  {| fileName := name; blocks := [data]; intact := true; inflates := true |}.

Definition signature_file (mf : list byte) : list byte :=
  bytes "Signature-Version: 1.0" ++ CRLF ++
  bytes "SHA1-Digest-Manifest: " ++ SHA mf ++ CRLF ++ CRLF.

Definition signature_block (key sf : list byte) : list byte :=
  bytes "PKCS7" ++ sign key (take 20 (SHA sf)).

Definition jar (mf : list byte) (key : list byte) (data : list ZipEntry) : ZipArchive :=
  [ file_entry (bytes "META-INF/MANIFEST.MF") mf;
    file_entry (bytes "META-INF/CERT.SF") (signature_file mf);
    file_entry (bytes "META-INF/CERT.RSA")
      (signature_block key (signature_file mf));
    {| fileName := bytes "system/"; blocks := []; intact := true;
       inflates := true |} ] ++ data.

Definition data_entries : list ZipEntry :=
  [ file_entry (bytes "system/build.prop") build_prop;
    file_entry (bytes "boot.img") boot_img ].

Definition update_jar : ZipArchive := jar manifest key1 data_entries.

(** The manifest followed by a [Name:] line that never gets its digest. *)
Definition dangling_manifest : list byte :=
  manifest ++ bytes "Name: recovery.img" ++ CRLF.

Definition dangling_jar : ZipArchive := jar dangling_manifest key1 data_entries.

(** One more entry than the manifest lists. *)
Definition extra_jar : ZipArchive :=
  jar manifest key1 (data_entries ++ [file_entry (bytes "su") (bytes "root")]).

(** A [Name:] line with no digest in the middle of the manifest. *)
Definition unfinished_manifest : list byte :=
  bytes "Manifest-Version: 1.0" ++ CRLF ++ CRLF ++
  bytes "Name: recovery.img" ++ CRLF ++
  stanza (bytes "system/build.prop") build_prop ++
  stanza (bytes "boot.img") boot_img.

Definition unfinished_jar : ZipArchive := jar unfinished_manifest key1 data_entries.

(** A digest that decodes to 19 bytes. *)
Definition short_digest : list byte := take 19 (SHA build_prop).

Definition short_digest_manifest : list byte :=
  bytes "Manifest-Version: 1.0" ++ CRLF ++ CRLF ++
  bytes "Name: system/build.prop" ++ CRLF ++
  bytes "SHA1-Digest: " ++ short_digest ++ CRLF ++ CRLF ++
  stanza (bytes "boot.img") boot_img.

Definition short_digest_jar : ZipArchive :=
  jar short_digest_manifest key1 data_entries.

(** The signed range of [update_zip] and its signature. *)
Definition update_signed : list byte :=
  repeat x41 5000 ++ [x50; x4b; x05; x06] ++ repeat x00 16.

Definition update_signature : list byte := sign key1 (SHA update_signed).

(** Eight bytes: the footer announces a comment the file has no room for. *)
Definition truncated_zip : list byte := repeat xff 8.

(** A file whose comment is the footer alone, with [sigStart = 262]. *)
Definition short_comment_zip : list byte :=
  repeat x41 5000 ++ [x50; x4b; x05; x06] ++ repeat x00 16 ++
  le16 6 ++ le16 262 ++ [xff; xff] ++ le16 6.

(** The signed archive with an entry that fails its integrity check. *)
Definition corrupt_boot_img : ZipEntry :=
  {| fileName := bytes "boot.img"; blocks := [boot_img]; intact := false;
     inflates := true |}.

Definition corrupt_jar : ZipArchive :=
  jar manifest key1
    [file_entry (bytes "system/build.prop") build_prop; corrupt_boot_img].

(** The entries of the signature of [update_jar]. *)
Definition cert_sf : ZipEntry :=
  file_entry (bytes "META-INF/CERT.SF") (signature_file manifest).

Definition cert_rsa : ZipEntry :=
  file_entry (bytes "META-INF/CERT.RSA")
    (signature_block key1 (signature_file manifest)).

(** What [get_menu_selection] returns: two answers the menu has no case
    for, then the one standing for [kGoBack]. *)
Definition selections (call : nat) : Z :=
  match call with
  | O => -2
  | S O => 7
  | _ => -5
  end.



(** A manifest with a continuation line that continues no name: the code
    reads it as the name (null)foo. *)
Definition orphan_manifest : list byte :=
  manifest ++ bytes " foo" ++ CRLF ++
  bytes "SHA1-Digest: " ++ SHA (bytes "bar") ++ CRLF ++ CRLF.

Definition orphan_jar : ZipArchive :=
  jar orphan_manifest key1
    (data_entries ++ [file_entry (bytes "(null)foo") (bytes "bar")]).

End Samples.

(** ** The trace of external calls *)

Section Verifier.

Set Default Proof Using "Type".

(** [mincrypt/rsa.h], [mincrypt/sha.h] and the resolver's base64 codec are
    not part of the verifier: the key type, the modulus size [RSANUMBYTES],
    the hash function computed by [SHA_init]/[SHA_update]/[SHA_final], the
    predicate [RSA_verify] and [b64_pton] are parameters.  [b64_pton src
    targsize] gives the value it returns and the target buffer it leaves. *)
Variable RSAPublicKey : Type.
Variable RSANUMBYTES : Z.
Variable SHA : list byte -> list byte.
Variable RSA_verify : RSAPublicKey -> list byte -> Z -> list byte -> bool.
Variable b64_pton : list byte -> Z -> Z * list byte.

Definition SHA_DIGEST_SIZE : Z := 20.

Inductive event : Type :=
| ui_set_progress (fraction : Q)
| SHA_init
| SHA_update (data : list byte)
| SHA_final
| RSA_verify_call (key : RSAPublicKey) (signature : list byte) (sha : list byte)
| b64_pton_call (src : list byte) (targsize : Z) (n : Z).

Definition Trace (A : Type) : Type := (A * list event)%type.

Definition ret {A} (a : A) : Trace A := (a, []).

Definition bind {A B} (m : Trace A) (k : A -> Trace B) : Trace B :=
  let '(a, t1) := m in
  let '(b, t2) := k a in
  (b, t1 ++ t2).

Definition call (e : event) : Trace unit := (tt, [e]).

Notation "'let*' x := m 'in' k" := (bind m (fun x => k))
  (at level 10, x name, m at level 100, k at level 200, only parsing).

(** ** Whole-file mode: [verify_file] *)

Definition VERIFY_SUCCESS : Z := 0.
Definition VERIFY_FAILURE : Z := 1.

Definition FOOTER_SIZE : Z := 6.
Definition EOCD_HEADER_SIZE : Z := 22.
Definition BUFFER_SIZE : Z := 4096.

(** What a call does: it returns a code, or reads outside a buffer it owns
    (no defined behaviour), or a loop of the model ran out of fuel (shown
    below never to happen). *)
Inductive result : Type :=
| Returned (code : Z)
| Undefined
| Out_of_fuel.

(** [fseek(f, -n, SEEK_END)]: the new position, [None] when it would lie
    before the start of the file. *)
Definition fseek_end (f : list byte) (n : Z) : option Z :=
  let pos := Z.of_nat (length f) - n in
  if pos <? 0 then None else Some pos.

(** [fread(buf, 1, n, f)] at position [pos]: the bytes read, fewer than [n]
    at the end of the file. *)
Definition fread (f : list byte) (pos n : Z) : list byte :=
  take (Z.to_nat n) (drop (Z.to_nat pos) f).

(** [p[0..len)] for a pointer [p = buf + off]; [None] when the range leaves
    the buffer. *)
Definition read_at (buf : list byte) (off len : Z) : option (list byte) :=
  if (0 <=? off) && (0 <=? len) && (off + len <=? Z.of_nat (length buf))
  then Some (take (Z.to_nat len) (drop (Z.to_nat off) buf))
  else None.

(** [eocd[i] == 0x50 && eocd[i+1] == 0x4b && eocd[i+2] == 0x05 &&
    eocd[i+3] == 0x06] *)
Definition eocd_marker_at (eocd : list byte) (i : Z) : bool :=
  (at_ eocd i =? 0x50) && (at_ eocd (i + 1) =? 0x4b) &&
  (at_ eocd (i + 2) =? 0x05) && (at_ eocd (i + 3) =? 0x06).

(** The loop [for (i = 4; i < eocd_size-3; ++i)] that returns at the first
    marker. *)
Definition eocd_marker_later (eocd : list byte) (eocd_size : Z) : bool :=
  existsb (eocd_marker_at eocd) (seqZ 4 (eocd_size - 3 - 4)).

Inductive hashed : Type :=
| Hashed (ctx : list byte)
| Read_failed.

(** The loop [while (so_far < signed_len)].  The SHA context is the bytes
    fed so far; [pos] is the file position. *)
Fixpoint hash_loop (fuel : nat) (f : list byte) (signed_len : Z)
    (pos so_far : Z) (ctx : list byte) (frac : Q) : Trace (option hashed) :=
  match fuel with
  | O => ret None
  | S fuel' =>
    if so_far <? signed_len then
      let size := if signed_len - so_far <? BUFFER_SIZE
                  then signed_len - so_far else BUFFER_SIZE in
      let buffer := fread f pos size in
      if negb (Z.of_nat (length buffer) =? size) then ret (Some Read_failed)
      else
        let* _ := call (SHA_update buffer) in
        let so_far := so_far + size in
        let f' := double_div (double_of_Z so_far) (double_of_Z signed_len) in
        if negb (Qle_bool f' (double_add frac double_0_02)) || (size =? so_far) then
          let* _ := call (ui_set_progress f') in
          hash_loop fuel' f signed_len (pos + size) so_far (ctx ++ buffer) f'
        else
          hash_loop fuel' f signed_len (pos + size) so_far (ctx ++ buffer) frac
    else ret (Some (Hashed ctx))
  end.

(** The loop [for (i = 0; i < numKeys; ++i)] over the trusted keys. *)
Fixpoint verify_file_keys (pKeys : list RSAPublicKey) (eocd : list byte)
    (eocd_size : Z) (sha1 : list byte) : Trace result :=
  match pKeys with
  | [] => ret (Returned VERIFY_FAILURE)
  | key :: pKeys' =>
    match read_at eocd (eocd_size - 6 - RSANUMBYTES) RSANUMBYTES with
    | None => ret Undefined
    | Some sig =>
      let* _ := call (RSA_verify_call key sig sha1) in
      if RSA_verify key sig RSANUMBYTES sha1
      then ret (Returned VERIFY_SUCCESS)
      else verify_file_keys pKeys' eocd eocd_size sha1
    end
  end.

(** [fs path] is what [fopen(path, "rb")] finds. *)
Definition verify_file (fs : string -> option (list byte)) (path : string)
    (pKeys : list RSAPublicKey) : Trace result :=
  let* _ := call (ui_set_progress 0) in
  match fs path with
  | None => ret (Returned VERIFY_FAILURE)
  | Some f =>
    match fseek_end f FOOTER_SIZE with
    | None => ret (Returned VERIFY_FAILURE)
    | Some pos =>
      let footer := fread f pos FOOTER_SIZE in
      if negb (Z.of_nat (length footer) =? FOOTER_SIZE)
      then ret (Returned VERIFY_FAILURE)
      else if negb (at_ footer 2 =? 0xff) || negb (at_ footer 3 =? 0xff)
      then ret (Returned VERIFY_FAILURE)
      else
        let comment_size := at_ footer 4 + Z.shiftl (at_ footer 5) 8 in
        let signature_start := at_ footer 0 + Z.shiftl (at_ footer 1) 8 in
        if signature_start - FOOTER_SIZE <? RSANUMBYTES
        then ret (Returned VERIFY_FAILURE)
        else
          let eocd_size := comment_size + EOCD_HEADER_SIZE in
          match fseek_end f eocd_size with
          | None => ret (Returned VERIFY_FAILURE)
          | Some pos =>
            let signed_len := pos + EOCD_HEADER_SIZE - 2 in
            let eocd := fread f pos eocd_size in
            if negb (Z.of_nat (length eocd) =? eocd_size)
            then ret (Returned VERIFY_FAILURE)
            else if negb (at_ eocd 0 =? 0x50) || negb (at_ eocd 1 =? 0x4b) ||
                    negb (at_ eocd 2 =? 0x05) || negb (at_ eocd 3 =? 0x06)
            then ret (Returned VERIFY_FAILURE)
            else if eocd_marker_later eocd eocd_size
            then ret (Returned VERIFY_FAILURE)
            else
              let* _ := call SHA_init in
              let* h := hash_loop (S (Z.to_nat signed_len)) f signed_len 0 0 [] (-1)%Q in
              match h with
              | None => ret Out_of_fuel
              | Some Read_failed => ret (Returned VERIFY_FAILURE)
              | Some (Hashed ctx) =>
                let* _ := call SHA_final in
                verify_file_keys pKeys eocd eocd_size (SHA ctx)
              end
          end
    end
  end.

(** ** JAR mode: [verify_jar_signature] *)

(** [slurpEntry]: the entry's contents followed by a NUL, [None] when
    [mzIsZipEntryIntact] or [mzReadZipEntry] fails. *)
Definition slurpEntry (pEntry : ZipEntry) : option (list byte) :=
  if negb (intact pEntry) then None
  else if negb (inflates pEntry) then None
  else Some (contents pEntry ++ [x00]).

(** [struct DigestContext]: the SHA context (the bytes fed so far), the
    counter [doneBytes] points to ([None] for a NULL pointer) and
    [totalBytes]. *)
Record DigestContext : Type := {
  digest : list byte;
  doneBytes : option Z;
  totalBytes : Z
}.

Definition updateHash (data : list byte) (context : DigestContext) : Trace DigestContext :=
  let* _ := call (SHA_update data) in
  let ctx := digest context ++ data in
  match doneBytes context with
  | Some done =>
    let done := (done + Z.of_nat (length data)) mod UINT_MAX1 in
    let context' := {| digest := ctx; doneBytes := Some done;
                       totalBytes := totalBytes context |} in
    if 0 <? totalBytes context then
      let* _ := call (ui_set_progress
                        (double_div (double_mul (double_of_Z done) 1)
                           (double_of_Z (totalBytes context)))) in
      ret context'
    else ret context'
  | None =>
    ret {| digest := ctx; doneBytes := None; totalBytes := totalBytes context |}
  end.

(** [mzProcessZipEntryContents] with the callback [updateHash]: one call for
    each block. *)
Fixpoint process_blocks (bs : list (list byte)) (context : DigestContext) : Trace DigestContext :=
  match bs with
  | [] => ret context
  | data :: bs' =>
    let* context := updateHash data context in
    process_blocks bs' context
  end.

(** [digestEntry]: the digest ([None] when it returns false) and the value
    of the counter afterwards. *)
Definition digestEntry (pEntry : ZipEntry) (done : option Z) (total : Z)
    : Trace (option (list byte) * option Z) :=
  let* _ := call SHA_init in
  let* context := process_blocks (blocks pEntry)
                    {| digest := []; doneBytes := done; totalBytes := total |} in
  if negb (inflates pEntry) then ret (None, doneBytes context)
  else
    let* _ := call SHA_final in
    ret (Some (take (Z.to_nat SHA_DIGEST_SIZE) (SHA (digest context))),
         doneBytes context).

(** The loop [for (j = 0; j < numKeys; ++j)] of [verifySignature]. *)
Fixpoint verifySignature_keys (pKeys : list RSAPublicKey) (sig sfDigest : list byte) : Trace bool :=
  match pKeys with
  | [] => ret false
  | key :: pKeys' =>
    let* _ := call (RSA_verify_call key sig sfDigest) in
    if RSA_verify key sig RSANUMBYTES sfDigest then ret true
    else verifySignature_keys pKeys' sig sfDigest
  end.

(** The test that makes an entry a signature block candidate. *)
Definition is_rsa_candidate (rsaEntry : ZipEntry) : bool :=
  let rsaName := fileName rsaEntry in
  let len := Z.of_nat (length rsaName) in
  let rsaLen := mzGetZipEntryUncompLen rsaEntry in
  (RSANUMBYTES <=? rsaLen) && (10 <? len) &&
  starts_with eqb_case (bytes "META-INF/") rsaName &&
  starts_with eqb_case (bytes ".RSA") (drop (Z.to_nat (len - 5 + 1)) rsaName).

(** The buffer [sfName] after [strncpy] and [strcpy]; [mzFindZipEntry] reads
    it as a C string. *)
Definition sf_name (rsaName : list byte) : list byte :=
  take (Z.to_nat (Z.of_nat (length rsaName) - 5 + 1)) rsaName ++ bytes ".SF".

(** One turn of the loop of [verifySignature], for the entry [rsaEntry]:
    the signature file it verifies, or [None] to go on with the next entry. *)
Definition verifySignature_entry (pArchive : ZipArchive)
    (pKeys : list RSAPublicKey) (rsaEntry : ZipEntry) : Trace (option nat) :=
  if is_rsa_candidate rsaEntry then
    match mzFindZipEntry pArchive (sf_name (fileName rsaEntry)) with
    | None => ret None
    | Some sfEntry =>
      match pArchive !! sfEntry with
      | None => ret None
      | Some sf =>
        let* d := digestEntry sf None 0 in
        match fst d with
        | None => ret None
        | Some sfDigest =>
          match slurpEntry rsaEntry with
          | None => ret None
          | Some rsaBuf =>
            let rsaLen := mzGetZipEntryUncompLen rsaEntry in
            let sig := take (Z.to_nat RSANUMBYTES)
                         (drop (Z.to_nat (rsaLen - RSANUMBYTES)) rsaBuf) in
            let* ok := verifySignature_keys pKeys sig sfDigest in
            if ok then ret (Some sfEntry) else ret None
          end
        end
      end
    end
  else ret None.

(** The loop [for (i = 0; i < mzZipEntryCount(pArchive); ++i)] over the
    entries still to look at. *)
Fixpoint verifySignature_loop (pArchive : ZipArchive)
    (pKeys : list RSAPublicKey) (rest : list ZipEntry) : Trace (option nat) :=
  match rest with
  | [] => ret None
  | rsaEntry :: rest' =>
    let* r := verifySignature_entry pArchive pKeys rsaEntry in
    match r with
    | Some sfEntry => ret (Some sfEntry)
    | None => verifySignature_loop pArchive pKeys rest'
    end
  end.

Definition verifySignature (pArchive : ZipArchive) (pKeys : list RSAPublicKey) : Trace (option nat) :=
  verifySignature_loop pArchive pKeys pArchive.

(** The loop over the lines of the signature file: the decoded digest of
    the first [SHA1-Digest-Manifest: ] line, [None] when there is no such
    line or its value does not decode to [SHA_DIGEST_SIZE] bytes. *)
Fixpoint verifyManifest_lines (lines : list (list byte)) : Trace (option (list byte)) :=
  match lines with
  | [] => ret None
  | line :: lines' =>
    if starts_with eqb_nocase (bytes "SHA1-Digest-Manifest: ") line then
      let digest := drop 22 line in
      let '(n, expected) := b64_pton digest (SHA_DIGEST_SIZE + 3) in
      let* _ := call (b64_pton_call digest (SHA_DIGEST_SIZE + 3) n) in
      if negb (n =? SHA_DIGEST_SIZE) then ret None else ret (Some expected)
    else verifyManifest_lines lines'
  end.

Definition verifyManifest (pArchive : ZipArchive) (sfEntry : ZipEntry) : Trace (option nat) :=
  match slurpEntry sfEntry with
  | None => ret None
  | Some sfBuf =>
    let* line := verifyManifest_lines (strtok_lines sfBuf) in
    match line with
    | None => ret None
    | Some expected =>
      match mzFindZipEntry pArchive (bytes "META-INF/MANIFEST.MF") with
      | None => ret None
      | Some mfEntry =>
        match pArchive !! mfEntry with
        | None => ret None
        | Some mf =>
          let* d := digestEntry mf None 0 in
          match fst d with
          | None => ret None
          | Some actual =>
            if negb (memcmp_eq expected actual SHA_DIGEST_SIZE) then ret None
            else ret (Some mfEntry)
          end
        end
      end
    end
  end.

(** The entries [verifyArchive] does not ask the manifest for: the manifest
    itself, directories, and the signature files. *)
Definition skipped (mfEntry i : nat) (entry : ZipEntry) : bool :=
  let fn := fileName entry in
  let fn_len := Z.of_nat (length fn) in
  let len := mzGetZipEntryUncompLen entry in
  if Nat.eqb i mfEntry then true
  else if (0 <? fn_len) && (at_ fn (fn_len - 1) =? 0x2f) && (len =? 0) then true
  else if starts_with eqb_nocase (bytes "META-INF/") fn &&
          (starts_with eqb_nocase (bytes ".RSA") (drop (Z.to_nat (fn_len - 4)) fn) ||
           starts_with eqb_nocase (bytes ".SF") (drop (Z.to_nat (fn_len - 3)) fn))
  then true
  else false.

(** The first loop of [verifyArchive]: the flags [unverified] and
    [totalBytes]. *)
Fixpoint mark_unverified (mfEntry : nat) (rest : list ZipEntry) (i : nat)
    (total : Z) : list bool * Z :=
  match rest with
  | [] => ([], total)
  | entry :: rest' =>
    if skipped mfEntry i entry then
      let '(flags, total') := mark_unverified mfEntry rest' (S i) total in
      (false :: flags, total')
    else
      let '(flags, total') :=
        mark_unverified mfEntry rest' (S i)
          ((total + mzGetZipEntryUncompLen entry) mod UINT_MAX1) in
      (true :: flags, total')
  end.

(** The variables the manifest loop of [verifyArchive] updates. *)
Record manifest_state : Type := {
  name : option (list byte);
  unverified : list bool;
  done_bytes : Z
}.

(** What one line does: [inl] the new state, [inr] at a [break]. *)
Definition verifyArchive_line (pArchive : ZipArchive) (total : Z)
    (line : list byte) (st : manifest_state)
    : Trace (manifest_state + manifest_state) :=
  if starts_with eqb_nocase (bytes "Name: ") line then
    match name st with
    | Some _ => ret (inr st)
    | None =>
      ret (inl {| name := Some (drop 6 line); unverified := unverified st;
                  done_bytes := done_bytes st |})
    end
  else if starts_with eqb_nocase (bytes " ") line then
    let tail := drop 1 line in
    let old := match name st with
               | Some n => n
               | None => bytes "(null)"
               end in
    ret (inl {| name := Some (old ++ tail); unverified := unverified st;
                done_bytes := done_bytes st |})
  else if starts_with eqb_nocase (bytes "SHA1-Digest: ") line then
    let base64 := drop 13 line in
    match name st with
    | None => ret (inr st)
    | Some nm =>
      match mzFindZipEntry pArchive nm with
      | None => ret (inr st)
      | Some idx =>
        match pArchive !! idx with
        | None => ret (inr st)
        | Some entry =>
          if negb (intact entry) then ret (inr st)
          else if negb (nth idx (unverified st) false) then ret (inr st)
          else
            let '(n, expected) := b64_pton base64 (SHA_DIGEST_SIZE + 3) in
            let* _ := call (b64_pton_call base64 (SHA_DIGEST_SIZE + 3) n) in
            if negb (n =? SHA_DIGEST_SIZE) then ret (inr st)
            else
              let* d := digestEntry entry (Some (done_bytes st)) total in
              let done := match snd d with
                          | Some v => v
                          | None => done_bytes st
                          end in
              let st' := {| name := name st; unverified := unverified st;
                            done_bytes := done |} in
              match fst d with
              | None => ret (inr st')
              | Some actual =>
                if negb (memcmp_eq expected actual SHA_DIGEST_SIZE)
                then ret (inr st')
                else ret (inl {| name := None;
                                 unverified := <[idx := false]> (unverified st);
                                 done_bytes := done |})
              end
          end
      end
    end
  else ret (inl st).

(** The loop over the lines of the manifest; the boolean tells whether it
    was left by [break] ([line != NULL] afterwards). *)
Fixpoint verifyArchive_lines (pArchive : ZipArchive) (total : Z)
    (lines : list (list byte)) (st : manifest_state)
    : Trace (bool * manifest_state) :=
  match lines with
  | [] => ret (false, st)
  | line :: lines' =>
    let* r := verifyArchive_line pArchive total line st in
    match r with
    | inr st' => ret (true, st')
    | inl st' => verifyArchive_lines pArchive total lines' st'
    end
  end.

(** [for (i = 0; i < count && !unverified[i]; ++i) ;] *)
Fixpoint first_unverified (flags : list bool) (i : Z) : Z :=
  match flags with
  | [] => i
  | b :: flags' => if b then i else first_unverified flags' (i + 1)
  end.

Definition verifyArchive (pArchive : ZipArchive) (mfEntry : nat) : Trace bool :=
  match pArchive !! mfEntry with
  | None => ret false
  | Some mf =>
    match slurpEntry mf with
    | None => ret false
    | Some mfBuf =>
      let '(flags, total) := mark_unverified mfEntry pArchive 0 0 in
      let* r := verifyArchive_lines pArchive total (strtok_lines mfBuf)
                  {| name := None; unverified := flags; done_bytes := 0 |} in
      let i := first_unverified (unverified (snd r)) 0 in
      if fst r then ret false
      else if i <? mzZipEntryCount pArchive then ret false
      else ret true
    end
  end.

Definition verify_jar_signature (pArchive : ZipArchive) (pKeys : list RSAPublicKey) : Trace bool :=
  let* sfEntry := verifySignature pArchive pKeys in
  match sfEntry with
  | None => ret false
  | Some sfEntry =>
    match pArchive !! sfEntry with
    | None => ret false
    | Some sf =>
      let* mfEntry := verifyManifest pArchive sf in
      match mfEntry with
      | None => ret false
      | Some mfEntry => verifyArchive pArchive mfEntry
      end
    end
  end.

(** ** The byte ranges of the whole-file format, in the spec's words *)

Definition fileLen (f : list byte) : Z := Z.of_nat (length f).

(** Little-endian 16-bit value at bytes [fileLen-2, fileLen-1]. *)
Definition commentLen (f : list byte) : Z :=
  at_ f (fileLen f - 2) + 256 * at_ f (fileLen f - 1).

(** Little-endian 16-bit value at bytes [fileLen-6, fileLen-5]. *)
Definition sigStart (f : list byte) : Z :=
  at_ f (fileLen f - 6) + 256 * at_ f (fileLen f - 5).

Definition eocdStart (f : list byte) : Z := fileLen f - (commentLen f + 22).

Definition signedLen (f : list byte) : Z := eocdStart f + 22 - 2.

(** The trailing [commentLen + 22] bytes. *)
Definition eocdTail (f : list byte) : list byte :=
  drop (Z.to_nat (eocdStart f)) f.

(** Steps 1 to 5 of the parse: footer sentinel, room for a signature, the
    tail lies in the file, starts with the EOCD magic, and holds no later
    one. *)
Definition format_checks (f : list byte) : bool :=
  (6 <=? fileLen f) &&
  (at_ f (fileLen f - 4) =? 0xff) && (at_ f (fileLen f - 3) =? 0xff) &&
  (RSANUMBYTES <=? sigStart f - 6) &&
  (0 <=? eocdStart f) &&
  eocd_marker_at (eocdTail f) 0 &&
  negb (eocd_marker_later (eocdTail f) (commentLen f + 22)).

Definition is_SHA_call (e : event) : bool :=
  match e with
  | SHA_init | SHA_update _ | SHA_final => true
  | _ => false
  end.

Definition is_progress (e : event) : option Q :=
  match e with
  | ui_set_progress q => Some q
  | _ => None
  end.

(** The fractions handed to [ui_set_progress], in order. *)
Definition progress_of (t : list event) : list Q := omap is_progress t.

(** The calls of [RSA_verify], in order: key, signature and digest. *)
Definition RSA_calls_of (t : list event) : list (RSAPublicKey * list byte * list byte) :=
  omap (fun e => match e with
                 | RSA_verify_call key sig sha => Some (key, sig, sha)
                 | _ => None
                 end) t.

(** The calls of [b64_pton], in order: source, buffer size and result. *)
Definition b64_calls_of (t : list event) : list (list byte * Z * Z) :=
  omap (fun e => match e with
                 | b64_pton_call src targsize n => Some (src, targsize, n)
                 | _ => None
                 end) t.

(** The keys the loop reaches: those up to the first that verifies. *)
Fixpoint keys_tried (pKeys : list RSAPublicKey) (sig sha1 : list byte) : list RSAPublicKey :=
  match pKeys with
  | [] => []
  | key :: pKeys' =>
    key :: (if RSA_verify key sig RSANUMBYTES sha1 then []
            else keys_tried pKeys' sig sha1)
  end.

(** The part of [verify_file] after the checks on the footer and the tail. *)
Definition hash_and_verify (f : list byte) (pKeys : list RSAPublicKey) : Trace result :=
  let* _ := call SHA_init in
  let* h := hash_loop (S (Z.to_nat (signedLen f))) f (signedLen f) 0 0 [] (-1)%Q in
  match h with
  | None => ret Out_of_fuel
  | Some Read_failed => ret (Returned VERIFY_FAILURE)
  | Some (Hashed ctx) =>
    let* _ := call SHA_final in
    verify_file_keys pKeys (eocdTail f) (commentLen f + 22) (SHA ctx)
  end.

(** The calls made by the hashing loop of [verify_file] on the file [f]. *)
Definition hash_trace (f : list byte) : list event :=
  snd (hash_loop (S (Z.to_nat (signedLen f))) f (signedLen f) 0 0 [] (-1)%Q).

(** The contract of the whole-file mode as the specification words it:
    success exactly when some trusted key verifies the [RSANUMBYTES] bytes
    before the 6-byte footer against the digest of bytes [0, signedLen). *)
Definition whole_file_contract (fs : string -> option (list byte))
    (path : string) (pKeys : list RSAPublicKey) : Prop :=
  fst (verify_file fs path pKeys) = Returned VERIFY_SUCCESS <->
  exists f sig key,
    fs path = Some f /\
    read_at f (fileLen f - 6 - RSANUMBYTES) RSANUMBYTES = Some sig /\
    In key pKeys /\
    RSA_verify key sig RSANUMBYTES (SHA (take (Z.to_nat (signedLen f)) f)) = true.

(** The place of the signature as the specification words it: every
    signature handed to [RSA_verify] is the [RSANUMBYTES] bytes that start
    [sigStart] bytes before the end of the file. *)
Definition signature_at_sigStart (fs : string -> option (list byte))
    (path : string) (pKeys : list RSAPublicKey) : Prop :=
  forall f key sig sha,
    fs path = Some f -> format_checks f = true ->
    In (key, sig, sha) (RSA_calls_of (snd (verify_file fs path pKeys))) ->
    read_at f (fileLen f - sigStart f) RSANUMBYTES = Some sig.

(** ** Progress reports, in the spec's words *)

Definition in_unit (q : Q) : Prop := (0 <= q /\ q <= 1)%Q.

(** The ordering guarantee as the specification words it: the fractions are
    non-decreasing, lie in [0, 1], and the last one is at least 0.98. *)
Definition progress_contract (t : list event) : Prop :=
  let ps := progress_of t in
  StronglySorted Qle ps /\ Forall in_unit ps /\
  exists q, last ps = Some q /\ (98 # 100 <= q)%Q.

(** The rule the hashing loop of [verify_file] follows, read off its trace:
    after each block ([SHA_update]) the fraction hashed so far, a double,
    is reported when it is greater than the double [frac + 0.02], [frac]
    being the last fraction reported, or the block is the first, and not
    otherwise.  [so_far] is the number of bytes hashed before [t]. *)
Fixpoint report_rule (signed_len : Z) (t : list event) (so_far : Z) (frac : Q) : Prop :=
  match t with
  | [] => True
  | SHA_update data :: t' =>
    let so_far' := so_far + Z.of_nat (length data) in
    let f := fraction so_far' signed_len in
    match t' with
    | ui_set_progress q :: t'' =>
      q = f /\ ((double_add frac double_0_02 < f)%Q \/ so_far = 0) /\
      report_rule signed_len t'' so_far' f
    | _ =>
      (f <= double_add frac double_0_02)%Q /\ so_far <> 0 /\
      report_rule signed_len t' so_far' frac
    end
  | _ => False
  end.

(** The calls made while hashing. *)
Definition hashing_event (e : event) : Prop :=
  match e with
  | SHA_init | SHA_update _ | SHA_final | ui_set_progress _ => True
  | _ => False
  end.

(** ** The signature chain of the JAR mode, in the spec's words *)

(** The last [RSANUMBYTES] bytes of an entry. *)
Definition signature_of (rsaEntry : ZipEntry) : list byte :=
  drop (Z.to_nat (mzGetZipEntryUncompLen rsaEntry - RSANUMBYTES)) (contents rsaEntry).

(** [rsaEntry] is a candidate that verifies the signature file at index
    [sfEntry]: its name begins with META-INF/ and ends in .RSA, it holds at
    least [RSANUMBYTES] bytes, the name with .SF in place of .RSA is found
    at [sfEntry], both entries can be read, and some trusted key verifies
    the candidate's last [RSANUMBYTES] bytes against the SHA-1 of the
    signature file. *)
Definition signs (pArchive : ZipArchive) (pKeys : list RSAPublicKey)
    (rsaEntry : ZipEntry) (sfEntry : nat) : Prop :=
  exists base sf key,
    fileName rsaEntry = base ++ bytes ".RSA" /\
    starts_with eqb_case (bytes "META-INF/") (fileName rsaEntry) = true /\
    RSANUMBYTES <= mzGetZipEntryUncompLen rsaEntry /\
    mzFindZipEntry pArchive (base ++ bytes ".SF") = Some sfEntry /\
    pArchive !! sfEntry = Some sf /\
    inflates sf = true /\ intact rsaEntry = true /\ inflates rsaEntry = true /\
    In key pKeys /\
    RSA_verify key (signature_of rsaEntry) RSANUMBYTES
      (take 20 (SHA (contents sf))) = true.

(** The signature file [sf] vouches for the manifest at index [mfEntry]: its
    first line that begins, in any case, with SHA1-Digest-Manifest: carries
    a value that decodes to 20 bytes, the SHA-1 of META-INF/MANIFEST.MF. *)
Definition vouches (pArchive : ZipArchive) (sf : ZipEntry) (mfEntry : nat) : Prop :=
  exists before line after expected mf,
    intact sf = true /\ inflates sf = true /\
    strtok_lines (contents sf ++ [x00]) = before ++ line :: after /\
    Forall (fun l => starts_with eqb_nocase (bytes "SHA1-Digest-Manifest: ") l = false)
           before /\
    starts_with eqb_nocase (bytes "SHA1-Digest-Manifest: ") line = true /\
    b64_pton (drop 22 line) 23 = (20, expected) /\
    mzFindZipEntry pArchive (bytes "META-INF/MANIFEST.MF") = Some mfEntry /\
    pArchive !! mfEntry = Some mf /\ inflates mf = true /\
    take 20 expected = take 20 (SHA (contents mf)).

(** ** The manifest, in the spec's words *)

Inductive manifest_line : Type :=
| Name_line (value : list byte)
| Continuation_line (tail : list byte)
| Digest_line (base64 : list byte)
| Other_line.

Definition classify (line : list byte) : manifest_line :=
  if starts_with eqb_nocase (bytes "Name: ") line then Name_line (drop 6 line)
  else if starts_with eqb_nocase (bytes " ") line then Continuation_line (drop 1 line)
  else if starts_with eqb_nocase (bytes "SHA1-Digest: ") line
  then Digest_line (drop 13 line)
  else Other_line.

(** The stanzas of a manifest: a name (a Name: line and the continuation
    lines after it, joined) and the value of the SHA1-Digest: line that
    follows; other lines in between are passed over.  [pending] is the name
    that waits for its digest.  A continuation line with no name pending
    continues the text "(null)", as [asprintf] prints a NULL string. *)
Fixpoint stanzas (lines : list (list byte)) (pending : option (list byte))
    : list (list byte * list byte) :=
  match lines with
  | [] => []
  | line :: lines' =>
    match classify line with
    | Name_line value => stanzas lines' (Some value)
    | Continuation_line tail =>
      stanzas lines' (Some (default (bytes "(null)") pending ++ tail))
    | Digest_line base64 =>
      match pending with
      | Some nm => (nm, base64) :: stanzas lines' None
      | None => stanzas lines' None
      end
    | Other_line => stanzas lines' pending
    end
  end.

(** The name left pending when the lines end. *)
Fixpoint pending_name (lines : list (list byte)) (pending : option (list byte))
    : option (list byte) :=
  match lines with
  | [] => pending
  | line :: lines' =>
    match classify line with
    | Name_line value => pending_name lines' (Some value)
    | Continuation_line tail =>
      pending_name lines' (Some (default (bytes "(null)") pending ++ tail))
    | Digest_line _ => pending_name lines' None
    | Other_line => pending_name lines' pending
    end
  end.

Definition manifest_index (pArchive : ZipArchive) : option nat :=
  mzFindZipEntry pArchive (bytes "META-INF/MANIFEST.MF").

Definition manifest_lines (pArchive : ZipArchive) : list (list byte) :=
  match manifest_index pArchive with
  | Some mfEntry =>
    match pArchive !! mfEntry with
    | Some mf => strtok_lines (contents mf ++ [x00])
    | None => []
    end
  | None => []
  end.

Definition manifest_stanzas (pArchive : ZipArchive) : list (list byte * list byte) :=
  stanzas (manifest_lines pArchive) None.

(** Exempt from coverage: the manifest, directories, signature files. *)
Definition exempt (pArchive : ZipArchive) (i : nat) (entry : ZipEntry) : bool :=
  match manifest_index pArchive with
  | Some mfEntry => skipped mfEntry i entry
  | None => false
  end.

(** The stanza names the entry at index [i], which can be read, and its
    digest decodes to 20 bytes, the SHA-1 of the entry's contents. *)
Definition stanza_matches (pArchive : ZipArchive)
    (stanza : list byte * list byte) (i : nat) : Prop :=
  exists entry expected,
    mzFindZipEntry pArchive (fst stanza) = Some i /\
    pArchive !! i = Some entry /\
    intact entry = true /\ inflates entry = true /\
    b64_pton (snd stanza) 23 = (20, expected) /\
    take 20 expected = take 20 (SHA (contents entry)).

(** The stanzas, in order, each match an entry whose flag is still set and
    clear it; [flags'] are the flags left. *)
Fixpoint covers (pArchive : ZipArchive) (ss : list (list byte * list byte))
    (flags flags' : list bool) : Prop :=
  match ss with
  | [] => flags' = flags
  | stanza :: ss' =>
    exists i, stanza_matches pArchive stanza i /\
              nth i flags false = true /\
              covers pArchive ss' (<[i := false]> flags) flags'
  end.

(** Coverage: every entry that is not exempt is matched by one stanza of
    the manifest and named by no other, and every stanza matches an entry
    that is not exempt. *)
Definition coverage (pArchive : ZipArchive) : Prop :=
  (forall i entry,
     pArchive !! i = Some entry -> exempt pArchive i entry = false ->
     exists k stanza,
       manifest_stanzas pArchive !! k = Some stanza /\
       stanza_matches pArchive stanza i /\
       forall k' stanza',
         manifest_stanzas pArchive !! k' = Some stanza' ->
         mzFindZipEntry pArchive (fst stanza') = Some i -> k' = k) /\
  (forall k stanza,
     manifest_stanzas pArchive !! k = Some stanza ->
     exists i entry,
       stanza_matches pArchive stanza i /\ pArchive !! i = Some entry /\
       exempt pArchive i entry = false).

(** A stanza names no entry of the archive. *)
Definition missing_entry (pArchive : ZipArchive) : Prop :=
  exists k stanza,
    manifest_stanzas pArchive !! k = Some stanza /\
    mzFindZipEntry pArchive (fst stanza) = None.

(** Two stanzas name the same entry. *)
Definition duplicated_entry (pArchive : ZipArchive) : Prop :=
  exists k1 k2 stanza1 stanza2 i,
    k1 <> k2 /\
    manifest_stanzas pArchive !! k1 = Some stanza1 /\
    manifest_stanzas pArchive !! k2 = Some stanza2 /\
    mzFindZipEntry pArchive (fst stanza1) = Some i /\
    mzFindZipEntry pArchive (fst stanza2) = Some i.

(** An entry that is not exempt is named by no stanza. *)
Definition extra_entry (pArchive : ZipArchive) : Prop :=
  exists i entry,
    pArchive !! i = Some entry /\ exempt pArchive i entry = false /\
    forall k stanza,
      manifest_stanzas pArchive !! k = Some stanza ->
      mzFindZipEntry pArchive (fst stanza) <> Some i.

(** The bytes of the entries whose flag is set. *)
Fixpoint pending_bytes (entries : list ZipEntry) (flags : list bool) : Z :=
  match entries, flags with
  | entry :: entries', b :: flags' =>
    (if b then mzGetZipEntryUncompLen entry else 0) + pending_bytes entries' flags'
  | _, _ => 0
  end.

(** The sum of the uncompressed lengths of the entries that are not exempt
    when the manifest is the entry at [mfEntry]. *)
Definition covered_bytes (pArchive : ZipArchive) (mfEntry : nat) : Z :=
  pending_bytes pArchive
    (imap (fun i entry => negb (skipped mfEntry i entry)) pArchive).

Definition total_blocks (bs : list (list byte)) : Z := Z.of_nat (length (concat bs)).

(** A run of reports that climbs from [lo] to [hi]: the fractions lie
    between the two, do not decrease, and the last one is [hi] ([lo] and
    [hi] are the same when there is none). *)
Definition climbs (lo hi : Q) (ps : list Q) : Prop :=
  (lo <= hi)%Q /\
  Forall (fun q => (lo <= q)%Q /\ (q <= hi)%Q) ps /\
  StronglySorted Qle ps /\
  (default lo (last ps) == hi)%Q.

(** The counter and the flags account for [total]: the bytes counted and
    the bytes of the entries still flagged add up to it. *)
Definition accounted (pArchive : ZipArchive) (total : Z) (st : manifest_state) : Prop :=
  0 <= done_bytes st /\
  done_bytes st + pending_bytes pArchive (unverified st) = total.

(** [totalBytes] of the JAR mode when the counter does not wrap: the bytes
    of the entries that are not exempt. *)
Definition jar_total (pArchive : ZipArchive) : Z :=
  match manifest_index pArchive with
  | Some mfEntry => covered_bytes pArchive mfEntry
  | None => 0
  end.

(** A recorded call of [b64_pton] has the buffer size [SHA_DIGEST_SIZE + 3]
    and the result the decoder gave. *)
Definition well_called (c : list byte * Z * Z) : Prop :=
  let '(src, targsize, n) := c in
  targsize = SHA_DIGEST_SIZE + 3 /\ n = fst (b64_pton src targsize).

(** ** Coverage, as the specification states it *)

(** The names a manifest lists: the value of each Name: line with the
    continuation lines that follow it, whether a digest follows or not. *)
Fixpoint listed_names (lines : list (list byte)) (pending : option (list byte))
    : list (list byte) :=
  match lines with
  | [] => match pending with Some nm => [nm] | None => [] end
  | line :: lines' =>
    match classify line with
    | Name_line value =>
      match pending with Some nm => [nm] | None => [] end
      ++ listed_names lines' (Some value)
    | Continuation_line tail =>
      match pending with
      | Some nm => listed_names lines' (Some (nm ++ tail))
      | None => listed_names lines' None
      end
    | Digest_line _ =>
      match pending with Some nm => [nm] | None => [] end
      ++ listed_names lines' None
    | Other_line => listed_names lines' pending
    end
  end.

(** The stanzas of the specification: a Name: line, the continuation
    lines after it, and the SHA1-Digest: line that follows. *)
Fixpoint stated_stanzas (lines : list (list byte)) (pending : option (list byte))
    : list (list byte * list byte) :=
  match lines with
  | [] => []
  | line :: lines' =>
    match classify line with
    | Name_line value => stated_stanzas lines' (Some value)
    | Continuation_line tail =>
      match pending with
      | Some nm => stated_stanzas lines' (Some (nm ++ tail))
      | None => stated_stanzas lines' None
      end
    | Digest_line base64 =>
      match pending with
      | Some nm => (nm, base64) :: stated_stanzas lines' None
      | None => stated_stanzas lines' None
      end
    | Other_line => stated_stanzas lines' pending
    end
  end.

(** A manifest in which every continuation line continues a name, and no
    name is left without its digest at the end. *)
Fixpoint proper (lines : list (list byte)) (pending : option (list byte)) : Prop :=
  match lines with
  | [] => pending = None
  | line :: lines' =>
    match classify line with
    | Name_line value => proper lines' (Some value)
    | Continuation_line tail =>
      pending <> None /\
      proper lines' (Some (default (bytes "(null)") pending ++ tail))
    | Digest_line _ => proper lines' None
    | Other_line => proper lines' pending
    end
  end.

Definition manifest_names (pArchive : ZipArchive) : list (list byte) :=
  listed_names (manifest_lines pArchive) None.

Definition manifest_stated_stanzas (pArchive : ZipArchive)
    : list (list byte * list byte) :=
  stated_stanzas (manifest_lines pArchive) None.

(** Every entry that is not exempt is matched by exactly one stanza, and
    every stanza matches an entry that is not exempt. *)
Definition coverage_stated (pArchive : ZipArchive) : Prop :=
  (forall i entry,
     pArchive !! i = Some entry -> exempt pArchive i entry = false ->
     exists k stanza,
       manifest_stated_stanzas pArchive !! k = Some stanza /\
       stanza_matches pArchive stanza i /\
       forall k' stanza',
         manifest_stated_stanzas pArchive !! k' = Some stanza' ->
         mzFindZipEntry pArchive (fst stanza') = Some i -> k' = k) /\
  (forall k stanza,
     manifest_stated_stanzas pArchive !! k = Some stanza ->
     exists i entry,
       stanza_matches pArchive stanza i /\ pArchive !! i = Some entry /\
       exempt pArchive i entry = false).

(** The manifest lists a name that is no entry of the archive. *)
Definition missing_stated (pArchive : ZipArchive) : Prop :=
  exists k nm,
    manifest_names pArchive !! k = Some nm /\ mzFindZipEntry pArchive nm = None.

(** The manifest lists an entry twice. *)
Definition duplicated_stated (pArchive : ZipArchive) : Prop :=
  exists k1 k2 nm1 nm2 i,
    k1 <> k2 /\
    manifest_names pArchive !! k1 = Some nm1 /\
    manifest_names pArchive !! k2 = Some nm2 /\
    mzFindZipEntry pArchive nm1 = Some i /\
    mzFindZipEntry pArchive nm2 = Some i.

(** An entry that is not exempt is not listed. *)
Definition extra_stated (pArchive : ZipArchive) : Prop :=
  exists i entry,
    pArchive !! i = Some entry /\ exempt pArchive i entry = false /\
    forall k nm,
      manifest_names pArchive !! k = Some nm ->
      mzFindZipEntry pArchive nm <> Some i.

(** The claim on coverage as the specification words it. *)
Definition coverage_as_stated (pArchive : ZipArchive) (pKeys : list RSAPublicKey) : Prop :=
  (fst (verify_jar_signature pArchive pKeys) = true -> coverage_stated pArchive) /\
  (missing_stated pArchive \/ duplicated_stated pArchive \/ extra_stated pArchive ->
   fst (verify_jar_signature pArchive pKeys) = false).

(** ** The signature chain, as the specification states it *)


(** ** Further views of a trace and of a manifest *)

(** The blocks handed to [SHA_update], in order. *)
Definition SHA_data_of (t : list event) : list (list byte) :=
  omap (fun e => match e with
                 | SHA_update data => Some data
                 | _ => None
                 end) t.

(** The lines of a manifest come in the order the loop of [verifyArchive]
    accepts: no Name: line while a name waits for its digest, and no
    SHA1-Digest: line with no name waiting.  [pending] is the name that
    waits. *)
Fixpoint well_formed (lines : list (list byte)) (pending : option (list byte)) : Prop :=
  match lines with
  | [] => True
  | line :: lines' =>
    match classify line with
    | Name_line value => pending = None /\ well_formed lines' (Some value)
    | Continuation_line tail =>
      well_formed lines' (Some (default (bytes "(null)") pending ++ tail))
    | Digest_line _ => pending <> None /\ well_formed lines' None
    | Other_line => well_formed lines' pending
    end
  end.

(** What [verifyArchive] asks of the archive when the manifest is the entry
    at [mfEntry]: the manifest can be read, its lines are well formed, its
    stanzas in turn each match an entry that is still flagged, and no flag
    is left. *)
Definition archive_covered (pArchive : ZipArchive) (mfEntry : nat) : Prop :=
  exists mf flags',
    pArchive !! mfEntry = Some mf /\ intact mf = true /\ inflates mf = true /\
    well_formed (strtok_lines (contents mf ++ [x00])) None /\
    covers pArchive (stanzas (strtok_lines (contents mf ++ [x00])) None)
      (imap (fun i entry => negb (skipped mfEntry i entry)) pArchive) flags' /\
    forall j, nth j flags' false = false.

(** ** Facts about the trace monad and about buffers *)

(** ** Facts about doubles *)

Lemma round_half_even_floor (q : Q) :
  Qfloor q <= round_half_even q <= Qfloor q + 1.
Proof.
  unfold round_half_even. cbv zeta.
  destruct (_ ?= _)%Q; [destruct (Z.even _) | |]; lia.
Qed.


Lemma round_half_even_le (x y : Q) :
  (x <= y)%Q -> round_half_even x <= round_half_even y.
Proof.
  intros Hxy. pose proof (Qfloor_resp_le x y Hxy) as Hfl.
  destruct (Z.eq_dec (Qfloor x) (Qfloor y)) as [Heq | Hne].
  - unfold round_half_even. cbv zeta. rewrite Heq.
    destruct (Qcompare_spec (x - inject_Z (Qfloor y)) (1 # 2));
      destruct (Qcompare_spec (y - inject_Z (Qfloor y)) (1 # 2));
      try destruct (Z.even (Qfloor y)); try lia; exfalso; lra.
  - pose proof (round_half_even_floor x). pose proof (round_half_even_floor y). lia.
Qed.

Lemma round_half_even_Z (k : Z) : round_half_even (inject_Z k) = k.
Proof.
  unfold round_half_even. cbv zeta. rewrite Qfloor_Z.
  destruct (Qcompare_spec (inject_Z k - inject_Z k) (1 # 2)); [exfalso; lra | reflexivity | exfalso; lra].
Qed.

Lemma pow2_pos (n : Z) : 0 <= n -> (0 < inject_Z (2 ^ n))%Q.
Proof.
  intros Hn. change 0%Q with (inject_Z 0). rewrite <- Zlt_Qlt.
  apply Z.pow_pos_nonneg; lia.
Qed.

Lemma double_shift_nonneg (t : Q) : 0 <= double_shift t.
Proof. unfold double_shift. lia. Qed.

Lemma double_shift_le (t t' : Q) :
  (t <= t')%Q -> double_shift t <= double_shift t'.
Proof.
  intros Hle. unfold double_shift.
  pose proof (Z.log2_le_mono _ _ (Qfloor_resp_le t t' Hle)). lia.
Qed.

Lemma Qfloor_nonneg (t : Q) : (0 <= t)%Q -> 0 <= Qfloor t.
Proof. intros Ht. apply (Qfloor_resp_le 0 t Ht). Qed.

(** A number that keeps [sh] bits back has fewer than [53 + sh] bits. *)
Lemma double_shift_upper (t : Q) :
  (0 <= t)%Q -> (t < inject_Z (2 ^ 53) * inject_Z (2 ^ double_shift t))%Q.
Proof.
  intros Ht. pose proof (Qfloor_nonneg t Ht) as HN.
  pose proof (double_shift_nonneg t) as Hsh.
  rewrite <- inject_Z_mult, <- Z.pow_add_r by lia.
  eapply Qlt_le_trans; [apply Qlt_floor |].
  rewrite <- Zle_Qle.
  assert (Qfloor t < 2 ^ (53 + double_shift t)); [| lia].
  destruct (Z.eq_dec (Qfloor t) 0) as [-> | Hne].
  - apply Z.pow_pos_nonneg; lia.
  - apply Z.log2_lt_pow2; [lia |]. unfold double_shift. lia.
Qed.

Lemma double_shift_lower (t : Q) :
  0 < double_shift t -> (inject_Z (2 ^ 52) * inject_Z (2 ^ double_shift t) <= t)%Q.
Proof.
  intros Hsh. rewrite <- inject_Z_mult, <- Z.pow_add_r by lia.
  eapply Qle_trans; [| apply Qfloor_le]. rewrite <- Zle_Qle.
  unfold double_shift in *.
  destruct (Z_le_gt_dec (Qfloor t) 0) as [Hle | Hgt].
  - rewrite (Z.log2_nonpos _ Hle) in Hsh. lia.
  - apply Z.log2_le_pow2; lia.
Qed.

Lemma double_units_upper (q : Q) :
  (0 <= q)%Q ->
  double_units q <= 2 ^ (53 + double_shift (q * inject_Z (2 ^ 1074))).
Proof.
  intros Hq. unfold double_units. cbv zeta.
  set (t := (q * inject_Z (2 ^ 1074))%Q).
  assert (Ht : (0 <= t)%Q).
  { subst t. apply Qmult_le_0_compat; [exact Hq |]. apply Qlt_le_weak, pow2_pos. lia. }
  pose proof (double_shift_nonneg t) as Hsh.
  rewrite Z.pow_add_r by lia.
  apply Z.mul_le_mono_nonneg_r; [apply Z.pow_nonneg; lia |].
  rewrite <- (round_half_even_Z (2 ^ 53)). apply round_half_even_le.
  apply Qle_shift_div_r; [apply pow2_pos, Hsh |].
  apply Qlt_le_weak, double_shift_upper, Ht.
Qed.

Lemma double_units_lower (q : Q) :
  0 < double_shift (q * inject_Z (2 ^ 1074)) ->
  2 ^ (52 + double_shift (q * inject_Z (2 ^ 1074))) <= double_units q.
Proof.
  intros Hsh. unfold double_units. cbv zeta.
  set (t := (q * inject_Z (2 ^ 1074))%Q) in *.
  rewrite Z.pow_add_r by lia.
  apply Z.mul_le_mono_nonneg_r; [apply Z.pow_nonneg; lia |].
  rewrite <- (round_half_even_Z (2 ^ 52)) at 1. apply round_half_even_le.
  apply Qle_shift_div_l; [apply pow2_pos; lia |].
  apply double_shift_lower, Hsh.
Qed.

Lemma double_units_le (x y : Q) :
  (0 <= x)%Q -> (x <= y)%Q -> double_units x <= double_units y.
Proof.
  intros Hx Hxy.
  assert (Hc : (0 < inject_Z (2 ^ 1074))%Q) by (apply pow2_pos; lia).
  assert (Ht : (x * inject_Z (2 ^ 1074) <= y * inject_Z (2 ^ 1074))%Q)
    by (apply Qmult_le_compat_r; [exact Hxy | apply Qlt_le_weak, Hc]).
  pose proof (double_shift_le _ _ Ht) as Hsh.
  pose proof (double_shift_nonneg (x * inject_Z (2 ^ 1074))) as Hsh0.
  destruct (Z.eq_dec (double_shift (x * inject_Z (2 ^ 1074)))
              (double_shift (y * inject_Z (2 ^ 1074)))) as [Heq | Hne].
  - unfold double_units. cbv zeta. rewrite Heq.
    apply Z.mul_le_mono_nonneg_r; [apply Z.pow_nonneg; lia |].
    apply round_half_even_le. unfold Qdiv.
    apply Qmult_le_compat_r; [exact Ht |].
    apply Qinv_le_0_compat, Qlt_le_weak, pow2_pos. lia.
  - eapply Z.le_trans; [apply double_units_upper, Hx |].
    eapply Z.le_trans; [| apply double_units_lower; lia].
    apply Z.pow_le_mono_r; lia.
Qed.

Lemma double_units_nonneg (q : Q) : (0 <= q)%Q -> 0 <= double_units q.
Proof.
  intros Hq. unfold double_units. cbv zeta.
  apply Z.mul_nonneg_nonneg; [| apply Z.pow_nonneg; lia].
  rewrite <- (round_half_even_Z 0). apply round_half_even_le.
  apply Qle_shift_div_l; [apply pow2_pos, double_shift_nonneg |].
  rewrite Qmult_0_l. apply Qmult_le_0_compat; [exact Hq |].
  apply Qlt_le_weak, pow2_pos. lia.
Qed.

Lemma double_units_comp (x y : Q) : (x == y)%Q -> double_units x = double_units y.
Proof.
  intros Hxy. unfold double_units. cbv zeta.
  assert (Ht : (x * inject_Z (2 ^ 1074) == y * inject_Z (2 ^ 1074))%Q)
    by (rewrite Hxy; reflexivity).
  assert (Hsh : double_shift (x * inject_Z (2 ^ 1074))
                = double_shift (y * inject_Z (2 ^ 1074)))
    by (unfold double_shift; rewrite (Qfloor_comp _ _ Ht); reflexivity).
  rewrite Hsh. f_equal.
  apply Z.le_antisymm; apply round_half_even_le; rewrite Ht; apply Qle_refl.
Qed.

Lemma to_double_comp (x y : Q) : (x == y)%Q -> to_double x = to_double y.
Proof.
  intros Hxy. unfold to_double.
  assert (Hb : Qle_bool 0 x = Qle_bool 0 y).
  { apply Bool.eq_iff_eq_true. rewrite !Qle_bool_iff, Hxy. reflexivity. }
  rewrite Hb. destruct (Qle_bool 0 y).
  - rewrite (double_units_comp x y Hxy). reflexivity.
  - rewrite (double_units_comp (- x) (- y)) by (rewrite Hxy; reflexivity).
    reflexivity.
Qed.

Lemma units_le (a b : Z) :
  a <= b -> (inject_Z a / inject_Z (2 ^ 1074) <= inject_Z b / inject_Z (2 ^ 1074))%Q.
Proof.
  intros Hab. unfold Qdiv. apply Qmult_le_compat_r; [rewrite <- Zle_Qle; exact Hab |].
  apply Qinv_le_0_compat, Qlt_le_weak, pow2_pos. lia.
Qed.

Lemma to_double_le (x y : Q) : (x <= y)%Q -> (to_double x <= to_double y)%Q.
Proof.
  intros Hxy. unfold to_double.
  destruct (Qle_bool 0 x) eqn:Hx, (Qle_bool 0 y) eqn:Hy; rewrite !Qred_correct.
  - apply Qle_bool_iff in Hx. apply units_le, double_units_le; assumption.
  - exfalso. apply Qle_bool_iff in Hx.
    assert (Qle_bool 0 y = true) by (apply Qle_bool_iff; lra). congruence.
  - assert (Hx' : (0 <= - x)%Q).
    { destruct (Qlt_le_dec x 0) as [Hlt | Hge]; [lra |].
      apply Qle_bool_iff in Hge. congruence. }
    apply Qle_bool_iff in Hy.
    pose proof (units_le 0 _ (double_units_nonneg (- x) Hx')) as H1.
    pose proof (units_le 0 _ (double_units_nonneg y Hy)) as H2.
    assert (H0 : (inject_Z 0 / inject_Z (2 ^ 1074) == 0)%Q)
      by (unfold Qdiv; change (inject_Z 0) with 0%Q; apply Qmult_0_l).
    rewrite H0 in H1, H2. lra.
  - assert (Hy' : (0 <= - y)%Q).
    { destruct (Qlt_le_dec y 0) as [Hlt | Hge]; [lra |].
      apply Qle_bool_iff in Hge. congruence. }
    apply Qopp_le_compat, units_le, double_units_le; [exact Hy' | lra].
Qed.

Lemma to_double_0 : to_double 0 = 0%Q.
Proof. vm_compute. reflexivity. Qed.

Lemma to_double_1 : to_double 1 = 1%Q.
Proof. vm_compute. reflexivity. Qed.


Lemma round_half_even_comp (x y : Q) : (x == y)%Q -> round_half_even x = round_half_even y.
Proof.
  intros Hxy. apply Z.le_antisymm; apply round_half_even_le; rewrite Hxy; apply Qle_refl.
Qed.

(** The units of a number that is a whole number of units. *)
Lemma double_units_of_units (M : Z) :
  double_units (inject_Z M / inject_Z (2 ^ 1074))
  = round_half_even (inject_Z M / inject_Z (2 ^ Z.max 0 (Z.log2 M - 52)))
    * 2 ^ Z.max 0 (Z.log2 M - 52).
Proof.
  unfold double_units. cbv zeta.
  assert (HC : (0 < inject_Z (2 ^ 1074))%Q) by (apply pow2_pos; lia).
  assert (Ht : (inject_Z M / inject_Z (2 ^ 1074) * inject_Z (2 ^ 1074) == inject_Z M)%Q)
    by (field; lra).
  assert (Hsh : double_shift (inject_Z M / inject_Z (2 ^ 1074) * inject_Z (2 ^ 1074))
                = Z.max 0 (Z.log2 M - 52))
    by (unfold double_shift; rewrite (Qfloor_comp _ _ Ht), Qfloor_Z; reflexivity).
  rewrite Hsh. f_equal. apply round_half_even_comp. rewrite Ht. reflexivity.
Qed.

Lemma round_half_even_quotient (m p : Z) :
  0 < p -> round_half_even (inject_Z (m * p) / inject_Z p) = m.
Proof.
  intros Hp. rewrite <- (round_half_even_Z m) at 2. apply round_half_even_comp.
  rewrite inject_Z_mult. field.
  assert (0 < inject_Z p)%Q by (change 0%Q with (inject_Z 0); rewrite <- Zlt_Qlt; exact Hp).
  lra.
Qed.

(** A mantissa of at most 53 bits, with 53 when bits were dropped, is kept. *)
Lemma double_units_exact (m sh : Z) :
  0 <= sh -> 0 <= m <= 2 ^ 53 -> (0 < sh -> 2 ^ 52 <= m) ->
  double_units (inject_Z (m * 2 ^ sh) / inject_Z (2 ^ 1074)) = m * 2 ^ sh.
Proof.
  intros Hsh Hm Hlow. rewrite double_units_of_units.
  assert (Hp : 0 < 2 ^ sh) by (apply Z.pow_pos_nonneg; lia).
  destruct (Z.eq_dec m 0) as [-> | Hm0].
  { rewrite Z.mul_0_l. change (Z.log2 0) with 0. change (Z.max 0 (0 - 52)) with 0.
    lia. }
  destruct (Z.eq_dec m (2 ^ 53)) as [-> | Hm53].
  { rewrite <- Z.pow_add_r by lia. rewrite Z.log2_pow2 by lia.
    replace (Z.max 0 (53 + sh - 52)) with (sh + 1) by lia.
    replace (53 + sh) with (52 + (sh + 1)) by lia.
    rewrite Z.pow_add_r by lia.
    rewrite round_half_even_quotient by (apply Z.pow_pos_nonneg; lia).
    reflexivity. }
  rewrite Z.log2_mul_pow2 by lia.
  assert (Hlog : Z.log2 m < 53) by (apply Z.log2_lt_pow2; lia).
  destruct (Z.eq_dec sh 0) as [-> | Hsh0].
  - replace (Z.max 0 (0 + Z.log2 m - 52)) with 0 by lia.
    rewrite round_half_even_quotient by lia. reflexivity.
  - assert (52 <= Z.log2 m) by (apply Z.log2_le_pow2; lia).
    replace (Z.max 0 (sh + Z.log2 m - 52)) with sh by lia.
    rewrite round_half_even_quotient by exact Hp. reflexivity.
Qed.

Lemma double_mantissa_range (t : Q) :
  (0 <= t)%Q ->
  let m := round_half_even (t / inject_Z (2 ^ double_shift t)) in
  0 <= m <= 2 ^ 53 /\ (0 < double_shift t -> 2 ^ 52 <= m).
Proof.
  intros Ht. cbv zeta. pose proof (double_shift_nonneg t) as Hsh.
  split; [split |].
  - rewrite <- (round_half_even_Z 0). apply round_half_even_le.
    apply Qle_shift_div_l; [apply pow2_pos, Hsh |]. rewrite Qmult_0_l. exact Ht.
  - rewrite <- (round_half_even_Z (2 ^ 53)). apply round_half_even_le.
    apply Qle_shift_div_r; [apply pow2_pos, Hsh |].
    apply Qlt_le_weak, double_shift_upper, Ht.
  - intros Hpos. rewrite <- (round_half_even_Z (2 ^ 52)) at 1.
    apply round_half_even_le.
    apply Qle_shift_div_l; [apply pow2_pos; lia |].
    apply double_shift_lower, Hpos.
Qed.

Lemma double_units_idem (x : Q) :
  (0 <= x)%Q ->
  double_units (inject_Z (double_units x) / inject_Z (2 ^ 1074)) = double_units x.
Proof.
  intros Hx. unfold double_units at 2 3. cbv zeta.
  set (t := (x * inject_Z (2 ^ 1074))%Q).
  assert (Ht : (0 <= t)%Q).
  { subst t. apply Qmult_le_0_compat; [exact Hx |]. apply Qlt_le_weak, pow2_pos. lia. }
  destruct (double_mantissa_range t Ht) as [Hm Hlow].
  apply double_units_exact; [apply double_shift_nonneg | exact Hm | exact Hlow].
Qed.

(** Rounding a double leaves it as it is. *)
Lemma to_double_idem (x : Q) : to_double (to_double x) = to_double x.
Proof.
  assert (HC : (0 < inject_Z (2 ^ 1074))%Q) by (apply pow2_pos; lia).
  unfold to_double at 2 3. destruct (Qle_bool 0 x) eqn:Hx.
  - apply Qle_bool_iff in Hx.
    rewrite (to_double_comp _ _ (Qred_correct _)). unfold to_double.
    assert (Hb : Qle_bool 0 (inject_Z (double_units x) / inject_Z (2 ^ 1074)) = true).
    { apply Qle_bool_iff. apply Qle_shift_div_l; [exact HC |].
      rewrite Qmult_0_l. change 0%Q with (inject_Z 0). rewrite <- Zle_Qle.
      apply double_units_nonneg, Hx. }
    rewrite Hb, (double_units_idem x Hx). reflexivity.
  - assert (Hx' : (0 <= - x)%Q).
    { destruct (Qlt_le_dec x 0) as [Hlt | Hge]; [lra |].
      apply Qle_bool_iff in Hge. congruence. }
    rewrite (to_double_comp _ _ (Qred_correct _)).
    pose proof (double_units_nonneg (- x) Hx') as Hu.
    destruct (Z.eq_dec (double_units (- x)) 0) as [H0 | Hne].
    + rewrite H0.
      rewrite (to_double_comp _ 0) by (unfold Qdiv; change (inject_Z 0) with 0%Q; ring).
      rewrite to_double_0. symmetry. 
      change 0%Q with (Qred 0). apply Qred_complete.
      unfold Qdiv. change (inject_Z 0) with 0%Q. ring.
    + unfold to_double.
      assert (Hpos : (0 < inject_Z (double_units (- x)) / inject_Z (2 ^ 1074))%Q).
      { apply Qlt_shift_div_l; [exact HC |]. rewrite Qmult_0_l.
        change 0%Q with (inject_Z 0). rewrite <- Zlt_Qlt. lia. }
      assert (Hb : Qle_bool 0 (- (inject_Z (double_units (- x)) / inject_Z (2 ^ 1074)))
                   = false).
      { apply Bool.not_true_is_false. rewrite Qle_bool_iff. lra. }
      rewrite Hb.
      rewrite (double_units_comp _ (inject_Z (double_units (- x)) / inject_Z (2 ^ 1074)))
        by ring.
      rewrite (double_units_idem (- x) Hx'). reflexivity.
Qed.


Lemma to_double_le_1 (x : Q) : (x <= 1)%Q -> (to_double x <= 1)%Q.
Proof. intros Hx. rewrite <- to_double_1. apply to_double_le, Hx. Qed.

Lemma to_double_ge_1 (x : Q) : (1 <= x)%Q -> (1 <= to_double x)%Q.
Proof. intros Hx. rewrite <- to_double_1 at 1. apply to_double_le, Hx. Qed.

Lemma double_of_Z_pos (L : Z) : 0 < L -> (0 < double_of_Z L)%Q.
Proof.
  intros HL. unfold double_of_Z.
  assert (1 <= to_double (inject_Z L))%Q; [| lra].
  apply to_double_ge_1. change 1%Q with (inject_Z 1). rewrite <- Zle_Qle. lia.
Qed.

Lemma double_of_Z_le (a b : Z) : a <= b -> (double_of_Z a <= double_of_Z b)%Q.
Proof. intros Hab. apply to_double_le. rewrite <- Zle_Qle. exact Hab. Qed.

(** The product of a double with 1.0 is that double. *)
Lemma double_mul_1 (x : Q) : double_mul (to_double x) 1 = to_double x.
Proof.
  unfold double_mul. rewrite (to_double_comp _ (to_double x)) by ring.
  apply to_double_idem.
Qed.

Lemma fraction_le (a b L : Z) :
  0 < L -> a <= b -> (fraction a L <= fraction b L)%Q.
Proof.
  intros HL Hab. unfold fraction, double_div. apply to_double_le.
  unfold Qdiv. apply Qmult_le_compat_r; [apply double_of_Z_le, Hab |].
  apply Qinv_le_0_compat, Qlt_le_weak, double_of_Z_pos, HL.
Qed.

Lemma fraction_le_1 (a L : Z) : 0 < L -> a <= L -> (fraction a L <= 1)%Q.
Proof.
  intros HL Ha. unfold fraction, double_div. apply to_double_le_1.
  apply Qle_shift_div_r; [apply double_of_Z_pos, HL |].
  rewrite Qmult_1_l. apply double_of_Z_le, Ha.
Qed.

Lemma fraction_ge_1 (a L : Z) : 0 < L -> L <= a -> (1 <= fraction a L)%Q.
Proof.
  intros HL Ha. unfold fraction, double_div. apply to_double_ge_1.
  apply Qle_shift_div_l; [apply double_of_Z_pos, HL |].
  rewrite Qmult_1_l. apply double_of_Z_le, Ha.
Qed.


Lemma fraction_0 (L : Z) : (fraction 0 L == 0)%Q.
Proof.
  unfold fraction, double_div, double_of_Z at 1. change (inject_Z 0) with 0%Q.
  rewrite to_double_0, (to_double_comp _ 0) by (unfold Qdiv; ring).
  rewrite to_double_0. reflexivity.
Qed.

Lemma fraction_1 (L : Z) : 0 < L -> (fraction L L == 1)%Q.
Proof.
  intros HL. pose proof (double_of_Z_pos L HL) as Hpos.
  unfold fraction, double_div.
  rewrite (to_double_comp _ 1) by (field; lra).
  rewrite to_double_1. reflexivity.
Qed.

(** What [updateHash] reports. *)
Lemma updateHash_fraction (done total : Z) :
  double_div (double_mul (double_of_Z done) 1) (double_of_Z total)
  = fraction done total.
Proof. unfold double_of_Z at 1. rewrite double_mul_1. reflexivity. Qed.


Lemma fst_bind {A B} (m : Trace A) (k : A -> Trace B) :
  fst (bind m k) = fst (k (fst m)).
Proof. unfold bind. destruct m as [a t1]. simpl. destruct (k a). reflexivity. Qed.

Lemma snd_bind {A B} (m : Trace A) (k : A -> Trace B) :
  snd (bind m k) = snd m ++ snd (k (fst m)).
Proof. unfold bind. destruct m as [a t1]. simpl. destruct (k a). reflexivity. Qed.

Lemma byteZ_range (b : byte) : 0 <= byteZ b < 256.
Proof.
  unfold byteZ. pose proof (Byte.to_N_bounded b) as H. lia.
Qed.

Lemma at_range (buf : list byte) (i : Z) : 0 <= at_ buf i < 256.
Proof. apply byteZ_range. Qed.

Lemma at_fread (f : list byte) (pos n i : Z) :
  0 <= pos -> 0 <= i < n -> at_ (fread f pos n) i = at_ f (pos + i).
Proof.
  intros Hpos Hi. unfold at_, fread. f_equal.
  rewrite nth_firstn.
  destruct (Nat.ltb_spec (Z.to_nat i) (Z.to_nat n)); [| lia].
  rewrite nth_skipn. f_equal. lia.
Qed.

Lemma length_fread (f : list byte) (pos n : Z) :
  0 <= pos -> 0 <= n -> pos + n <= Z.of_nat (length f) ->
  Z.of_nat (length (fread f pos n)) = n.
Proof.
  intros Hpos Hn Hle. unfold fread.
  rewrite length_take, length_drop. lia.
Qed.

Lemma fread_to_end (f : list byte) (pos n : Z) :
  0 <= pos -> pos + n = Z.of_nat (length f) ->
  fread f pos n = drop (Z.to_nat pos) f.
Proof.
  intros Hpos Hn. unfold fread. apply take_ge. rewrite length_drop. lia.
Qed.

Lemma at_drop (f : list byte) (k : nat) (i : Z) :
  0 <= i -> at_ (drop k f) i = at_ f (Z.of_nat k + i).
Proof.
  intros Hi. unfold at_. f_equal. rewrite nth_skipn. f_equal. lia.
Qed.

(** ** [verify_file]: the checks before hashing *)

Lemma verify_file_checks fs path pKeys f :
  fs path = Some f ->
  verify_file fs path pKeys =
  let* _ := call (ui_set_progress 0) in
  if format_checks f then hash_and_verify f pKeys
  else ret (Returned VERIFY_FAILURE).
Proof.
  intros Hf. unfold verify_file. rewrite Hf.
  match goal with
  | |- bind _ (fun _ => ?X) = bind _ (fun _ => ?Y) =>
    enough (X = Y) as ->; [reflexivity |]
  end.
  unfold format_checks, fseek_end, FOOTER_SIZE, EOCD_HEADER_SIZE.
  change (Z.of_nat (length f)) with (fileLen f).
  destruct (Z.ltb_spec (fileLen f - 6) 0) as [Hshort | Hlen].
  { destruct (Z.leb_spec 6 (fileLen f)); [lia | reflexivity]. }
  destruct (Z.leb_spec 6 (fileLen f)) as [_ |]; [| lia].
  rewrite length_fread by (unfold fileLen in *; lia).
  rewrite Z.eqb_refl. cbn [negb andb].
  rewrite !at_fread by lia.
  replace (fileLen f - 6 + 2) with (fileLen f - 4) by lia.
  replace (fileLen f - 6 + 3) with (fileLen f - 3) by lia.
  replace (fileLen f - 6 + 4) with (fileLen f - 2) by lia.
  replace (fileLen f - 6 + 5) with (fileLen f - 1) by lia.
  replace (fileLen f - 6 + 0) with (fileLen f - 6) by lia.
  replace (fileLen f - 6 + 1) with (fileLen f - 5) by lia.
  rewrite !Z.shiftl_mul_pow2 by lia.
  change (2 ^ 8) with 256.
  replace (at_ f (fileLen f - 1) * 256) with (256 * at_ f (fileLen f - 1)) by lia.
  replace (at_ f (fileLen f - 5) * 256) with (256 * at_ f (fileLen f - 5)) by lia.
  fold (commentLen f). fold (sigStart f).
  destruct (at_ f (fileLen f - 4) =? 255); [| reflexivity].
  destruct (at_ f (fileLen f - 3) =? 255); [| reflexivity].
  cbn [negb orb andb].
  destruct (Z.ltb_spec (sigStart f - 6) RSANUMBYTES) as [Hsig | Hsig].
  { destruct (Z.leb_spec RSANUMBYTES (sigStart f - 6)); [lia | reflexivity]. }
  destruct (Z.leb_spec RSANUMBYTES (sigStart f - 6)) as [_ |]; [| lia].
  cbn [andb].
  fold (eocdStart f).
  destruct (Z.ltb_spec (eocdStart f) 0) as [Hneg | Hpos].
  { destruct (Z.leb_spec 0 (eocdStart f)); [lia | reflexivity]. }
  destruct (Z.leb_spec 0 (eocdStart f)) as [_ |]; [| lia].
  cbn [andb].
  assert (Hc : 0 <= commentLen f) by (unfold commentLen; pose proof (at_range f (fileLen f - 2)); pose proof (at_range f (fileLen f - 1)); lia).
  rewrite fread_to_end by (unfold eocdStart, fileLen in *; lia).
  fold (eocdTail f).
  assert (Hl : Z.of_nat (length (eocdTail f)) = commentLen f + 22).
  { unfold eocdTail. rewrite length_drop. unfold eocdStart, fileLen in *. lia. }
  rewrite Hl, Z.eqb_refl. cbn [negb].
  unfold eocd_marker_at.
  change (0 + 1) with 1. change (0 + 2) with 2. change (0 + 3) with 3.
  destruct (at_ (eocdTail f) 0 =? 80); [| reflexivity].
  destruct (at_ (eocdTail f) 1 =? 75); [| reflexivity].
  destruct (at_ (eocdTail f) 2 =? 5); [| reflexivity].
  destruct (at_ (eocdTail f) 3 =? 6); [| reflexivity].
  cbn [negb orb andb].
  destruct (eocd_marker_later (eocdTail f) (commentLen f + 22)); [reflexivity |].
  cbn [negb]. unfold hash_and_verify, signedLen. reflexivity.
Qed.

(** ** [verify_file]: the hashing loop *)

Lemma hash_loop_size (signed_len so_far : Z) :
  so_far < signed_len ->
  let size := if signed_len - so_far <? BUFFER_SIZE
              then signed_len - so_far else BUFFER_SIZE in
  0 < size <= signed_len - so_far.
Proof.
  intros Hlt. cbv zeta. unfold BUFFER_SIZE.
  destruct (Z.ltb_spec (signed_len - so_far) 4096); lia.
Qed.

(** With fuel for every byte still to hash, the loop ends with the SHA
    context holding bytes [0, signed_len) of the file. *)
Lemma hash_loop_hashes (f : list byte) (signed_len : Z) (fuel : nat) :
  forall so_far frac,
    0 <= so_far <= signed_len -> signed_len <= fileLen f ->
    signed_len - so_far < Z.of_nat fuel ->
    fst (hash_loop fuel f signed_len so_far so_far (take (Z.to_nat so_far) f) frac)
    = Some (Hashed (take (Z.to_nat signed_len) f)).
Proof.
  induction fuel as [| fuel IH]; intros so_far frac Hso Hlen Hfuel.
  - lia.
  - cbn [hash_loop].
    destruct (Z.ltb_spec so_far signed_len) as [Hlt | Hge].
    + pose proof (hash_loop_size signed_len so_far Hlt) as Hsize.
      cbv zeta in Hsize.
      set (size := if signed_len - so_far <? BUFFER_SIZE
                   then signed_len - so_far else BUFFER_SIZE) in *.
      rewrite length_fread by (unfold fileLen in *; lia).
      rewrite Z.eqb_refl. cbn [negb].
      rewrite fst_bind.
      assert (Hctx : take (Z.to_nat so_far) f ++ fread f so_far size
                     = take (Z.to_nat (so_far + size)) f).
      { unfold fread. rewrite take_take_drop. f_equal. lia. }
      rewrite Hctx.
      match goal with |- context [if ?c then _ else _] => destruct c end.
      * rewrite fst_bind. apply IH; lia.
      * apply IH; lia.
    + simpl. do 3 f_equal. lia.
Qed.

Lemma format_checks_ranges (f : list byte) :
  format_checks f = true ->
  6 <= fileLen f /\ 0 <= commentLen f /\ 0 <= eocdStart f /\
  0 <= signedLen f <= fileLen f - 2 /\
  Z.of_nat (length (eocdTail f)) = commentLen f + 22.
Proof.
  unfold format_checks. intros H.
  repeat (apply andb_prop in H; destruct H as [H ?]).
  assert (Hc : 0 <= commentLen f).
  { unfold commentLen. pose proof (at_range f (fileLen f - 2)).
    pose proof (at_range f (fileLen f - 1)). lia. }
  assert (0 <= eocdStart f) by lia.
  repeat split; try (unfold signedLen, eocdStart in *; lia).
  unfold eocdTail. rewrite length_drop. unfold eocdStart, fileLen in *. lia.
Qed.

Lemma hash_and_verify_fst (f : list byte) (pKeys : list RSAPublicKey) :
  format_checks f = true ->
  fst (hash_and_verify f pKeys)
  = fst (verify_file_keys pKeys (eocdTail f) (commentLen f + 22)
           (SHA (take (Z.to_nat (signedLen f)) f))).
Proof.
  intros Hck. destruct (format_checks_ranges f Hck) as (H6 & Hc & He & Hs & Hl).
  unfold hash_and_verify. rewrite !fst_bind.
  change (call SHA_init) with (tt, [SHA_init]). cbn [fst].
  pose proof (hash_loop_hashes f (signedLen f) (S (Z.to_nat (signedLen f)))
                0 (-1)%Q) as Hh.
  change (take (Z.to_nat 0) f) with (@nil byte) in Hh.
  rewrite Hh by lia.
  rewrite fst_bind. reflexivity.
Qed.

(** ** [verify_file]: the loop over the keys *)

Lemma verify_file_keys_in_bounds pKeys eocd eocd_size sha1 sig :
  read_at eocd (eocd_size - 6 - RSANUMBYTES) RSANUMBYTES = Some sig ->
  verify_file_keys pKeys eocd eocd_size sha1
  = (Returned (if existsb (fun key => RSA_verify key sig RSANUMBYTES sha1) pKeys
               then VERIFY_SUCCESS else VERIFY_FAILURE),
     map (fun key => RSA_verify_call key sig sha1) (keys_tried pKeys sig sha1)).
Proof.
  intros Hsig. induction pKeys as [| key pKeys IH]; [reflexivity |].
  cbn [verify_file_keys existsb keys_tried]. rewrite Hsig.
  unfold bind, call. destruct (RSA_verify key sig RSANUMBYTES sha1).
  - reflexivity.
  - rewrite IH. reflexivity.
Qed.

Lemma verify_file_keys_out_of_bounds pKeys eocd eocd_size sha1 :
  read_at eocd (eocd_size - 6 - RSANUMBYTES) RSANUMBYTES = None ->
  verify_file_keys pKeys eocd eocd_size sha1
  = (match pKeys with [] => Returned VERIFY_FAILURE | _ => Undefined end, []).
Proof.
  intros Hsig. destruct pKeys as [| key pKeys]; [reflexivity |].
  cbn [verify_file_keys]. rewrite Hsig. reflexivity.
Qed.

(** ** [verify_file]: result and trace *)

Lemma verify_file_no_file fs path pKeys :
  fs path = None ->
  verify_file fs path pKeys = (Returned VERIFY_FAILURE, [ui_set_progress 0]).
Proof. intros Hf. unfold verify_file. rewrite Hf. reflexivity. Qed.

Lemma verify_file_rejected fs path pKeys f :
  fs path = Some f -> format_checks f = false ->
  verify_file fs path pKeys = (Returned VERIFY_FAILURE, [ui_set_progress 0]).
Proof.
  intros Hf Hck. rewrite (verify_file_checks fs path pKeys f Hf), Hck.
  reflexivity.
Qed.

Lemma verify_file_accepted fs path pKeys f :
  fs path = Some f -> format_checks f = true ->
  fst (verify_file fs path pKeys)
  = fst (verify_file_keys pKeys (eocdTail f) (commentLen f + 22)
           (SHA (take (Z.to_nat (signedLen f)) f))) /\
  snd (verify_file fs path pKeys)
  = ui_set_progress 0 :: SHA_init :: hash_trace f ++ SHA_final ::
    snd (verify_file_keys pKeys (eocdTail f) (commentLen f + 22)
           (SHA (take (Z.to_nat (signedLen f)) f))).
Proof.
  intros Hf Hck. rewrite (verify_file_checks fs path pKeys f Hf), Hck.
  split.
  - rewrite fst_bind. apply hash_and_verify_fst, Hck.
  - destruct (format_checks_ranges f Hck) as (H6 & Hc & He & Hs & Hl).
    rewrite snd_bind. cbn [call snd fst app]. f_equal.
    unfold hash_and_verify. rewrite snd_bind. cbn [call snd fst app]. f_equal.
    rewrite snd_bind. fold (hash_trace f). f_equal.
    pose proof (hash_loop_hashes f (signedLen f) (S (Z.to_nat (signedLen f)))
                  0 (-1)%Q) as Hh.
    change (take (Z.to_nat 0) f) with (@nil byte) in Hh.
    rewrite Hh by lia.
    rewrite snd_bind. reflexivity.
Qed.

Lemma hash_loop_events (f : list byte) (signed_len : Z) (fuel : nat) :
  forall pos so_far ctx frac,
    Forall (fun e => match e with
                     | SHA_update _ | ui_set_progress _ => True
                     | _ => False
                     end)
           (snd (hash_loop fuel f signed_len pos so_far ctx frac)).
Proof.
  induction fuel as [| fuel IH]; intros pos so_far ctx frac; cbn [hash_loop].
  - constructor.
  - destruct (so_far <? signed_len); [| constructor].
    match goal with |- context [if negb ?c then _ else _] => destruct c end;
      cbn [negb]; [| constructor].
    rewrite snd_bind. cbn [call snd fst app]. constructor; [exact I |].
    match goal with |- context [if ?c then _ else _] => destruct c end.
    + rewrite snd_bind. cbn [call snd fst app]. constructor; [exact I |]. apply IH.
    + apply IH.
Qed.

Lemma RSA_calls_of_hash_trace (f : list byte) : RSA_calls_of (hash_trace f) = [].
Proof.
  unfold hash_trace.
  pose proof (hash_loop_events f (signedLen f) (S (Z.to_nat (signedLen f)))
                0 0 [] (-1)%Q) as H.
  induction H as [| e t He _ IH]; [reflexivity |].
  unfold RSA_calls_of in *. cbn [omap]. destruct e; try contradiction; exact IH.
Qed.

Lemma RSA_calls_of_app (t1 t2 : list event) :
  RSA_calls_of (t1 ++ t2) = RSA_calls_of t1 ++ RSA_calls_of t2.
Proof. apply omap_app. Qed.

Lemma RSA_calls_of_map_call (keys : list RSAPublicKey) (sig sha1 : list byte) :
  RSA_calls_of (map (fun key => RSA_verify_call key sig sha1) keys)
  = map (fun key => (key, sig, sha1)) keys.
Proof.
  induction keys as [| k l IH]; [reflexivity |].
  cbn [map]. change (RSA_calls_of (RSA_verify_call k sig sha1 :: ?t))
    with ((k, sig, sha1) :: RSA_calls_of t).
  unfold RSA_calls_of in *. cbn [omap]. f_equal. exact IH.
Qed.

Lemma RSA_calls_of_verify_file fs path pKeys f sig :
  fs path = Some f -> format_checks f = true ->
  read_at (eocdTail f) (commentLen f + 22 - 6 - RSANUMBYTES) RSANUMBYTES = Some sig ->
  let sha1 := SHA (take (Z.to_nat (signedLen f)) f) in
  RSA_calls_of (snd (verify_file fs path pKeys))
  = map (fun key => (key, sig, sha1)) (keys_tried pKeys sig sha1).
Proof.
  intros Hf Hck Hsig sha1.
  destruct (verify_file_accepted fs path pKeys f Hf Hck) as [_ ->].
  fold sha1.
  rewrite (verify_file_keys_in_bounds pKeys _ _ sha1 sig Hsig). cbn [snd].
  match goal with
  | |- RSA_calls_of (?a :: ?b :: ?l ++ ?c :: ?r) = _ =>
    change (a :: b :: l ++ c :: r) with ([a; b] ++ l ++ [c] ++ r)
  end.
  rewrite !RSA_calls_of_app, RSA_calls_of_hash_trace, RSA_calls_of_map_call.
  reflexivity.
Qed.

(** Where the signature lies in the file when it lies in the tail. *)
Lemma read_at_tail (f : list byte) (sig : list byte) :
  format_checks f = true ->
  (read_at (eocdTail f) (commentLen f + 22 - 6 - RSANUMBYTES) RSANUMBYTES = Some sig
   <-> read_at f (fileLen f - 6 - RSANUMBYTES) RSANUMBYTES = Some sig /\
       RSANUMBYTES + 6 <= commentLen f + 22).
Proof.
  intros Hck. destruct (format_checks_ranges f Hck) as (H6 & Hc & He & Hs & Hl).
  unfold read_at. rewrite Hl. fold (fileLen f).
  assert (Hdrop : 0 <= commentLen f + 22 - 6 - RSANUMBYTES ->
                  drop (Z.to_nat (commentLen f + 22 - 6 - RSANUMBYTES)) (eocdTail f)
                  = drop (Z.to_nat (fileLen f - 6 - RSANUMBYTES)) f).
  { intros Hoff. unfold eocdTail. rewrite drop_drop. f_equal.
    unfold eocdStart in *. lia. }
  destruct (Z.leb_spec 0 (commentLen f + 22 - 6 - RSANUMBYTES)) as [Hoff | Hoff];
    cbn [andb].
  - rewrite (Hdrop Hoff).
    destruct (Z.leb_spec 0 (fileLen f - 6 - RSANUMBYTES)); [| unfold eocdStart in *; lia].
    destruct (Z.leb_spec 0 RSANUMBYTES); cbn [andb].
    2:{ split; [discriminate | intros [? _]; discriminate]. }
    destruct (Z.leb_spec (commentLen f + 22 - 6 - RSANUMBYTES + RSANUMBYTES)
                (commentLen f + 22)); [| lia].
    destruct (Z.leb_spec (fileLen f - 6 - RSANUMBYTES + RSANUMBYTES) (fileLen f));
      [| lia].
    split; [intros H'; split; [exact H' | lia] | intros [H' _]; exact H'].
  - split; [discriminate | intros [_ ?]; lia].
Qed.

Lemma RSA_calls_of_verify_file_out fs path pKeys f :
  fs path = Some f -> format_checks f = true ->
  read_at (eocdTail f) (commentLen f + 22 - 6 - RSANUMBYTES) RSANUMBYTES = None ->
  RSA_calls_of (snd (verify_file fs path pKeys)) = [].
Proof.
  intros Hf Hck Hsig.
  destruct (verify_file_accepted fs path pKeys f Hf Hck) as [_ ->].
  rewrite (verify_file_keys_out_of_bounds pKeys _ _ _ Hsig). cbn [snd].
  match goal with
  | |- RSA_calls_of (?a :: ?b :: ?l ++ ?c :: ?r) = _ =>
    change (a :: b :: l ++ c :: r) with ([a; b] ++ l ++ [c] ++ r)
  end.
  rewrite !RSA_calls_of_app, RSA_calls_of_hash_trace. reflexivity.
Qed.

Lemma existsb_In_iff {A} (p : A -> bool) (l : list A) :
  existsb p l = true <-> exists x, In x l /\ p x = true.
Proof. apply existsb_exists. Qed.

(** ** Whole-file mode: the claims *)

(** C1 (amended).  [verify_file] returns [VERIFY_SUCCESS] exactly when the
    file opens, passes the checks on its footer and tail (sentinel, room for
    a signature, tail inside the file, EOCD magic at its start and no later
    one), the tail holds [RSANUMBYTES] bytes before its 6-byte footer, and
    some trusted key verifies these bytes against the SHA-1 of bytes
    [0, signedLen) of the file, [signedLen = eocdStart + 22 - 2].  The keys
    are tried in order, up to the first that verifies. *)
Theorem verify_file_success fs path pKeys :
  (fst (verify_file fs path pKeys) = Returned VERIFY_SUCCESS <->
   exists f sig key,
     fs path = Some f /\ format_checks f = true /\
     RSANUMBYTES + 6 <= commentLen f + 22 /\
     read_at f (fileLen f - 6 - RSANUMBYTES) RSANUMBYTES = Some sig /\
     In key pKeys /\
     RSA_verify key sig RSANUMBYTES (SHA (take (Z.to_nat (signedLen f)) f)) = true)
  /\
  (forall f sig,
     fs path = Some f -> format_checks f = true ->
     RSANUMBYTES + 6 <= commentLen f + 22 ->
     read_at f (fileLen f - 6 - RSANUMBYTES) RSANUMBYTES = Some sig ->
     let sha1 := SHA (take (Z.to_nat (signedLen f)) f) in
     RSA_calls_of (snd (verify_file fs path pKeys))
     = map (fun key => (key, sig, sha1)) (keys_tried pKeys sig sha1)).
Proof.
  split.
  - split.
    + intros Hres. destruct (fs path) as [f |] eqn:Hf.
      2:{ rewrite (verify_file_no_file fs path pKeys Hf) in Hres. discriminate. }
      destruct (format_checks f) eqn:Hck.
      2:{ rewrite (verify_file_rejected fs path pKeys f Hf Hck) in Hres.
          discriminate. }
      destruct (verify_file_accepted fs path pKeys f Hf Hck) as [Hfst _].
      rewrite Hfst in Hres.
      destruct (read_at (eocdTail f) (commentLen f + 22 - 6 - RSANUMBYTES)
                  RSANUMBYTES) as [sig |] eqn:Hsig.
      * rewrite (verify_file_keys_in_bounds pKeys _ _ _ sig Hsig) in Hres.
        cbn [fst] in Hres.
        destruct (existsb _ pKeys) eqn:Hex; [| discriminate].
        apply existsb_In_iff in Hex. destruct Hex as (key & Hin & Hok).
        apply (read_at_tail f sig Hck) in Hsig. destruct Hsig as [Hsig Hroom].
        exists f, sig, key. repeat split; assumption.
      * rewrite (verify_file_keys_out_of_bounds pKeys _ _ _ Hsig) in Hres.
        destruct pKeys; discriminate.
    + intros (f & sig & key & Hf & Hck & Hroom & Hsig & Hin & Hok).
      destruct (verify_file_accepted fs path pKeys f Hf Hck) as [-> _].
      assert (Hsig' : read_at (eocdTail f) (commentLen f + 22 - 6 - RSANUMBYTES)
                        RSANUMBYTES = Some sig)
        by (apply (read_at_tail f sig Hck); auto).
      rewrite (verify_file_keys_in_bounds pKeys _ _ _ sig Hsig'). cbn [fst].
      replace (existsb _ pKeys) with true; [reflexivity |].
      symmetry. apply existsb_In_iff. eauto.
  - intros f sig Hf Hck Hroom Hsig sha1.
    apply RSA_calls_of_verify_file; auto.
    apply (read_at_tail f sig Hck); auto.
Qed.

(** C3.  A file whose EOCD-plus-comment tail holds the bytes 50 4B 05 06 at
    an offset [i] with [4 <= i < eocd_size - 3], or does not start with
    them, is rejected, whatever [RSA_verify] says of its signature. *)
Theorem hostile_eocd_rejected fs path pKeys f :
  fs path = Some f ->
  (exists i, 4 <= i < commentLen f + 22 - 3 /\
             eocd_marker_at (eocdTail f) i = true) \/
  eocd_marker_at (eocdTail f) 0 = false ->
  fst (verify_file fs path pKeys) = Returned VERIFY_FAILURE.
Proof.
  intros Hf Hbad.
  rewrite (verify_file_rejected fs path pKeys f Hf); [reflexivity |].
  unfold format_checks. destruct Hbad as [(i & Hi & Hm) | Hm].
  - assert (Hl : eocd_marker_later (eocdTail f) (commentLen f + 22) = true).
    { unfold eocd_marker_later. apply existsb_In_iff. exists i. split; [| exact Hm].
      apply list_elem_of_In, elem_of_seqZ. lia. }
    rewrite Hl. cbn [negb]. apply andb_false_r.
  - rewrite Hm. rewrite andb_false_r. reflexivity.
Qed.

(** The call has no defined result exactly when the file passes the checks,
    there is a key to try, and the tail is too short to hold the signature
    before its footer. *)
Lemma verify_file_undefined fs path pKeys :
  fst (verify_file fs path pKeys) = Undefined <->
  exists f,
    fs path = Some f /\ format_checks f = true /\ pKeys <> [] /\
    read_at (eocdTail f) (commentLen f + 22 - 6 - RSANUMBYTES) RSANUMBYTES = None.
Proof.
  split.
  - intros Hres. destruct (fs path) as [f |] eqn:Hf.
    2:{ rewrite (verify_file_no_file fs path pKeys Hf) in Hres. discriminate. }
    destruct (format_checks f) eqn:Hck.
    2:{ rewrite (verify_file_rejected fs path pKeys f Hf Hck) in Hres.
        discriminate. }
    destruct (verify_file_accepted fs path pKeys f Hf Hck) as [Hfst _].
    rewrite Hfst in Hres.
    destruct (read_at (eocdTail f) (commentLen f + 22 - 6 - RSANUMBYTES)
                RSANUMBYTES) as [sig |] eqn:Hsig.
    + rewrite (verify_file_keys_in_bounds pKeys _ _ _ sig Hsig) in Hres.
      discriminate.
    + rewrite (verify_file_keys_out_of_bounds pKeys _ _ _ Hsig) in Hres.
      exists f. repeat split; try assumption.
      intros ->. discriminate.
  - intros (f & Hf & Hck & Hkeys & Hsig).
    destruct (verify_file_accepted fs path pKeys f Hf Hck) as [-> _].
    rewrite (verify_file_keys_out_of_bounds pKeys _ _ _ Hsig).
    destruct pKeys; [contradiction | reflexivity].
Qed.

(** C5 (amended).  In a file that passes the checks, every signature handed
    to [RSA_verify] is the [RSANUMBYTES] bytes at offset
    [eocd_size - 6 - RSANUMBYTES] of the tail, that is bytes
    [fileLen - 6 - RSANUMBYTES, fileLen - 6) of the file, whatever
    [sigStart] is; these are the bytes that start [sigStart] bytes before
    the end when [sigStart = RSANUMBYTES + 6].  When the tail holds
    [RSANUMBYTES + 6] bytes the calls are made, one for each key tried, at
    least one when there is a key; when it does not, the pointer lies
    before the tail and no call is recorded. *)
Theorem signature_before_footer fs path pKeys f :
  fs path = Some f -> format_checks f = true ->
  (forall key sig sha,
     In (key, sig, sha) (RSA_calls_of (snd (verify_file fs path pKeys))) ->
     read_at (eocdTail f) (commentLen f + 22 - 6 - RSANUMBYTES) RSANUMBYTES
     = Some sig /\
     read_at f (fileLen f - 6 - RSANUMBYTES) RSANUMBYTES = Some sig /\
     (sigStart f = RSANUMBYTES + 6 ->
      read_at f (fileLen f - sigStart f) RSANUMBYTES = Some sig)) /\
  (0 <= RSANUMBYTES -> RSANUMBYTES + 6 <= commentLen f + 22 ->
   exists sig,
     read_at f (fileLen f - 6 - RSANUMBYTES) RSANUMBYTES = Some sig /\
     RSA_calls_of (snd (verify_file fs path pKeys))
     = map (fun key => (key, sig, SHA (take (Z.to_nat (signedLen f)) f)))
         (keys_tried pKeys sig (SHA (take (Z.to_nat (signedLen f)) f))) /\
     (pKeys <> [] -> RSA_calls_of (snd (verify_file fs path pKeys)) <> [])) /\
  (0 <= RSANUMBYTES -> commentLen f + 22 < RSANUMBYTES + 6 ->
   RSA_calls_of (snd (verify_file fs path pKeys)) = [] /\
   (pKeys <> [] -> fst (verify_file fs path pKeys) = Undefined)).
Proof.
  intros Hf Hck.
  destruct (format_checks_ranges f Hck) as (H6 & Hc & He & Hs & Hl).
  assert (Hread : forall sig,
             read_at (eocdTail f) (commentLen f + 22 - 6 - RSANUMBYTES) RSANUMBYTES
             = Some sig ->
             read_at f (fileLen f - 6 - RSANUMBYTES) RSANUMBYTES = Some sig)
    by (intros sig Hsig; apply (read_at_tail f sig Hck) in Hsig; apply Hsig).
  split; [| split].
  - intros key sig sha Hin.
    destruct (read_at (eocdTail f) (commentLen f + 22 - 6 - RSANUMBYTES)
                RSANUMBYTES) as [sig0 |] eqn:Hsig.
    + rewrite (RSA_calls_of_verify_file fs path pKeys f sig0 Hf Hck Hsig) in Hin.
      apply in_map_iff in Hin. destruct Hin as (k & Heq & _).
      injection Heq as _ <- _.
      split; [reflexivity |]. split; [apply Hread; reflexivity |].
      intros Hstart. rewrite Hstart.
      replace (fileLen f - (RSANUMBYTES + 6)) with (fileLen f - 6 - RSANUMBYTES)
        by lia.
      apply Hread. reflexivity.
    + rewrite (RSA_calls_of_verify_file_out fs path pKeys f Hf Hck Hsig) in Hin.
      destruct Hin.
  - intros HN Hroom.
    destruct (read_at (eocdTail f) (commentLen f + 22 - 6 - RSANUMBYTES)
                RSANUMBYTES) as [sig |] eqn:Hsig.
    + exists sig. split; [apply Hread; reflexivity |].
      pose proof (RSA_calls_of_verify_file fs path pKeys f sig Hf Hck Hsig)
        as Hcalls.
      cbv zeta in Hcalls. split; [exact Hcalls |].
      intros Hkeys. rewrite Hcalls.
      destruct pKeys as [| key pKeys]; [contradiction |].
      cbn [keys_tried map]. discriminate.
    + exfalso. unfold read_at in Hsig. rewrite Hl in Hsig.
      destruct (Z.leb_spec 0 (commentLen f + 22 - 6 - RSANUMBYTES)); [| lia].
      destruct (Z.leb_spec 0 RSANUMBYTES); [| lia].
      destruct (Z.leb_spec (commentLen f + 22 - 6 - RSANUMBYTES + RSANUMBYTES)
                  (commentLen f + 22)); [| lia].
      discriminate Hsig.
  - intros HN Hshort.
    assert (Hsig : read_at (eocdTail f) (commentLen f + 22 - 6 - RSANUMBYTES)
                     RSANUMBYTES = None).
    { unfold read_at.
      destruct (Z.leb_spec 0 (commentLen f + 22 - 6 - RSANUMBYTES)); [lia |].
      reflexivity. }
    split; [apply (RSA_calls_of_verify_file_out fs path pKeys f Hf Hck Hsig) |].
    intros Hkeys. apply verify_file_undefined. exists f.
    repeat split; assumption.
Qed.

(** C7.  A file whose footer bytes 2 and 3 are not both 0xFF is rejected
    without any call of [SHA_init], [SHA_update] or [SHA_final]; a file with
    [sigStart - 6 < RSANUMBYTES] is rejected. *)
Theorem bad_footer_rejected fs path pKeys f :
  fs path = Some f -> 6 <= fileLen f ->
  (at_ f (fileLen f - 4) <> 0xff \/ at_ f (fileLen f - 3) <> 0xff ->
   fst (verify_file fs path pKeys) = Returned VERIFY_FAILURE /\
   Forall (fun e => is_SHA_call e = false) (snd (verify_file fs path pKeys)))
  /\
  (sigStart f - 6 < RSANUMBYTES ->
   fst (verify_file fs path pKeys) = Returned VERIFY_FAILURE).
Proof.
  intros Hf H6. split.
  - intros Hbad.
    rewrite (verify_file_rejected fs path pKeys f Hf).
    + split; [reflexivity |]. repeat constructor.
    + unfold format_checks. destruct Hbad as [Hb | Hb];
        apply Z.eqb_neq in Hb; rewrite Hb;
        rewrite ?andb_false_r; reflexivity.
  - intros Hshort.
    rewrite (verify_file_rejected fs path pKeys f Hf); [reflexivity |].
    unfold format_checks.
    destruct (Z.leb_spec RSANUMBYTES (sigStart f - 6)); [lia |].
    rewrite ?andb_false_r. reflexivity.
Qed.

(** ** [verify_file]: progress reports *)

Lemma progress_of_cons_progress (q : Q) (t : list event) :
  progress_of (ui_set_progress q :: t) = q :: progress_of t.
Proof. reflexivity. Qed.

Lemma progress_of_cons_SHA_update (d : list byte) (t : list event) :
  progress_of (SHA_update d :: t) = progress_of t.
Proof. reflexivity. Qed.

Lemma progress_of_app (t1 t2 : list event) :
  progress_of (t1 ++ t2) = progress_of t1 ++ progress_of t2.
Proof. apply omap_app. Qed.

Lemma default_last_cons (lo q : Q) (ps : list Q) :
  default lo (last (q :: ps)) = default q (last ps).
Proof. rewrite last_cons. destruct (last ps); reflexivity. Qed.

Lemma double_0_02_value : double_0_02 = (5764607523034235 # 288230376151711744)%Q.
Proof. vm_compute. reflexivity. Qed.

(** A double [q] with [q + 0.02 >= 1] in double arithmetic is 0.98 or more,
    up to the rounding of the sum. *)
Lemma double_add_reaches_1 (q : Q) :
  (1 <= double_add q double_0_02)%Q -> ((98 # 100) - (1 # 2 ^ 52) <= q)%Q.
Proof.
  intros Hsum. destruct (Qlt_le_dec q ((98 # 100) - (1 # 2 ^ 52))) as [Hlt | Hge];
    [| exact Hge].
  exfalso. unfold double_add in Hsum. rewrite double_0_02_value in Hsum.
  assert (Hle : (q + (5764607523034235 # 288230376151711744)
                 <= 9007199254740991 # 9007199254740992)%Q).
  { change (2 ^ 52)%positive with 4503599627370496%positive in Hlt. lra. }
  apply to_double_le in Hle.
  assert (Hpred : to_double (9007199254740991 # 9007199254740992)
                  = (9007199254740991 # 9007199254740992)%Q)
    by (vm_compute; reflexivity).
  rewrite Hpred in Hle. lra.
Qed.

(** A double is not above the double sum of itself and 0.02. *)
Lemma double_add_0_02_le (x : Q) :
  (to_double x <= double_add (to_double x) double_0_02)%Q.
Proof.
  rewrite <- (to_double_idem x) at 1. apply to_double_le.
  rewrite double_0_02_value. lra.
Qed.

(** The reports of the hashing loop from a state in which [frac] is the last
    fraction reported: they do not decrease, lie at or above the fraction
    hashed so far and at or below 1, and when the loop ends the last
    fraction reported has reached 1 less 0.02, in double arithmetic. *)
Lemma hash_loop_progress (f : list byte) (signed_len : Z) (fuel : nat) :
  0 < signed_len -> signed_len <= fileLen f ->
  forall so_far ctx frac,
    0 <= so_far <= signed_len ->
    signed_len - so_far < Z.of_nat fuel ->
    so_far < signed_len \/
    (fraction so_far signed_len <= double_add frac double_0_02)%Q ->
    let ps := progress_of (snd (hash_loop fuel f signed_len so_far so_far ctx frac)) in
    Forall (fun q => (fraction so_far signed_len <= q)%Q /\ (q <= 1)%Q) ps /\
    StronglySorted Qle ps /\
    (1 <= double_add (default frac (last ps)) double_0_02)%Q.
Proof.
  intros HL Hlen. induction fuel as [| fuel IH];
    intros so_far ctx frac Hso Hfuel Hadv; [lia |].
  cbn [hash_loop].
  destruct (Z.ltb_spec so_far signed_len) as [Hlt | Hge].
  - pose proof (hash_loop_size signed_len so_far Hlt) as Hsize.
    cbv zeta in Hsize.
    set (size := if signed_len - so_far <? BUFFER_SIZE
                 then signed_len - so_far else BUFFER_SIZE) in *.
    rewrite length_fread by (unfold fileLen in *; lia).
    rewrite Z.eqb_refl. cbn [negb].
    rewrite snd_bind. cbn [call snd fst app].
    rewrite progress_of_cons_SHA_update.
    fold (fraction (so_far + size) signed_len).
    set (f' := fraction (so_far + size) signed_len).
    assert (Hstep : (fraction so_far signed_len <= f')%Q)
      by (apply fraction_le; lia).
    assert (Hf1 : (f' <= 1)%Q) by (apply fraction_le_1; lia).
    destruct (negb (Qle_bool f' (double_add frac double_0_02))
              || (size =? so_far + size)) eqn:Hrep.
    + rewrite snd_bind. cbn [call snd fst app].
      rewrite progress_of_cons_progress.
      destruct (IH (so_far + size) (ctx ++ fread f so_far size) f')
        as (Hall & Hsorted & Hlast); try lia.
      { right. fold f'. apply double_add_0_02_le. }
      fold f' in Hall. cbv zeta. split; [| split].
      * constructor; [split; assumption |].
        eapply Forall_impl; [exact Hall |].
        cbv beta. intros q [Hq1 Hq2]. split; [lra | exact Hq2].
      * constructor; [exact Hsorted |].
        eapply Forall_impl; [exact Hall |]. cbv beta. intros q [Hq1 _]. exact Hq1.
      * rewrite default_last_cons. exact Hlast.
    + apply orb_false_elim in Hrep. destruct Hrep as [Hle _].
      apply negb_false_iff, Qle_bool_iff in Hle.
      destruct (IH (so_far + size) (ctx ++ fread f so_far size) frac)
        as (Hall & Hsorted & Hlast); try lia.
      { right. exact Hle. }
      fold f' in Hall. cbv zeta. split; [| split; assumption].
      eapply Forall_impl; [exact Hall |].
      cbv beta. intros q [Hq1 Hq2]. split; [lra | exact Hq2].
  - cbn [ret snd]. cbv zeta. change (progress_of []) with (@nil Q).
    cbn [last default].
    split; [constructor | split; [constructor |]].
    destruct Hadv as [? | Hadv]; [lia |].
    assert (1 <= fraction so_far signed_len)%Q
      by (apply fraction_ge_1; lia).
    unfold default. cbn [from_option id]. lra.
Qed.

Lemma hash_loop_head (f : list byte) (signed_len : Z) (fuel : nat)
    (pos so_far : Z) (ctx : list byte) (frac : Q) :
  match snd (hash_loop fuel f signed_len pos so_far ctx frac) with
  | [] | SHA_update _ :: _ => True
  | _ => False
  end.
Proof.
  destruct fuel as [| fuel]; cbn [hash_loop]; [exact I |].
  destruct (so_far <? signed_len); [| exact I].
  match goal with |- context [if negb ?c then _ else _] => destruct c end;
    cbn [negb]; [| exact I].
  rewrite snd_bind. exact I.
Qed.

Lemma hash_loop_report_rule (f : list byte) (signed_len : Z) (fuel : nat) :
  signed_len <= fileLen f ->
  forall so_far ctx frac,
    0 <= so_far <= signed_len ->
    report_rule signed_len
      (snd (hash_loop fuel f signed_len so_far so_far ctx frac)) so_far frac.
Proof.
  intros Hlen. induction fuel as [| fuel IH]; intros so_far ctx frac Hso;
    cbn [hash_loop]; [exact I |].
  destruct (Z.ltb_spec so_far signed_len) as [Hlt | Hge]; [| exact I].
  pose proof (hash_loop_size signed_len so_far Hlt) as Hsize.
  cbv zeta in Hsize.
  set (size := if signed_len - so_far <? BUFFER_SIZE
               then signed_len - so_far else BUFFER_SIZE) in *.
  assert (Hbuf : Z.of_nat (length (fread f so_far size)) = size)
    by (apply length_fread; unfold fileLen in *; lia).
  rewrite Hbuf, Z.eqb_refl. cbn [negb].
  rewrite snd_bind. cbn [call snd fst app].
  fold (fraction (so_far + size) signed_len).
  set (f' := fraction (so_far + size) signed_len).
  destruct (negb (Qle_bool f' (double_add frac double_0_02))
            || (size =? so_far + size)) eqn:Hrep.
  - rewrite snd_bind. cbn [call snd fst app report_rule]. rewrite Hbuf.
    fold f'. split; [reflexivity |]. split.
    + apply orb_true_elim in Hrep. destruct Hrep as [Hgt | Hfirst].
      * left. apply negb_true_iff in Hgt. apply Qnot_le_lt. intros Hle.
        apply Qle_bool_iff in Hle. congruence.
      * right. apply Z.eqb_eq in Hfirst. lia.
    + apply IH. lia.
  - apply orb_false_elim in Hrep. destruct Hrep as [Hle Hfirst].
    apply negb_false_iff, Qle_bool_iff in Hle. apply Z.eqb_neq in Hfirst.
    pose proof (hash_loop_head f signed_len fuel (so_far + size) (so_far + size)
                  (ctx ++ fread f so_far size) frac) as Hhead.
    pose proof (IH (so_far + size) (ctx ++ fread f so_far size) frac
                  ltac:(lia)) as Hrec.
    cbn [report_rule]. rewrite Hbuf. fold f'.
    destruct (snd (hash_loop fuel f signed_len (so_far + size) (so_far + size)
                     (ctx ++ fread f so_far size) frac)) as [| e t].
    + split; [exact Hle |]. split; [lia | exact I].
    + destruct e; try contradiction.
      split; [exact Hle |]. split; [lia | exact Hrec].
Qed.

(** ** JAR mode: hashing an entry *)

Lemma b64_calls_of_app (t1 t2 : list event) :
  b64_calls_of (t1 ++ t2) = b64_calls_of t1 ++ b64_calls_of t2.
Proof. apply omap_app. Qed.

Lemma b64_calls_of_hashing (t : list event) :
  Forall hashing_event t -> b64_calls_of t = [].
Proof.
  induction 1 as [| e t He _ IH]; [reflexivity |].
  change (e :: t) with ([e] ++ t). rewrite b64_calls_of_app, IH.
  destruct e; try contradiction; reflexivity.
Qed.

Lemma RSA_calls_of_hashing (t : list event) :
  Forall hashing_event t -> RSA_calls_of t = [].
Proof.
  induction 1 as [| e t He _ IH]; [reflexivity |].
  change (e :: t) with ([e] ++ t). rewrite RSA_calls_of_app, IH.
  destruct e; try contradiction; reflexivity.
Qed.

Lemma updateHash_spec (data : list byte) (context : DigestContext) :
  digest (fst (updateHash data context)) = digest context ++ data /\
  totalBytes (fst (updateHash data context)) = totalBytes context /\
  Forall hashing_event (snd (updateHash data context)).
Proof.
  unfold updateHash. rewrite fst_bind, snd_bind. cbn [call fst snd app].
  destruct (doneBytes context) as [done |].
  - destruct (0 <? totalBytes context).
    + rewrite fst_bind, snd_bind. cbn [call ret fst snd app digest totalBytes].
      repeat split; repeat constructor.
    + cbn [ret fst snd digest totalBytes]. repeat split; repeat constructor.
  - cbn [ret fst snd digest totalBytes]. repeat split; repeat constructor.
Qed.

Lemma process_blocks_spec (bs : list (list byte)) :
  forall context,
    digest (fst (process_blocks bs context)) = digest context ++ concat bs /\
    totalBytes (fst (process_blocks bs context)) = totalBytes context /\
    Forall hashing_event (snd (process_blocks bs context)).
Proof.
  induction bs as [| data bs IH]; intros context; cbn [process_blocks].
  - cbn [ret fst snd concat]. rewrite app_nil_r. repeat split. constructor.
  - rewrite fst_bind, snd_bind.
    destruct (updateHash_spec data context) as (Hd & Ht & He).
    destruct (IH (fst (updateHash data context))) as (Hd' & Ht' & He').
    rewrite Hd', Ht', Hd, Ht. cbn [concat]. rewrite app_assoc.
    repeat split. apply Forall_app. split; assumption.
Qed.

Lemma digestEntry_digest (pEntry : ZipEntry) (done : option Z) (total : Z) :
  fst (fst (digestEntry pEntry done total))
  = if inflates pEntry
    then Some (take (Z.to_nat SHA_DIGEST_SIZE) (SHA (contents pEntry)))
    else None.
Proof.
  unfold digestEntry. rewrite !fst_bind. cbn [call fst].
  destruct (inflates pEntry); cbn [negb].
  - rewrite fst_bind. cbn [ret fst].
    destruct (process_blocks_spec (blocks pEntry)
                {| digest := []; doneBytes := done; totalBytes := total |})
      as (Hd & _ & _).
    rewrite Hd. reflexivity.
  - reflexivity.
Qed.

Lemma digestEntry_events (pEntry : ZipEntry) (done : option Z) (total : Z) :
  Forall hashing_event (snd (digestEntry pEntry done total)).
Proof.
  unfold digestEntry. rewrite !snd_bind. cbn [call fst snd app].
  constructor; [exact I |].
  destruct (process_blocks_spec (blocks pEntry)
              {| digest := []; doneBytes := done; totalBytes := total |})
    as (_ & _ & He).
  apply Forall_app. split; [exact He |].
  destruct (inflates pEntry); cbn [negb].
  - rewrite snd_bind. cbn [call ret snd app]. repeat constructor.
  - constructor.
Qed.

(** ** JAR mode: [verifySignature] *)

Lemma bytes_eqb_eq (a b : list byte) : bytes_eqb a b = true <-> a = b.
Proof.
  revert b. induction a as [| x a IH]; intros [| y b]; cbn [bytes_eqb];
    try (split; [discriminate | discriminate]); [split; reflexivity |].
  rewrite andb_true_iff, IH. split.
  - intros [Hxy ->]. apply Byte.byte_dec_bl in Hxy. subst. reflexivity.
  - intros [= -> ->]. split; [apply Byte.byte_dec_lb |]; reflexivity.
Qed.

Lemma starts_with_case (lit s : list byte) :
  starts_with eqb_case lit s = true <-> exists rest, s = lit ++ rest.
Proof.
  revert s. induction lit as [| p lit IH]; intros s; cbn [starts_with].
  - split; [exists s; reflexivity | reflexivity].
  - destruct s as [| c s].
    + split; [discriminate | intros [rest Hr]; discriminate].
    + rewrite andb_true_iff, IH. unfold eqb_case. split.
      * intros [Hpc [rest ->]]. apply Byte.byte_dec_bl in Hpc. subst.
        exists rest. reflexivity.
      * intros [rest [= -> ->]]. split; [apply Byte.byte_dec_lb; reflexivity |].
        exists rest. reflexivity.
Qed.

Lemma verifySignature_keys_spec (pKeys : list RSAPublicKey) (sig sfDigest : list byte) :
  fst (verifySignature_keys pKeys sig sfDigest)
  = existsb (fun key => RSA_verify key sig RSANUMBYTES sfDigest) pKeys /\
  snd (verifySignature_keys pKeys sig sfDigest)
  = map (fun key => RSA_verify_call key sig sfDigest) (keys_tried pKeys sig sfDigest).
Proof.
  induction pKeys as [| key pKeys [IH1 IH2]]; [split; reflexivity |].
  cbn [verifySignature_keys existsb keys_tried].
  rewrite fst_bind, snd_bind. cbn [call fst snd app].
  destruct (RSA_verify key sig RSANUMBYTES sfDigest); [split; reflexivity |].
  rewrite IH1, IH2. split; reflexivity.
Qed.

(** A name that begins with META-INF/ and ends in .RSA has the two apart. *)
Lemma rsa_name_length (base : list byte) :
  starts_with eqb_case (bytes "META-INF/") (base ++ bytes ".RSA") = true ->
  (9 <= length base)%nat.
Proof.
  intros H.
  destruct base as [| b0 [| b1 [| b2 [| b3 [| b4 [| b5 [| b6 [| b7 [| b8 base]]]]]]]]];
    cbn [length]; try lia; exfalso;
    cbn in H; repeat (apply andb_prop in H; destruct H as [? H]);
    repeat match goal with
           | Hb : eqb_case _ _ = true |- _ =>
             apply Byte.byte_dec_bl in Hb; try discriminate Hb; clear Hb
           end;
    try discriminate.
Qed.

Lemma is_rsa_candidate_spec (rsaEntry : ZipEntry) :
  is_rsa_candidate rsaEntry = true <->
  RSANUMBYTES <= mzGetZipEntryUncompLen rsaEntry /\
  starts_with eqb_case (bytes "META-INF/") (fileName rsaEntry) = true /\
  exists base, fileName rsaEntry = base ++ bytes ".RSA".
Proof.
  unfold is_rsa_candidate. rewrite !andb_true_iff, Z.leb_le, Z.ltb_lt.
  set (nm := fileName rsaEntry). split.
  - intros [[[HN Hlen] Hpre] Hsuf]. split; [exact HN |]. split; [exact Hpre |].
    apply starts_with_case in Hsuf. destruct Hsuf as [rest Hrest].
    exists (take (Z.to_nat (Z.of_nat (length nm) - 5 + 1)) nm).
    rewrite <- (take_drop (Z.to_nat (Z.of_nat (length nm) - 5 + 1)) nm) at 1.
    f_equal. rewrite Hrest.
    assert (Hl : length (drop (Z.to_nat (Z.of_nat (length nm) - 5 + 1)) nm) = 4%nat)
      by (rewrite length_drop; lia).
    rewrite Hrest, length_app in Hl. cbn in Hl.
    destruct rest; [apply app_nil_r | cbn in Hl; lia].
  - intros (HN & Hpre & base & Hbase). rewrite Hbase in *.
    pose proof (rsa_name_length base Hpre) as H9.
    rewrite length_app. change (length (bytes ".RSA")) with 4%nat.
    repeat split; [exact HN | lia | exact Hpre |].
    apply starts_with_case. exists [].
    replace (Z.to_nat (Z.of_nat (length base + 4) - 5 + 1)) with (length base + 0)%nat
      by lia.
    rewrite drop_app_add. reflexivity.
Qed.

Lemma sf_name_spec (base : list byte) :
  sf_name (base ++ bytes ".RSA") = base ++ bytes ".SF".
Proof.
  unfold sf_name. f_equal. rewrite length_app. change (length (bytes ".RSA")) with 4%nat.
  replace (Z.to_nat (Z.of_nat (length base + 4) - 5 + 1)) with (length base + 0)%nat
    by lia.
  rewrite take_app_add. cbn. apply app_nil_r.
Qed.

Lemma signature_of_spec (rsaEntry : ZipEntry) :
  RSANUMBYTES <= mzGetZipEntryUncompLen rsaEntry ->
  take (Z.to_nat RSANUMBYTES)
    (drop (Z.to_nat (mzGetZipEntryUncompLen rsaEntry - RSANUMBYTES))
       (contents rsaEntry ++ [x00]))
  = signature_of rsaEntry.
Proof.
  unfold signature_of, mzGetZipEntryUncompLen. intros HN.
  set (c := contents rsaEntry) in *.
  destruct (Z.le_gt_cases 0 RSANUMBYTES) as [Hpos | Hneg].
  - rewrite drop_app_le by lia.
    rewrite take_app_le by (rewrite length_drop; lia).
    apply take_ge. rewrite length_drop. lia.
  - replace (Z.to_nat RSANUMBYTES) with 0%nat by lia.
    rewrite take_0. symmetry. apply drop_ge. lia.
Qed.

Lemma verifySignature_entry_fst (pArchive : ZipArchive)
    (pKeys : list RSAPublicKey) (rsaEntry : ZipEntry) :
  fst (verifySignature_entry pArchive pKeys rsaEntry)
  = if is_rsa_candidate rsaEntry then
      match mzFindZipEntry pArchive (sf_name (fileName rsaEntry)) with
      | Some sfEntry =>
        match pArchive !! sfEntry with
        | Some sf =>
          if inflates sf && intact rsaEntry && inflates rsaEntry &&
             existsb (fun key => RSA_verify key (signature_of rsaEntry) RSANUMBYTES
                                   (take 20 (SHA (contents sf)))) pKeys
          then Some sfEntry else None
        | None => None
        end
      | None => None
      end
    else None.
Proof.
  unfold verifySignature_entry.
  destruct (is_rsa_candidate rsaEntry) eqn:Hc; [| reflexivity].
  apply is_rsa_candidate_spec in Hc. destruct Hc as (HN & _ & _).
  destruct (mzFindZipEntry pArchive (sf_name (fileName rsaEntry))) as [sfEntry |];
    [| reflexivity].
  destruct (pArchive !! sfEntry) as [sf |]; [| reflexivity].
  rewrite fst_bind, digestEntry_digest.
  destruct (inflates sf); [| reflexivity].
  unfold slurpEntry.
  destruct (intact rsaEntry); [| reflexivity].
  destruct (inflates rsaEntry); [| reflexivity].
  cbn [negb andb]. rewrite fst_bind.
  rewrite (proj1 (verifySignature_keys_spec pKeys _ _)).
  rewrite (signature_of_spec rsaEntry HN).
  change (Z.to_nat SHA_DIGEST_SIZE) with 20%nat.
  destruct (existsb _ pKeys); reflexivity.
Qed.

Lemma verifySignature_entry_spec (pArchive : ZipArchive)
    (pKeys : list RSAPublicKey) (rsaEntry : ZipEntry) (sfEntry : nat) :
  fst (verifySignature_entry pArchive pKeys rsaEntry) = Some sfEntry <->
  signs pArchive pKeys rsaEntry sfEntry.
Proof.
  rewrite verifySignature_entry_fst. unfold signs. split.
  - destruct (is_rsa_candidate rsaEntry) eqn:Hc; [| discriminate].
    apply is_rsa_candidate_spec in Hc. destruct Hc as (HN & Hpre & base & Hbase).
    rewrite Hbase at 1. rewrite sf_name_spec.
    destruct (mzFindZipEntry pArchive (base ++ bytes ".SF")) as [i |] eqn:Hfind;
      [| discriminate].
    destruct (pArchive !! i) as [sf |] eqn:Hsf; [| discriminate].
    destruct (_ && _) eqn:Hall; [| discriminate].
    intros [= <-].
    repeat (apply andb_prop in Hall; destruct Hall as [Hall ?]).
    match goal with H : existsb _ _ = true |- _ =>
      apply existsb_In_iff in H; destruct H as (key & Hin & Hok) end.
    exists base, sf, key. repeat split; assumption.
  - intros (base & sf & key & Hbase & Hpre & HN & Hfind & Hsf & Hi1 & Hi2 & Hi3
            & Hin & Hok).
    assert (Hc : is_rsa_candidate rsaEntry = true)
      by (apply is_rsa_candidate_spec; eauto).
    rewrite Hc. rewrite Hbase at 1. rewrite sf_name_spec, Hfind, Hsf, Hi1, Hi2, Hi3.
    cbn [andb].
    replace (existsb _ pKeys) with true; [reflexivity |].
    symmetry. apply existsb_In_iff. eauto.
Qed.

(** The loop returns the signature file of the first entry that verifies. *)
Lemma verifySignature_loop_spec (pArchive : ZipArchive)
    (pKeys : list RSAPublicKey) (rest : list ZipEntry) :
  match fst (verifySignature_loop pArchive pKeys rest) with
  | Some sfEntry =>
    exists i rsaEntry,
      rest !! i = Some rsaEntry /\ signs pArchive pKeys rsaEntry sfEntry /\
      forall j e s, (j < i)%nat -> rest !! j = Some e ->
                    ~ signs pArchive pKeys e s
  | None => forall e s, In e rest -> ~ signs pArchive pKeys e s
  end.
Proof.
  induction rest as [| e rest IH]; cbn [verifySignature_loop].
  - cbn [ret fst]. intros e s [].
  - rewrite fst_bind.
    destruct (fst (verifySignature_entry pArchive pKeys e)) as [s |] eqn:He.
    + cbn [ret fst]. exists 0%nat, e. split; [reflexivity |].
      split; [apply verifySignature_entry_spec; exact He |].
      intros j e' s' Hj. lia.
    + assert (Hno : forall s, ~ signs pArchive pKeys e s).
      { intros s Hs. apply verifySignature_entry_spec in Hs. congruence. }
      destruct (fst (verifySignature_loop pArchive pKeys rest)) as [s |].
      * destruct IH as (i & rsaEntry & Hi & Hs & Hfirst).
        exists (S i), rsaEntry. split; [exact Hi |]. split; [exact Hs |].
        intros [| j] e' s' Hj He'.
        -- injection He' as <-. apply Hno.
        -- apply (Hfirst j e' s'); [lia | exact He'].
      * intros e' s' [<- | Hin]; [apply Hno | apply IH; exact Hin].
Qed.

(** ** JAR mode: [verifyManifest] *)

Lemma memcmp_eq_20 (expected : list byte) (actual : list byte) :
  memcmp_eq expected (take 20 actual) SHA_DIGEST_SIZE = true <->
  take 20 expected = take 20 actual.
Proof.
  unfold memcmp_eq. change (Z.to_nat SHA_DIGEST_SIZE) with 20%nat.
  rewrite bytes_eqb_eq, take_take. reflexivity.
Qed.

Lemma verifyManifest_lines_spec (lines : list (list byte)) :
  match fst (verifyManifest_lines lines) with
  | Some expected =>
    exists before line after,
      lines = before ++ line :: after /\
      Forall (fun l => starts_with eqb_nocase (bytes "SHA1-Digest-Manifest: ") l
                       = false) before /\
      starts_with eqb_nocase (bytes "SHA1-Digest-Manifest: ") line = true /\
      b64_pton (drop 22 line) 23 = (20, expected)
  | None => True
  end.
Proof.
  induction lines as [| line lines IH]; cbn [verifyManifest_lines]; [exact I |].
  destruct (starts_with eqb_nocase (bytes "SHA1-Digest-Manifest: ") line) eqn:Hp.
  - change (SHA_DIGEST_SIZE + 3) with 23.
    destruct (b64_pton (drop 22 line) 23) as [n expected] eqn:Hb.
    rewrite fst_bind. cbn [call fst].
    destruct (Z.eqb_spec n SHA_DIGEST_SIZE) as [-> | Hn]; cbn [negb ret fst];
      [| exact I].
    exists [], line, lines.
    split; [reflexivity |]. split; [apply Forall_nil_2 |].
    split; [exact Hp | exact Hb].
  - destruct (fst (verifyManifest_lines lines)) as [expected |]; [| exact I].
    destruct IH as (before & l & after & -> & Hall & Hl & Hb).
    exists (line :: before), l, after. repeat split; try assumption.
    constructor; assumption.
Qed.

Lemma verifyManifest_spec (pArchive : ZipArchive) (sf : ZipEntry) (mfEntry : nat) :
  fst (verifyManifest pArchive sf) = Some mfEntry -> vouches pArchive sf mfEntry.
Proof.
  unfold verifyManifest, slurpEntry, vouches.
  destruct (intact sf); [| discriminate].
  destruct (inflates sf); [| discriminate].
  cbn [negb]. rewrite fst_bind.
  pose proof (verifyManifest_lines_spec (strtok_lines (contents sf ++ [x00]))) as Hl.
  destruct (fst (verifyManifest_lines _)) as [expected |]; [| discriminate].
  destruct Hl as (before & line & after & Hlines & Hall & Hline & Hb).
  destruct (mzFindZipEntry pArchive (bytes "META-INF/MANIFEST.MF")) as [i |] eqn:Hfind;
    [| discriminate].
  destruct (pArchive !! i) as [mf |] eqn:Hmf; [| discriminate].
  rewrite fst_bind, digestEntry_digest.
  destruct (inflates mf) eqn:Hinf; [| discriminate].
  change (Z.to_nat SHA_DIGEST_SIZE) with 20%nat.
  destruct (memcmp_eq expected (take 20 (SHA (contents mf))) SHA_DIGEST_SIZE) eqn:Hcmp;
    [| discriminate].
  cbn [negb ret fst]. intros [= <-].
  apply memcmp_eq_20 in Hcmp.
  exists before, line, after, expected, mf. repeat split; assumption.
Qed.

(** ** JAR mode: the chain of [verify_jar_signature] *)

Lemma verify_jar_signature_true (pArchive : ZipArchive) (pKeys : list RSAPublicKey) :
  fst (verify_jar_signature pArchive pKeys) = true <->
  exists sfEntry sf mfEntry,
    fst (verifySignature pArchive pKeys) = Some sfEntry /\
    pArchive !! sfEntry = Some sf /\
    fst (verifyManifest pArchive sf) = Some mfEntry /\
    fst (verifyArchive pArchive mfEntry) = true.
Proof.
  unfold verify_jar_signature. rewrite fst_bind. split.
  - destruct (fst (verifySignature pArchive pKeys)) as [sfEntry |]; [| discriminate].
    destruct (pArchive !! sfEntry) as [sf |] eqn:Hsf; [| discriminate].
    rewrite fst_bind.
    destruct (fst (verifyManifest pArchive sf)) as [mfEntry |] eqn:Hmf;
      [| discriminate].
    intros Harch. exists sfEntry, sf, mfEntry. auto.
  - intros (sfEntry & sf & mfEntry & -> & Hsf & Hmf & Harch).
    rewrite Hsf, fst_bind, Hmf. exact Harch.
Qed.

Lemma verify_jar_signature_signed (pArchive : ZipArchive) (pKeys : list RSAPublicKey) :
  fst (verify_jar_signature pArchive pKeys) = true ->
  exists i rsaEntry sfEntry sf mfEntry,
    pArchive !! i = Some rsaEntry /\
    signs pArchive pKeys rsaEntry sfEntry /\
    (forall j e s, (j < i)%nat -> pArchive !! j = Some e ->
                   ~ signs pArchive pKeys e s) /\
    pArchive !! sfEntry = Some sf /\
    vouches pArchive sf mfEntry /\
    fst (verifyArchive pArchive mfEntry) = true.
Proof.
  pose proof (verifySignature_loop_spec pArchive pKeys pArchive) as Hloop.
  fold (verifySignature pArchive pKeys) in Hloop.
  intros Hres. apply verify_jar_signature_true in Hres.
  destruct Hres as (sfEntry & sf & mfEntry & Hsig & Hsf & Hmf & Harch).
  rewrite Hsig in Hloop. destruct Hloop as (i & rsaEntry & Hi & Hs & Hfirst).
  exists i, rsaEntry, sfEntry, sf, mfEntry.
  repeat split; try assumption.
  apply verifyManifest_spec. exact Hmf.
Qed.

Lemma verify_jar_signature_unsigned (pArchive : ZipArchive) (pKeys : list RSAPublicKey) :
  (forall e s, In e pArchive -> ~ signs pArchive pKeys e s) ->
  fst (verify_jar_signature pArchive pKeys) = false.
Proof.
  intros Hnone.
  destruct (fst (verify_jar_signature pArchive pKeys)) eqn:Hres; [| reflexivity].
  apply verify_jar_signature_signed in Hres.
  destruct Hres as (i & rsaEntry & sfEntry & sf & mfEntry & Hi & Hs & _).
  exfalso. apply (Hnone rsaEntry sfEntry); [| exact Hs].
  apply list_elem_of_In. eapply list_elem_of_lookup_2. exact Hi.
Qed.

Lemma c_str_no_NUL (s : list byte) : ~ In x00 s -> c_str s = s.
Proof.
  induction s as [| c s IH]; cbn [c_str]; intros Hn; [reflexivity |].
  destruct (Byte.eqb c x00) eqn:Hc.
  - exfalso. apply Hn. left. apply Byte.byte_dec_bl, Hc.
  - f_equal. apply IH. intros Hin. apply Hn. right. exact Hin.
Qed.

Lemma find_name_Some (nm : list byte) (es : list ZipEntry) :
  forall k i,
    find_name nm es k = Some i ->
    exists e, es !! (i - k)%nat = Some e /\ fileName e = nm /\ (k <= i)%nat.
Proof.
  induction es as [| e es IH]; intros k i; cbn [find_name]; [discriminate |].
  destruct (bytes_eqb (fileName e) nm) eqn:Heq.
  - intros [= <-]. exists e. rewrite Nat.sub_diag.
    split; [reflexivity |]. split; [apply bytes_eqb_eq, Heq | lia].
  - intros Hfind. destruct (IH (S k) i Hfind) as (e' & He' & Hnm & Hle).
    exists e'. replace (i - k)%nat with (S (i - S k)) by lia.
    split; [exact He' |]. split; [exact Hnm | lia].
Qed.



(** C10.  With no trusted key both entry points fail on every input. *)
Theorem no_keys_no_success :
  (forall fs path, fst (verify_file fs path []) = Returned VERIFY_FAILURE) /\
  (forall pArchive, fst (verify_jar_signature pArchive []) = false).
Proof.
  split.
  - intros fs path. destruct (fs path) as [f |] eqn:Hf.
    + destruct (format_checks f) eqn:Hck.
      * destruct (verify_file_accepted fs path [] f Hf Hck) as [-> _].
        reflexivity.
      * rewrite (verify_file_rejected fs path [] f Hf Hck). reflexivity.
    + rewrite (verify_file_no_file fs path [] Hf). reflexivity.
  - intros pArchive. apply verify_jar_signature_unsigned.
    intros e s _ (base & sf & key & H). decompose [and] H.
    match goal with Hin : In key [] |- _ => destruct Hin end.
Qed.

(** ** JAR mode: [verifyArchive] *)

Lemma verifyArchive_line_step (pArchive : ZipArchive) (total : Z)
    (line : list byte) (st st' : manifest_state) :
  fst (verifyArchive_line pArchive total line st) = inl st' ->
  match classify line with
  | Name_line value =>
    name st = None /\ name st' = Some value /\ unverified st' = unverified st
  | Continuation_line tail =>
    name st' = Some (default (bytes "(null)") (name st) ++ tail) /\
    unverified st' = unverified st
  | Digest_line base64 =>
    exists nm i,
      name st = Some nm /\ stanza_matches pArchive (nm, base64) i /\
      nth i (unverified st) false = true /\
      name st' = None /\ unverified st' = <[i := false]> (unverified st)
  | Other_line => st' = st
  end.
Proof.
  unfold verifyArchive_line, classify.
  destruct (starts_with eqb_nocase (bytes "Name: ") line).
  { destruct (name st) as [nm |] eqn:Hn; cbn [ret fst]; [discriminate |].
    intros [= <-]. cbn [name unverified]. auto. }
  destruct (starts_with eqb_nocase (bytes " ") line).
  { cbn [ret fst]. intros [= <-]. cbn [name unverified].
    destruct (name st); auto. }
  destruct (starts_with eqb_nocase (bytes "SHA1-Digest: ") line).
  2:{ cbn [ret fst]. intros [= <-]. reflexivity. }
  destruct (name st) as [nm |] eqn:Hn; [| discriminate].
  destruct (mzFindZipEntry pArchive nm) as [i |] eqn:Hfind; [| discriminate].
  destruct (pArchive !! i) as [entry |] eqn:Hentry; [| discriminate].
  destruct (intact entry) eqn:Hint; [| discriminate].
  destruct (nth i (unverified st) false) eqn:Hflag; [| discriminate].
  cbn [negb]. change (SHA_DIGEST_SIZE + 3) with 23.
  destruct (b64_pton (drop 13 line) 23) as [n expected] eqn:Hb.
  rewrite fst_bind. cbn [call fst].
  destruct (Z.eqb_spec n SHA_DIGEST_SIZE) as [-> | Hn20]; [| discriminate].
  cbn [negb]. rewrite fst_bind, digestEntry_digest.
  destruct (inflates entry) eqn:Hinf; [| discriminate].
  change (Z.to_nat SHA_DIGEST_SIZE) with 20%nat.
  destruct (memcmp_eq expected (take 20 (SHA (contents entry))) SHA_DIGEST_SIZE)
    eqn:Hcmp; [| discriminate].
  cbn [negb ret fst]. intros [= <-]. cbn [name unverified].
  apply memcmp_eq_20 in Hcmp.
  exists nm, i. repeat split; try assumption.
  exists entry, expected. repeat split; assumption.
Qed.

Lemma verifyArchive_lines_covers (pArchive : ZipArchive) (total : Z)
    (lines : list (list byte)) :
  forall st st',
    fst (verifyArchive_lines pArchive total lines st) = (false, st') ->
    covers pArchive (stanzas lines (name st)) (unverified st) (unverified st').
Proof.
  induction lines as [| line lines IH]; intros st st'; cbn [verifyArchive_lines].
  - cbn [ret fst]. intros [= <-]. reflexivity.
  - rewrite fst_bind.
    destruct (fst (verifyArchive_line pArchive total line st)) as [st1 | st1] eqn:Hl;
      [| discriminate].
    intros Hrest. apply IH in Hrest.
    apply verifyArchive_line_step in Hl. cbn [stanzas].
    destruct (classify line) as [value | tail | base64 |].
    + destruct Hl as (_ & Hn & Hu). rewrite Hn, Hu in Hrest. exact Hrest.
    + destruct Hl as (Hn & Hu). rewrite Hn, Hu in Hrest. exact Hrest.
    + destruct Hl as (nm & i & Hn & Hm & Hflag & Hn' & Hu).
      rewrite Hn. cbn [covers]. exists i. rewrite Hn', Hu in Hrest. auto.
    + subst st1. exact Hrest.
Qed.

Lemma nth_insert_false (flags : list bool) (i j : nat) :
  nth j (<[i := false]> flags) false
  = if decide (i = j) then false else nth j flags false.
Proof.
  rewrite !nth_lookup. destruct (decide (i = j)) as [-> | Hne].
  - destruct (lt_dec j (length flags)) as [Hlt | Hge].
    + rewrite list_lookup_insert_eq by exact Hlt. reflexivity.
    + rewrite lookup_ge_None_2; [reflexivity |]. rewrite length_insert. lia.
  - rewrite list_lookup_insert_ne by exact Hne. reflexivity.
Qed.

Lemma stanza_matches_resolves (pArchive : ZipArchive)
    (stanza : list byte * list byte) (i : nat) :
  stanza_matches pArchive stanza i -> mzFindZipEntry pArchive (fst stanza) = Some i.
Proof. intros (entry & expected & Hfind & _). exact Hfind. Qed.

Lemma covers_length (pArchive : ZipArchive) (ss : list (list byte * list byte)) :
  forall flags flags',
    covers pArchive ss flags flags' -> length flags' = length flags.
Proof.
  induction ss as [| stanza ss IH]; intros flags flags'; cbn [covers].
  - intros ->. reflexivity.
  - intros (i & _ & _ & Hrest). rewrite (IH _ _ Hrest). apply length_insert.
Qed.

(** Every stanza matches an entry whose flag was set at the start. *)
Lemma covers_flagged (pArchive : ZipArchive) (ss : list (list byte * list byte)) :
  forall flags flags',
    covers pArchive ss flags flags' ->
    forall k stanza, ss !! k = Some stanza ->
    exists i, stanza_matches pArchive stanza i /\ nth i flags false = true.
Proof.
  induction ss as [| s ss IH]; intros flags flags'; cbn [covers].
  - intros _ k stanza Hk. rewrite lookup_nil in Hk. discriminate.
  - intros (i & Hm & Hflag & Hrest) [| k] stanza Hk.
    + injection Hk as <-. eauto.
    + destruct (IH _ _ Hrest k stanza Hk) as (j & Hmj & Hj).
      exists j. split; [exact Hmj |].
      rewrite nth_insert_false in Hj. destruct (decide (i = j)); [discriminate |].
      exact Hj.
Qed.

(** When no flag is left, every entry flagged at the start is matched by
    one stanza, and no other stanza names it. *)
Lemma covers_exactly_once (pArchive : ZipArchive) (ss : list (list byte * list byte)) :
  forall flags flags',
    covers pArchive ss flags flags' ->
    (forall j, nth j flags' false = false) ->
    forall i, nth i flags false = true ->
    exists k stanza,
      ss !! k = Some stanza /\ stanza_matches pArchive stanza i /\
      forall k' stanza', ss !! k' = Some stanza' ->
                         mzFindZipEntry pArchive (fst stanza') = Some i -> k' = k.
Proof.
  induction ss as [| s ss IH]; intros flags flags'; cbn [covers].
  - intros -> Hnone i Hi. rewrite Hnone in Hi. discriminate.
  - intros (i0 & Hm & Hflag & Hrest) Hnone i Hi.
    destruct (decide (i0 = i)) as [-> | Hne].
    + exists 0%nat, s. split; [reflexivity |]. split; [exact Hm |].
      intros [| k'] s' Hk' Hres; [reflexivity | exfalso].
      destruct (covers_flagged pArchive ss _ _ Hrest k' s' Hk') as (j & Hmj & Hj).
      apply stanza_matches_resolves in Hmj. rewrite Hres in Hmj.
      injection Hmj as <-. rewrite nth_insert_false in Hj.
      destruct (decide (i = i)); [discriminate | congruence].
    + assert (Hi' : nth i (<[i0 := false]> flags) false = true).
      { rewrite nth_insert_false. destruct (decide (i0 = i)); [congruence | exact Hi]. }
      destruct (IH _ _ Hrest Hnone i Hi') as (k & stanza & Hk & Hmk & Huniq).
      exists (S k), stanza. split; [exact Hk |]. split; [exact Hmk |].
      intros [| k'] s' Hk' Hres.
      * injection Hk' as <-. apply stanza_matches_resolves in Hm. congruence.
      * f_equal. apply (Huniq k' s' Hk' Hres).
Qed.

Lemma mark_unverified_flags (mfEntry : nat) (rest : list ZipEntry) :
  forall i total j,
    nth j (fst (mark_unverified mfEntry rest i total)) false
    = match rest !! j with
      | Some entry => negb (skipped mfEntry (i + j) entry)
      | None => false
      end.
Proof.
  induction rest as [| entry rest IH]; intros i total j; cbn [mark_unverified].
  - destruct j; reflexivity.
  - destruct (skipped mfEntry i entry) eqn:Hs.
    + specialize (IH (S i) total).
      destruct (mark_unverified mfEntry rest (S i) total) as [flags total'].
      cbn [fst] in *. destruct j as [| j]; cbn [nth].
      * change ((entry :: rest) !! 0%nat) with (Some entry).
        rewrite Nat.add_0_r, Hs. reflexivity.
      * change ((entry :: rest) !! S j) with (rest !! j).
        rewrite IH. replace (i + S j)%nat with (S i + j)%nat by lia. reflexivity.
    + specialize (IH (S i) ((total + mzGetZipEntryUncompLen entry) mod UINT_MAX1)).
      destruct (mark_unverified mfEntry rest (S i) _) as [flags total'].
      cbn [fst] in *. destruct j as [| j]; cbn [nth].
      * change ((entry :: rest) !! 0%nat) with (Some entry).
        rewrite Nat.add_0_r, Hs. reflexivity.
      * change ((entry :: rest) !! S j) with (rest !! j).
        rewrite IH. replace (i + S j)%nat with (S i + j)%nat by lia. reflexivity.
Qed.

Lemma mark_unverified_length (mfEntry : nat) (rest : list ZipEntry) :
  forall i total, length (fst (mark_unverified mfEntry rest i total)) = length rest.
Proof.
  induction rest as [| entry rest IH]; intros i total; cbn [mark_unverified];
    [reflexivity |].
  destruct (skipped mfEntry i entry).
  - specialize (IH (S i) total).
    destruct (mark_unverified mfEntry rest (S i) total). cbn in *. lia.
  - specialize (IH (S i) ((total + mzGetZipEntryUncompLen entry) mod UINT_MAX1)).
    destruct (mark_unverified mfEntry rest (S i) _). cbn in *. lia.
Qed.

Lemma first_unverified_spec (flags : list bool) :
  forall i,
    i <= first_unverified flags i <= i + Z.of_nat (length flags) /\
    (first_unverified flags i = i + Z.of_nat (length flags) <->
     forall j, nth j flags false = false).
Proof.
  induction flags as [| b flags IH]; intros i; cbn [first_unverified length].
  - split; [lia |]. split; [intros _ [| j]; reflexivity | lia].
  - destruct b.
    + split; [lia |]. split; [lia |]. intros H. specialize (H 0%nat). discriminate.
    + destruct (IH (i + 1)) as [Hr Hiff]. split; [lia |]. split.
      * intros Heq [| j]; [reflexivity |]. cbn [nth]. apply Hiff. lia.
      * intros Hall.
        assert (first_unverified flags (i + 1) = i + 1 + Z.of_nat (length flags)).
        { apply Hiff. intros j. apply (Hall (S j)). }
        lia.
Qed.

Lemma verifyArchive_true (pArchive : ZipArchive) (mfEntry : nat) :
  fst (verifyArchive pArchive mfEntry) = true ->
  exists mf flags',
    pArchive !! mfEntry = Some mf /\
    covers pArchive (stanzas (strtok_lines (contents mf ++ [x00])) None)
      (fst (mark_unverified mfEntry pArchive 0 0)) flags' /\
    forall j, nth j flags' false = false.
Proof.
  unfold verifyArchive, slurpEntry.
  destruct (pArchive !! mfEntry) as [mf |]; [| discriminate].
  destruct (intact mf); [| discriminate].
  destruct (inflates mf); [| discriminate].
  cbn [negb].
  pose proof (mark_unverified_length mfEntry pArchive 0 0) as Hlen.
  destruct (mark_unverified mfEntry pArchive 0 0) as [flags total] eqn:Hmark.
  cbn [fst] in *. rewrite fst_bind.
  destruct (fst (verifyArchive_lines pArchive total
                   (strtok_lines (contents mf ++ [x00]))
                   {| name := None; unverified := flags; done_bytes := 0 |}))
    as [broke st'] eqn:Hrun.
  cbn [fst snd]. destruct broke; [discriminate |].
  apply verifyArchive_lines_covers in Hrun. cbn [name unverified] in Hrun.
  destruct (Z.ltb_spec (first_unverified (unverified st') 0)
              (mzZipEntryCount pArchive)) as [| Hge]; [discriminate |].
  intros _. exists mf, (unverified st'). split; [reflexivity |].
  split; [exact Hrun |].
  pose proof (covers_length _ _ _ _ Hrun) as Hlen'.
  destruct (first_unverified_spec (unverified st') 0) as [Hr Hiff].
  apply Hiff. unfold mzZipEntryCount in Hge. lia.
Qed.

Lemma verify_jar_signature_covered (pArchive : ZipArchive) (pKeys : list RSAPublicKey) :
  fst (verify_jar_signature pArchive pKeys) = true -> coverage pArchive.
Proof.
  intros Hres. apply verify_jar_signature_signed in Hres.
  destruct Hres as (i0 & rsaEntry & sfEntry & sf & mfEntry & _ & _ & _ & _ & Hv & Harch).
  destruct Hv as (before & line & after & expected & mf & _ & _ & _ & _ & _ & _
                  & Hfind & Hmf & _).
  apply verifyArchive_true in Harch.
  destruct Harch as (mf' & flags' & Hmf' & Hcov & Hnone).
  rewrite Hmf in Hmf'. injection Hmf' as <-.
  assert (Hss : manifest_stanzas pArchive
                = stanzas (strtok_lines (contents mf ++ [x00])) None).
  { unfold manifest_stanzas, manifest_lines, manifest_index. rewrite Hfind, Hmf.
    reflexivity. }
  assert (Hex : forall i entry, exempt pArchive i entry = skipped mfEntry i entry).
  { intros i entry. unfold exempt, manifest_index. rewrite Hfind. reflexivity. }
  assert (Hflag : forall i entry,
             pArchive !! i = Some entry ->
             nth i (fst (mark_unverified mfEntry pArchive 0 0)) false
             = negb (skipped mfEntry i entry)).
  { intros i entry Hi. rewrite mark_unverified_flags, Hi. reflexivity. }
  unfold coverage. rewrite Hss. split.
  - intros i entry Hi Hne. rewrite Hex in Hne.
    apply (covers_exactly_once pArchive _ _ _ Hcov Hnone i).
    rewrite (Hflag i entry Hi), Hne. reflexivity.
  - intros k stanza Hk.
    destruct (covers_flagged pArchive _ _ _ Hcov k stanza Hk) as (i & Hm & Hi).
    pose proof Hm as (entry & expected' & _ & Hentry & _).
    exists i, entry. split; [exact Hm |]. split; [exact Hentry |].
    rewrite (Hflag i entry Hentry) in Hi. rewrite Hex.
    destruct (skipped mfEntry i entry); [discriminate | reflexivity].
Qed.

(** An archive with a stanza that names no entry, two stanzas that name one
    entry, or an entry that is not exempt and that no stanza names, is
    rejected. *)
Lemma verify_jar_signature_defect (pArchive : ZipArchive) (pKeys : list RSAPublicKey) :
  missing_entry pArchive \/ duplicated_entry pArchive \/ extra_entry pArchive ->
  fst (verify_jar_signature pArchive pKeys) = false.
Proof.
  intros Hbad.
  destruct (fst (verify_jar_signature pArchive pKeys)) eqn:Hres; [| reflexivity].
  exfalso. apply verify_jar_signature_covered in Hres.
  destruct Hres as [Hall Hstanza].
  destruct Hbad as [Hmiss | [Hdup | Hextra]].
  - destruct Hmiss as (k & stanza & Hk & Hnone).
    destruct (Hstanza k stanza Hk) as (i & entry & Hm & _).
    apply stanza_matches_resolves in Hm. congruence.
  - destruct Hdup as (k1 & k2 & s1 & s2 & i & Hne & Hk1 & Hk2 & Hr1 & Hr2).
    destruct (Hstanza k1 s1 Hk1) as (i' & entry & Hm & Hentry & Hex).
    apply stanza_matches_resolves in Hm. rewrite Hr1 in Hm. injection Hm as <-.
    destruct (Hall i entry Hentry Hex) as (k & stanza & _ & _ & Huniq).
    apply Hne. rewrite (Huniq k1 s1 Hk1 Hr1), (Huniq k2 s2 Hk2 Hr2). reflexivity.
  - destruct Hextra as (i & entry & Hentry & Hex & Hnot).
    destruct (Hall i entry Hentry Hex) as (k & stanza & Hk & Hm & _).
    apply stanza_matches_resolves in Hm. apply (Hnot k stanza Hk Hm).
Qed.

(** ** JAR mode: the calls of [b64_pton] *)

Lemma b64_calls_of_keys (pKeys : list RSAPublicKey) (sig sfDigest : list byte) :
  b64_calls_of (snd (verifySignature_keys pKeys sig sfDigest)) = [].
Proof.
  rewrite (proj2 (verifySignature_keys_spec pKeys sig sfDigest)).
  induction (keys_tried pKeys sig sfDigest) as [| k l IH]; [reflexivity |].
  cbn [map]. change (RSA_verify_call k sig sfDigest :: ?t)
    with ([RSA_verify_call k sig sfDigest] ++ t).
  rewrite b64_calls_of_app, IH. reflexivity.
Qed.

Lemma b64_calls_of_digestEntry (pEntry : ZipEntry) (done : option Z) (total : Z) :
  b64_calls_of (snd (digestEntry pEntry done total)) = [].
Proof. apply b64_calls_of_hashing, digestEntry_events. Qed.

Lemma b64_calls_of_verifySignature_entry (pArchive : ZipArchive)
    (pKeys : list RSAPublicKey) (rsaEntry : ZipEntry) :
  b64_calls_of (snd (verifySignature_entry pArchive pKeys rsaEntry)) = [].
Proof.
  unfold verifySignature_entry.
  destruct (is_rsa_candidate rsaEntry); [| reflexivity].
  destruct (mzFindZipEntry pArchive _) as [sfEntry |]; [| reflexivity].
  destruct (pArchive !! sfEntry) as [sf |]; [| reflexivity].
  rewrite snd_bind, b64_calls_of_app, b64_calls_of_digestEntry.
  destruct (fst (digestEntry sf None 0)).1 as [sfDigest |]; [| reflexivity].
  destruct (slurpEntry rsaEntry) as [rsaBuf |]; [| reflexivity].
  rewrite snd_bind, b64_calls_of_app, b64_calls_of_keys.
  destruct (fst (verifySignature_keys pKeys _ sfDigest)); reflexivity.
Qed.

Lemma b64_calls_of_verifySignature (pArchive : ZipArchive) (pKeys : list RSAPublicKey) :
  b64_calls_of (snd (verifySignature pArchive pKeys)) = [].
Proof.
  unfold verifySignature. generalize pArchive at 2. intros rest.
  induction rest as [| e rest IH]; cbn [verifySignature_loop]; [reflexivity |].
  rewrite snd_bind, b64_calls_of_app, b64_calls_of_verifySignature_entry.
  destruct (fst (verifySignature_entry pArchive pKeys e)); [reflexivity | exact IH].
Qed.

Lemma b64_calls_of_verifyManifest_lines (lines : list (list byte)) :
  forall c, In c (b64_calls_of (snd (verifyManifest_lines lines))) ->
            well_called c /\
            (snd c <> SHA_DIGEST_SIZE -> fst (verifyManifest_lines lines) = None).
Proof.
  induction lines as [| line lines IH]; intros c; cbn [verifyManifest_lines].
  - intros [].
  - destruct (starts_with eqb_nocase (bytes "SHA1-Digest-Manifest: ") line);
      [| apply IH].
    destruct (b64_pton (drop 22 line) (SHA_DIGEST_SIZE + 3)) as [n expected] eqn:Hb.
    rewrite snd_bind, fst_bind. cbn [call fst snd].
    destruct (Z.eqb_spec n SHA_DIGEST_SIZE) as [Hn | Hn]; cbn [negb ret snd fst];
      (intros [<- | []]; cbn [well_called snd]; rewrite Hb; cbn [fst];
       split; [split; reflexivity | congruence]).
Qed.

Lemma b64_calls_of_verifyManifest (pArchive : ZipArchive) (sf : ZipEntry) :
  forall c, In c (b64_calls_of (snd (verifyManifest pArchive sf))) ->
            well_called c /\
            (snd c <> SHA_DIGEST_SIZE -> fst (verifyManifest pArchive sf) = None).
Proof.
  intros c. unfold verifyManifest.
  destruct (slurpEntry sf) as [sfBuf |]; [| intros []].
  rewrite snd_bind, fst_bind, b64_calls_of_app.
  pose proof (b64_calls_of_verifyManifest_lines (strtok_lines sfBuf) c) as Hl.
  destruct (fst (verifyManifest_lines (strtok_lines sfBuf))) as [expected |].
  - intros Hin. apply in_app_or in Hin. destruct Hin as [Hin | Hin].
    + destruct (Hl Hin) as [Hw Hn]. split; [exact Hw |].
      intros Hne. specialize (Hn Hne). discriminate.
    + exfalso. revert Hin.
      destruct (mzFindZipEntry pArchive _) as [mfEntry |]; [| intros []].
      destruct (pArchive !! mfEntry) as [mf |]; [| intros []].
      rewrite snd_bind, b64_calls_of_app, b64_calls_of_digestEntry.
      destruct (fst (digestEntry mf None 0)).1; [| intros []].
      destruct (negb _); intros [].
  - cbn [ret snd]. change (b64_calls_of []) with (@nil (list byte * Z * Z)).
    rewrite app_nil_r. intros Hin. destruct (Hl Hin) as [Hw _].
    split; [exact Hw | reflexivity].
Qed.

Lemma b64_calls_of_verifyArchive_line (pArchive : ZipArchive) (total : Z)
    (line : list byte) (st : manifest_state) :
  forall c, In c (b64_calls_of (snd (verifyArchive_line pArchive total line st))) ->
            well_called c /\
            (snd c <> SHA_DIGEST_SIZE ->
             exists st', fst (verifyArchive_line pArchive total line st) = inr st').
Proof.
  intros c. unfold verifyArchive_line.
  destruct (starts_with eqb_nocase (bytes "Name: ") line).
  { destruct (name st); intros []. }
  destruct (starts_with eqb_nocase (bytes " ") line); [intros [] |].
  destruct (starts_with eqb_nocase (bytes "SHA1-Digest: ") line); [| intros []].
  destruct (name st) as [nm |]; [| intros []].
  destruct (mzFindZipEntry pArchive nm) as [i |]; [| intros []].
  destruct (pArchive !! i) as [entry |]; [| intros []].
  destruct (negb (intact entry)); [intros [] |].
  destruct (negb (nth i (unverified st) false)); [intros [] |].
  destruct (b64_pton (drop 13 line) (SHA_DIGEST_SIZE + 3)) as [n expected] eqn:Hb.
  rewrite snd_bind, fst_bind. cbn [call fst snd].
  change ([b64_pton_call (drop 13 line) (SHA_DIGEST_SIZE + 3) n] ++ ?t)
    with ([b64_pton_call (drop 13 line) (SHA_DIGEST_SIZE + 3) n] ++ t).
  rewrite b64_calls_of_app.
  destruct (Z.eqb_spec n SHA_DIGEST_SIZE) as [Hn | Hn]; cbn [negb].
  - rewrite snd_bind, b64_calls_of_app, b64_calls_of_digestEntry.
    assert (Hrest : forall (m : Trace (manifest_state + manifest_state)),
               (exists v, m = ret v) -> b64_calls_of (snd m) = []).
    { intros m [v ->]. reflexivity. }
    rewrite Hrest.
    + intros [<- | []]. cbn [well_called snd]. rewrite Hb. cbn [fst].
      split; [split; reflexivity | congruence].
    + destruct (fst (digestEntry entry _ total)).1; [| eauto].
      destruct (negb _); eauto.
  - cbn [ret snd fst]. intros [<- | []]. cbn [well_called snd]. rewrite Hb.
    cbn [fst]. split; [split; reflexivity | eauto].
Qed.

Lemma b64_calls_of_verifyArchive_lines (pArchive : ZipArchive) (total : Z)
    (lines : list (list byte)) :
  forall st c,
    In c (b64_calls_of (snd (verifyArchive_lines pArchive total lines st))) ->
    well_called c /\
    (snd c <> SHA_DIGEST_SIZE ->
     fst (fst (verifyArchive_lines pArchive total lines st)) = true).
Proof.
  induction lines as [| line lines IH]; intros st c; cbn [verifyArchive_lines].
  - intros [].
  - rewrite snd_bind, fst_bind, b64_calls_of_app.
    pose proof (b64_calls_of_verifyArchive_line pArchive total line st c) as Hl.
    destruct (fst (verifyArchive_line pArchive total line st)) as [st1 | st1].
    + intros Hin. apply in_app_or in Hin. destruct Hin as [Hin | Hin].
      * destruct (Hl Hin) as [Hw Hn]. split; [exact Hw |].
        intros Hne. destruct (Hn Hne) as [st' Hst']. discriminate.
      * apply (IH st1 c Hin).
    + cbn [ret snd fst]. change (b64_calls_of []) with (@nil (list byte * Z * Z)).
      rewrite app_nil_r. intros Hin. destruct (Hl Hin) as [Hw _].
      split; [exact Hw | reflexivity].
Qed.

Lemma b64_calls_of_verifyArchive (pArchive : ZipArchive) (mfEntry : nat) :
  forall c, In c (b64_calls_of (snd (verifyArchive pArchive mfEntry))) ->
            well_called c /\
            (snd c <> SHA_DIGEST_SIZE -> fst (verifyArchive pArchive mfEntry) = false).
Proof.
  intros c. unfold verifyArchive.
  destruct (pArchive !! mfEntry) as [mf |]; [| intros []].
  destruct (slurpEntry mf) as [mfBuf |]; [| intros []].
  destruct (mark_unverified mfEntry pArchive 0 0) as [flags total].
  rewrite snd_bind, fst_bind, b64_calls_of_app.
  set (st0 := {| name := None; unverified := flags; done_bytes := 0 |}).
  pose proof (b64_calls_of_verifyArchive_lines pArchive total (strtok_lines mfBuf)
                st0 c) as Hl.
  destruct (fst (verifyArchive_lines pArchive total (strtok_lines mfBuf) st0))
    as [broke st'].
  cbn [fst snd] in *.
  intros Hin. apply in_app_or in Hin. destruct Hin as [Hin | Hin].
  - destruct (Hl Hin) as [Hw Hn]. split; [exact Hw |].
    intros Hne. rewrite (Hn Hne). reflexivity.
  - exfalso. revert Hin. cbv zeta.
    destruct broke; [intros [] |]. destruct (_ <? _); intros [].
Qed.

(** C8.  Every call of [b64_pton] made by [verify_jar_signature] has the
    buffer size [SHA_DIGEST_SIZE + 3 = 23], and a call that does not return
    [SHA_DIGEST_SIZE = 20] makes the verification fail. *)
Theorem base64_digest_length (pArchive : ZipArchive) (pKeys : list RSAPublicKey)
    (src : list byte) (targsize n : Z) :
  In (src, targsize, n) (b64_calls_of (snd (verify_jar_signature pArchive pKeys))) ->
  targsize = 23 /\ n = fst (b64_pton src 23) /\
  (n <> 20 -> fst (verify_jar_signature pArchive pKeys) = false).
Proof.
  unfold verify_jar_signature.
  rewrite snd_bind, fst_bind, b64_calls_of_app, b64_calls_of_verifySignature.
  cbn [app].
  destruct (fst (verifySignature pArchive pKeys)) as [sfEntry |]; [| intros []].
  destruct (pArchive !! sfEntry) as [sf |]; [| intros []].
  rewrite snd_bind, fst_bind, b64_calls_of_app.
  pose proof (b64_calls_of_verifyManifest pArchive sf (src, targsize, n)) as Hm.
  destruct (fst (verifyManifest pArchive sf)) as [mfEntry |].
  - pose proof (b64_calls_of_verifyArchive pArchive mfEntry (src, targsize, n)) as Ha.
    intros Hin. apply in_app_or in Hin. destruct Hin as [Hin | Hin].
    + destruct (Hm Hin) as [[-> ->] Hn]. split; [reflexivity |].
      split; [reflexivity |]. intros Hne. specialize (Hn Hne). discriminate.
    + destruct (Ha Hin) as [[-> ->] Hn]. split; [reflexivity |].
      split; [reflexivity |]. exact Hn.
  - cbn [ret snd fst]. change (b64_calls_of []) with (@nil (list byte * Z * Z)).
    rewrite app_nil_r. intros Hin. destruct (Hm Hin) as [[-> ->] _].
    split; [reflexivity |]. split; reflexivity.
Qed.

(** ** JAR mode: progress reports *)

Lemma progress_of_hashing_free (t : list event) :
  Forall (fun e => match e with
                   | SHA_init | SHA_update _ | SHA_final
                   | RSA_verify_call _ _ _ | b64_pton_call _ _ _ => True
                   | ui_set_progress _ => False
                   end) t ->
  progress_of t = [].
Proof.
  induction 1 as [| e t He _ IH]; [reflexivity |].
  change (e :: t) with ([e] ++ t). rewrite progress_of_app, IH.
  destruct e; try contradiction; reflexivity.
Qed.

(** Hashing with a NULL counter reports nothing. *)
Lemma process_blocks_silent (bs : list (list byte)) :
  forall context,
    doneBytes context = None ->
    doneBytes (fst (process_blocks bs context)) = None /\
    progress_of (snd (process_blocks bs context)) = [].
Proof.
  induction bs as [| data bs IH]; intros context Hnone; cbn [process_blocks].
  - split; [exact Hnone | reflexivity].
  - rewrite fst_bind, snd_bind, progress_of_app.
    assert (Hu : doneBytes (fst (updateHash data context)) = None /\
                 progress_of (snd (updateHash data context)) = []).
    { unfold updateHash. rewrite Hnone, fst_bind, snd_bind. cbn. auto. }
    destruct Hu as [Hu1 Hu2]. destruct (IH _ Hu1) as [IH1 IH2].
    rewrite Hu2, IH2. auto.
Qed.

Lemma digestEntry_silent (pEntry : ZipEntry) (total : Z) :
  progress_of (snd (digestEntry pEntry None total)) = [].
Proof.
  unfold digestEntry. rewrite !snd_bind, !progress_of_app.
  destruct (process_blocks_silent (blocks pEntry)
              {| digest := []; doneBytes := None; totalBytes := total |} eq_refl)
    as [_ ->].
  destruct (inflates pEntry); cbn [negb]; [rewrite snd_bind |]; reflexivity.
Qed.

Lemma progress_of_keys (pKeys : list RSAPublicKey) (sig sfDigest : list byte) :
  progress_of (snd (verifySignature_keys pKeys sig sfDigest)) = [].
Proof.
  rewrite (proj2 (verifySignature_keys_spec pKeys sig sfDigest)).
  apply progress_of_hashing_free.
  induction (keys_tried pKeys sig sfDigest); constructor; [exact I | assumption].
Qed.

Lemma progress_of_verifySignature (pArchive : ZipArchive) (pKeys : list RSAPublicKey) :
  progress_of (snd (verifySignature pArchive pKeys)) = [].
Proof.
  unfold verifySignature. generalize pArchive at 2. intros rest.
  induction rest as [| e rest IH]; cbn [verifySignature_loop]; [reflexivity |].
  rewrite snd_bind, progress_of_app.
  assert (He : progress_of (snd (verifySignature_entry pArchive pKeys e)) = []).
  { unfold verifySignature_entry.
    destruct (is_rsa_candidate e); [| reflexivity].
    destruct (mzFindZipEntry pArchive _) as [sfEntry |]; [| reflexivity].
    destruct (pArchive !! sfEntry) as [sf |]; [| reflexivity].
    rewrite snd_bind, progress_of_app, digestEntry_silent.
    destruct (fst (digestEntry sf None 0)).1 as [sfDigest |]; [| reflexivity].
    destruct (slurpEntry e) as [rsaBuf |]; [| reflexivity].
    rewrite snd_bind, progress_of_app, progress_of_keys.
    destruct (fst (verifySignature_keys pKeys _ sfDigest)); reflexivity. }
  rewrite He.
  destruct (fst (verifySignature_entry pArchive pKeys e)); [reflexivity | exact IH].
Qed.

Lemma progress_of_verifyManifest (pArchive : ZipArchive) (sf : ZipEntry) :
  progress_of (snd (verifyManifest pArchive sf)) = [].
Proof.
  unfold verifyManifest.
  destruct (slurpEntry sf) as [sfBuf |]; [| reflexivity].
  rewrite snd_bind, progress_of_app.
  assert (Hl : progress_of (snd (verifyManifest_lines (strtok_lines sfBuf))) = []).
  { induction (strtok_lines sfBuf) as [| line lines IH];
      cbn [verifyManifest_lines]; [reflexivity |].
    destruct (starts_with eqb_nocase _ line); [| exact IH].
    destruct (b64_pton _ _) as [n expected].
    rewrite snd_bind. destruct (negb _); reflexivity. }
  rewrite Hl.
  destruct (fst (verifyManifest_lines (strtok_lines sfBuf))); [| reflexivity].
  destruct (mzFindZipEntry pArchive _) as [mfEntry |]; [| reflexivity].
  destruct (pArchive !! mfEntry) as [mf |]; [| reflexivity].
  rewrite snd_bind, progress_of_app, digestEntry_silent.
  destruct (fst (digestEntry mf None 0)).1; [| reflexivity].
  destruct (negb _); reflexivity.
Qed.

Lemma climbs_nil (lo : Q) : climbs lo lo [].
Proof.
  unfold climbs. cbn [last default].
  split; [apply Qle_refl |]. split; [constructor |]. split; [constructor |].
  reflexivity.
Qed.

Lemma climbs_cons (lo q hi : Q) (ps : list Q) :
  (lo <= q)%Q -> climbs q hi ps -> climbs lo hi (q :: ps).
Proof.
  intros Hlo (Hqh & Hall & Hsorted & Hlast). unfold climbs.
  split; [lra |]. split; [| split].
  - constructor; [split; assumption |].
    eapply Forall_impl; [exact Hall |]. cbv beta. intros p [? ?]. split; lra.
  - constructor; [exact Hsorted |].
    eapply Forall_impl; [exact Hall |]. cbv beta. intros p [? ?]. assumption.
  - rewrite default_last_cons. exact Hlast.
Qed.

Lemma climbs_app (lo mid hi : Q) (ps1 ps2 : list Q) :
  climbs lo mid ps1 -> climbs mid hi ps2 -> climbs lo hi (ps1 ++ ps2).
Proof.
  revert lo. induction ps1 as [| q ps1 IH]; intros lo H1 H2.
  - destruct H1 as (Hlm & _ & _ & Hlast). cbn [last default] in Hlast.
    destruct H2 as (Hmh & Hall & Hsorted & Hlast2). cbn [app]. unfold climbs.
    split; [lra |]. split; [| split; [exact Hsorted |]].
    + eapply Forall_impl; [exact Hall |]. cbv beta. intros p [? ?]. split; lra.
    + destruct (last ps2) as [p |]; cbn [default] in *; [exact Hlast2 | lra].
  - destruct H1 as (Hlm & Hall & Hsorted & Hlast).
    apply Forall_cons in Hall. destruct Hall as [[Hq1 Hq2] Hall].
    apply StronglySorted_inv in Hsorted. destruct Hsorted as [Hsorted Hge].
    rewrite default_last_cons in Hlast.
    cbn [app]. apply climbs_cons; [exact Hq1 |]. apply IH; [| exact H2].
    unfold climbs. split; [exact Hq2 |]. split; [| split; [exact Hsorted |]].
    + rewrite Forall_forall in Hall, Hge |- *. intros p Hp. split.
      * apply Hge, Hp.
      * apply (Hall p Hp).
    + exact Hlast.
Qed.

Lemma total_blocks_cons (data : list byte) (bs : list (list byte)) :
  total_blocks (data :: bs) = Z.of_nat (length data) + total_blocks bs.
Proof. unfold total_blocks. cbn [concat]. rewrite length_app. lia. Qed.

Lemma total_blocks_nonneg (bs : list (list byte)) : 0 <= total_blocks bs.
Proof. unfold total_blocks. lia. Qed.

(** Hashing the blocks [bs] with the counter at [d]: the counter ends at
    [d] plus their bytes, and the reports climb to that fraction. *)
Lemma process_blocks_progress (bs : list (list byte)) :
  forall context d,
    doneBytes context = Some d ->
    0 < totalBytes context < UINT_MAX1 ->
    0 <= d -> d + total_blocks bs <= totalBytes context ->
    doneBytes (fst (process_blocks bs context)) = Some (d + total_blocks bs) /\
    climbs (fraction d (totalBytes context))
           (fraction (d + total_blocks bs) (totalBytes context))
           (progress_of (snd (process_blocks bs context))).
Proof.
  induction bs as [| data bs IH]; intros context d Hd HT Hd0 Hsum;
    cbn [process_blocks].
  - change (total_blocks []) with 0. rewrite Z.add_0_r. cbn [ret fst snd].
    split; [exact Hd |]. apply climbs_nil.
  - rewrite total_blocks_cons in *.
    pose proof (total_blocks_nonneg bs) as Hbs.
    rewrite fst_bind, snd_bind, progress_of_app.
    set (d1 := d + Z.of_nat (length data)).
    assert (Hu : doneBytes (fst (updateHash data context)) = Some d1 /\
                 totalBytes (fst (updateHash data context)) = totalBytes context /\
                 progress_of (snd (updateHash data context))
                 = [(fraction d1 (totalBytes context))]).
    { unfold updateHash. rewrite Hd, fst_bind, snd_bind.
      rewrite Z.mod_small by (unfold UINT_MAX1 in *; lia). fold d1.
      destruct (Z.ltb_spec 0 (totalBytes context)); [| lia].
      rewrite fst_bind, snd_bind, updateHash_fraction.
      cbn [call ret fst snd app doneBytes totalBytes].
      repeat split; reflexivity. }
    destruct Hu as (Hu1 & Hu2 & Hu3).
    destruct (IH (fst (updateHash data context)) d1 Hu1) as [IH1 IH2];
      try (rewrite Hu2); try lia.
    rewrite Hu2 in IH2. rewrite IH1, Hu3.
    replace (d + (Z.of_nat (length data) + total_blocks bs))
      with (d1 + total_blocks bs) by lia.
    split; [reflexivity |]. cbn [app]. apply climbs_cons; [| exact IH2].
    apply fraction_le; lia.
Qed.

Lemma process_blocks_quiet (bs : list (list byte)) :
  forall context,
    totalBytes context <= 0 ->
    progress_of (snd (process_blocks bs context)) = [].
Proof.
  induction bs as [| data bs IH]; intros context HT; cbn [process_blocks];
    [reflexivity |].
  rewrite snd_bind, progress_of_app.
  destruct (updateHash_spec data context) as (_ & Ht & _).
  rewrite IH by lia. rewrite app_nil_r.
  unfold updateHash. rewrite snd_bind.
  destruct (doneBytes context); [| reflexivity].
  destruct (Z.ltb_spec 0 (totalBytes context)); [lia | reflexivity].
Qed.

Lemma digestEntry_progress (pEntry : ZipEntry) (d total : Z) :
  0 < total < UINT_MAX1 -> 0 <= d ->
  d + mzGetZipEntryUncompLen pEntry <= total ->
  snd (fst (digestEntry pEntry (Some d) total))
  = Some (d + mzGetZipEntryUncompLen pEntry) /\
  climbs (fraction d total)
         (fraction (d + mzGetZipEntryUncompLen pEntry) total)
         (progress_of (snd (digestEntry pEntry (Some d) total))).
Proof.
  intros HT Hd Hsum. unfold digestEntry.
  rewrite !fst_bind, !snd_bind, !progress_of_app. cbn [call fst snd].
  change (progress_of [SHA_init]) with (@nil Q). cbn [app].
  destruct (process_blocks_progress (blocks pEntry)
              {| digest := []; doneBytes := Some d; totalBytes := total |} d
              eq_refl HT Hd Hsum) as [Hdone Hclimb].
  cbn [totalBytes] in Hclimb.
  change (total_blocks (blocks pEntry)) with (mzGetZipEntryUncompLen pEntry) in *.
  destruct (inflates pEntry); cbn [negb].
  - rewrite fst_bind, snd_bind. cbn [call ret fst snd app].
    change (progress_of [SHA_final]) with (@nil Q). rewrite app_nil_r.
    split; assumption.
  - cbn [ret fst snd]. change (progress_of []) with (@nil Q). rewrite app_nil_r.
    split; assumption.
Qed.

Lemma digestEntry_quiet (pEntry : ZipEntry) (done : option Z) (total : Z) :
  total <= 0 -> progress_of (snd (digestEntry pEntry done total)) = [].
Proof.
  intros HT. unfold digestEntry. rewrite !snd_bind, !progress_of_app.
  rewrite process_blocks_quiet by exact HT.
  destruct (inflates pEntry); cbn [negb]; [rewrite snd_bind |]; reflexivity.
Qed.

Lemma pending_bytes_nonneg (entries : list ZipEntry) :
  forall flags, 0 <= pending_bytes entries flags.
Proof.
  induction entries as [| e entries IH]; intros [| b flags]; cbn [pending_bytes];
    try lia.
  specialize (IH flags). unfold mzGetZipEntryUncompLen. destruct b; lia.
Qed.

Lemma pending_bytes_clear (entries : list ZipEntry) :
  forall flags i entry,
    entries !! i = Some entry -> nth i flags false = true ->
    pending_bytes entries (<[i := false]> flags)
    = pending_bytes entries flags - mzGetZipEntryUncompLen entry.
Proof.
  induction entries as [| e entries IH]; intros [| b flags] [| i] entry Hi Hflag;
    try discriminate.
  - injection Hi as <-. cbn in Hflag. subst b. cbn [pending_bytes]. cbn. lia.
  - cbn in Hflag. change (<[S i := false]> (b :: flags)) with (b :: <[i := false]> flags).
    cbn [pending_bytes]. rewrite (IH flags i entry Hi Hflag). lia.
Qed.

Lemma pending_bytes_none (entries : list ZipEntry) :
  forall flags, (forall j, nth j flags false = false) ->
                pending_bytes entries flags = 0.
Proof.
  induction entries as [| e entries IH]; intros [| b flags] Hnone;
    cbn [pending_bytes]; try reflexivity.
  pose proof (Hnone 0%nat) as H0. cbn in H0. subst b.
  rewrite IH; [reflexivity |]. intros j. apply (Hnone (S j)).
Qed.

Lemma progress_of_b64_call (src : list byte) (targsize n : Z) (t : list event) :
  progress_of (b64_pton_call src targsize n :: t) = progress_of t.
Proof. reflexivity. Qed.

(** One line of the manifest: the reports climb from the fraction counted
    before to the one counted after. *)
Lemma verifyArchive_line_progress (pArchive : ZipArchive) (total : Z)
    (line : list byte) (st : manifest_state) :
  0 < total < UINT_MAX1 -> accounted pArchive total st ->
  exists hi,
    done_bytes st <= hi <= total /\
    climbs (fraction (done_bytes st) total) (fraction hi total)
           (progress_of (snd (verifyArchive_line pArchive total line st))) /\
    forall st', fst (verifyArchive_line pArchive total line st) = inl st' ->
                accounted pArchive total st' /\ done_bytes st' = hi.
Proof.
  intros HT [Hd Hacc].
  pose proof (pending_bytes_nonneg pArchive (unverified st)) as Hpend.
  assert (Hquiet : forall (m : Trace (manifest_state + manifest_state)),
             snd m = [] ->
             (forall st', fst m = inl st' ->
                          unverified st' = unverified st /\
                          done_bytes st' = done_bytes st) ->
             exists hi,
               done_bytes st <= hi <= total /\
               climbs (fraction (done_bytes st) total)
                      (fraction hi total) (progress_of (snd m)) /\
               forall st', fst m = inl st' ->
                           accounted pArchive total st' /\ done_bytes st' = hi).
  { intros m Hm Hst. exists (done_bytes st). split; [lia |]. rewrite Hm.
    split; [apply climbs_nil |]. intros st' Hst'.
    destruct (Hst st' Hst') as [Hu Hdn]. unfold accounted. rewrite Hu, Hdn. auto. }
  unfold verifyArchive_line.
  destruct (starts_with eqb_nocase (bytes "Name: ") line).
  { destruct (name st); apply Hquiet; try reflexivity;
      cbn [ret fst]; intros st' [= <-]; cbn; auto. }
  destruct (starts_with eqb_nocase (bytes " ") line).
  { apply Hquiet; [reflexivity |]. cbn [ret fst]. intros st' [= <-]. cbn. auto. }
  destruct (starts_with eqb_nocase (bytes "SHA1-Digest: ") line).
  2:{ apply Hquiet; [reflexivity |]. cbn [ret fst]. intros st' [= <-]. auto. }
  destruct (name st) as [nm |];
    [| apply Hquiet; [reflexivity | cbn [ret fst]; intros st' [=]]].
  destruct (mzFindZipEntry pArchive nm) as [i |];
    [| apply Hquiet; [reflexivity | cbn [ret fst]; intros st' [=]]].
  destruct (pArchive !! i) as [entry |] eqn:Hentry;
    [| apply Hquiet; [reflexivity | cbn [ret fst]; intros st' [=]]].
  destruct (intact entry); cbn [negb];
    [| apply Hquiet; [reflexivity | cbn [ret fst]; intros st' [=]]].
  destruct (nth i (unverified st) false) eqn:Hflag; cbn [negb];
    [| apply Hquiet; [reflexivity | cbn [ret fst]; intros st' [=]]].
  destruct (b64_pton (drop 13 line) (SHA_DIGEST_SIZE + 3)) as [n expected].
  rewrite snd_bind, fst_bind. cbn [call fst snd app].
  rewrite progress_of_b64_call.
  destruct (negb (n =? SHA_DIGEST_SIZE)).
  { exists (done_bytes st). split; [lia |]. split; [apply climbs_nil |].
    cbn [ret fst]. intros st' [=]. }
  pose proof (pending_bytes_clear pArchive (unverified st) i entry Hentry Hflag)
    as Hclear.
  pose proof (pending_bytes_nonneg pArchive (<[i := false]> (unverified st)))
    as Hpend'.
  assert (Hlen : 0 <= mzGetZipEntryUncompLen entry)
    by (unfold mzGetZipEntryUncompLen; lia).
  destruct (digestEntry_progress entry (done_bytes st) total HT Hd ltac:(lia))
    as [Hdone Hclimb].
  rewrite snd_bind, fst_bind, progress_of_app, Hdone.
  exists (done_bytes st + mzGetZipEntryUncompLen entry). split; [lia |].
  destruct (fst (digestEntry entry (Some (done_bytes st)) total)).1 as [actual |].
  - destruct (negb (memcmp_eq expected actual SHA_DIGEST_SIZE));
      cbn [ret fst snd]; change (progress_of []) with (@nil Q);
      rewrite app_nil_r; (split; [exact Hclimb |]); intros st' [= <-].
    unfold accounted. cbn [done_bytes unverified]. rewrite Hclear.
    split; [split; lia | reflexivity].
  - cbn [ret fst snd]. change (progress_of []) with (@nil Q). rewrite app_nil_r.
    split; [exact Hclimb |]. intros st' [=].
Qed.

Lemma verifyArchive_lines_progress (pArchive : ZipArchive) (total : Z)
    (lines : list (list byte)) :
  0 < total < UINT_MAX1 ->
  forall st,
    accounted pArchive total st ->
    exists hi,
      done_bytes st <= hi <= total /\
      climbs (fraction (done_bytes st) total)
             (fraction hi total)
             (progress_of (snd (verifyArchive_lines pArchive total lines st))) /\
      (fst (fst (verifyArchive_lines pArchive total lines st)) = false ->
       accounted pArchive total (snd (fst (verifyArchive_lines pArchive total lines st)))
       /\ done_bytes (snd (fst (verifyArchive_lines pArchive total lines st))) = hi).
Proof.
  intros HT. induction lines as [| line lines IH]; intros st Hacc;
    cbn [verifyArchive_lines].
  - exists (done_bytes st).
    pose proof (pending_bytes_nonneg pArchive (unverified st)).
    destruct Hacc as [Hd Hsum]. split; [lia |]. split; [apply climbs_nil |].
    cbn [ret fst snd]. intros _. split; [split; assumption | reflexivity].
  - rewrite snd_bind, fst_bind, progress_of_app.
    destruct (verifyArchive_line_progress pArchive total line st HT Hacc)
      as (hi1 & Hhi1 & Hclimb1 & Hst1).
    destruct (fst (verifyArchive_line pArchive total line st)) as [st1 | st1].
    + destruct (Hst1 st1 eq_refl) as [Hacc1 Hd1].
      destruct (IH st1 Hacc1) as (hi2 & Hhi2 & Hclimb2 & Hst2).
      rewrite Hd1 in *. exists hi2. split; [lia |].
      split; [eapply climbs_app; eassumption | exact Hst2].
    + exists hi1. split; [exact Hhi1 |]. cbn [ret fst snd].
      change (progress_of []) with (@nil Q). rewrite app_nil_r.
      split; [exact Hclimb1 | discriminate].
Qed.

Lemma mark_unverified_fst (mfEntry : nat) (rest : list ZipEntry) :
  forall i total,
    fst (mark_unverified mfEntry rest i total)
    = imap (fun j entry => negb (skipped mfEntry (i + j) entry)) rest.
Proof.
  induction rest as [| entry rest IH]; intros i total; cbn [mark_unverified];
    [reflexivity |].
  rewrite imap_cons, Nat.add_0_r.
  assert (Hext : imap ((fun j e => negb (skipped mfEntry (i + j) e)) ∘ S) rest
                 = imap (fun j e => negb (skipped mfEntry (S i + j) e)) rest).
  { apply imap_ext. intros j e _. cbn. f_equal. f_equal. lia. }
  rewrite Hext.
  destruct (skipped mfEntry i entry).
  - specialize (IH (S i) total).
    destruct (mark_unverified mfEntry rest (S i) total). cbn [fst] in *.
    rewrite IH. reflexivity.
  - specialize (IH (S i) ((total + mzGetZipEntryUncompLen entry) mod UINT_MAX1)).
    destruct (mark_unverified mfEntry rest (S i) _). cbn [fst] in *.
    rewrite IH. reflexivity.
Qed.

Lemma mark_unverified_total (mfEntry : nat) (rest : list ZipEntry) :
  forall i total,
    0 <= total < UINT_MAX1 ->
    snd (mark_unverified mfEntry rest i total)
    = (total + pending_bytes rest (fst (mark_unverified mfEntry rest i total)))
      mod UINT_MAX1.
Proof.
  induction rest as [| entry rest IH]; intros i total Ht; cbn [mark_unverified].
  - cbn [fst snd pending_bytes]. rewrite Z.add_0_r, Z.mod_small; [reflexivity | lia].
  - destruct (skipped mfEntry i entry).
    + specialize (IH (S i) total Ht).
      destruct (mark_unverified mfEntry rest (S i) total). cbn [fst snd] in *.
      rewrite IH. cbn [pending_bytes]. reflexivity.
    + assert (Ht' : 0 <= (total + mzGetZipEntryUncompLen entry) mod UINT_MAX1
                    < UINT_MAX1)
        by (apply Z.mod_pos_bound; reflexivity).
      specialize (IH (S i) _ Ht').
      destruct (mark_unverified mfEntry rest (S i) _). cbn [fst snd] in *.
      rewrite IH. cbn [pending_bytes].
      rewrite Z.add_mod_idemp_l by (unfold UINT_MAX1; lia).
      f_equal. lia.
Qed.

Lemma mark_unverified_covered (pArchive : ZipArchive) (mfEntry : nat) :
  covered_bytes pArchive mfEntry < UINT_MAX1 ->
  pending_bytes pArchive (fst (mark_unverified mfEntry pArchive 0 0))
  = covered_bytes pArchive mfEntry /\
  snd (mark_unverified mfEntry pArchive 0 0) = covered_bytes pArchive mfEntry.
Proof.
  intros Hsmall.
  assert (Hfst : pending_bytes pArchive (fst (mark_unverified mfEntry pArchive 0 0))
                 = covered_bytes pArchive mfEntry).
  { rewrite mark_unverified_fst. reflexivity. }
  split; [exact Hfst |].
  rewrite mark_unverified_total by (unfold UINT_MAX1; lia).
  rewrite Hfst, Z.add_0_l. apply Z.mod_small.
  pose proof (pending_bytes_nonneg pArchive
                (fst (mark_unverified mfEntry pArchive 0 0))). lia.
Qed.

Lemma verifyArchive_lines_quiet (pArchive : ZipArchive) (total : Z)
    (lines : list (list byte)) :
  total <= 0 ->
  forall st, progress_of (snd (verifyArchive_lines pArchive total lines st)) = [].
Proof.
  intros HT. induction lines as [| line lines IH]; intros st;
    cbn [verifyArchive_lines]; [reflexivity |].
  rewrite snd_bind, progress_of_app.
  assert (Hl : progress_of (snd (verifyArchive_line pArchive total line st)) = []).
  { unfold verifyArchive_line.
    destruct (starts_with eqb_nocase (bytes "Name: ") line);
      [destruct (name st); reflexivity |].
    destruct (starts_with eqb_nocase (bytes " ") line); [reflexivity |].
    destruct (starts_with eqb_nocase (bytes "SHA1-Digest: ") line); [| reflexivity].
    destruct (name st) as [nm |]; [| reflexivity].
    destruct (mzFindZipEntry pArchive nm) as [i |]; [| reflexivity].
    destruct (pArchive !! i) as [entry |]; [| reflexivity].
    destruct (negb (intact entry)); [reflexivity |].
    destruct (negb (nth i (unverified st) false)); [reflexivity |].
    destruct (b64_pton _ _) as [n expected].
    rewrite snd_bind. cbn [call fst snd app]. rewrite progress_of_b64_call.
    destruct (negb (n =? SHA_DIGEST_SIZE)); [reflexivity |].
    rewrite snd_bind, progress_of_app, digestEntry_quiet by exact HT.
    destruct (fst (digestEntry entry _ total)).1; [| reflexivity].
    destruct (negb _); reflexivity. }
  rewrite Hl.
  destruct (fst (verifyArchive_line pArchive total line st)); [apply IH | reflexivity].
Qed.

(** The reports of [verifyArchive] when [totalBytes] does not wrap. *)
Lemma verifyArchive_progress (pArchive : ZipArchive) (mfEntry : nat) :
  covered_bytes pArchive mfEntry < UINT_MAX1 ->
  let ps := progress_of (snd (verifyArchive pArchive mfEntry)) in
  StronglySorted Qle ps /\ Forall in_unit ps /\
  (fst (verifyArchive pArchive mfEntry) = true ->
   0 < covered_bytes pArchive mfEntry ->
   exists q, last ps = Some q /\ (q == 1)%Q) /\
  (covered_bytes pArchive mfEntry = 0 -> ps = []).
Proof.
  intros Hsmall. cbv zeta.
  assert (Hempty : forall b : bool,
             let ps := progress_of (snd (@ret bool b)) in
             StronglySorted Qle ps /\ Forall in_unit ps /\
             (fst (@ret bool false) = true ->
              0 < covered_bytes pArchive mfEntry ->
              exists q, last ps = Some q /\ (q == 1)%Q) /\
             (covered_bytes pArchive mfEntry = 0 -> ps = [])).
  { intros b. cbn [ret fst snd]. change (progress_of []) with (@nil Q).
    repeat split; try constructor. discriminate. }
  unfold verifyArchive.
  destruct (pArchive !! mfEntry) as [mf |]; [| apply (Hempty false)].
  destruct (slurpEntry mf) as [mfBuf |]; [| apply (Hempty false)].
  destruct (mark_unverified_covered pArchive mfEntry Hsmall) as [Hpend Htotal].
  pose proof (mark_unverified_length mfEntry pArchive 0 0) as Hlen.
  destruct (mark_unverified mfEntry pArchive 0 0) as [flags total].
  cbn [fst snd] in *. subst total.
  set (T := covered_bytes pArchive mfEntry) in *.
  set (st0 := {| name := None; unverified := flags; done_bytes := 0 |}).
  rewrite snd_bind, fst_bind, progress_of_app.
  assert (Htail : forall r : bool * manifest_state,
             progress_of
               (snd (let i := first_unverified (unverified (snd r)) 0 in
                     if fst r then ret false
                     else if i <? mzZipEntryCount pArchive then ret false
                          else ret true)) = []).
  { intros [broke st']. cbv zeta. cbn [fst snd].
    destruct broke; [reflexivity |]. destruct (_ <? _); reflexivity. }
  rewrite Htail, app_nil_r.
  assert (HT0 : 0 <= T) by (rewrite <- Hpend; apply pending_bytes_nonneg).
  destruct (Z.eq_dec T 0) as [Hz | Hnz].
  - rewrite verifyArchive_lines_quiet by lia.
    repeat split; try constructor. intros _ ?. lia.
  - assert (HT : 0 < T < UINT_MAX1) by lia.
    assert (Hacc : accounted pArchive T st0).
    { unfold accounted, st0. cbn [done_bytes unverified]. split; [lia |].
      rewrite Hpend. lia. }
    destruct (verifyArchive_lines_progress pArchive T (strtok_lines mfBuf) HT st0 Hacc)
      as (hi & Hhi & Hclimb & Hend).
    cbn [done_bytes st0] in Hclimb.
    destruct Hclimb as (_ & Hall & Hsorted & Hlast).
    pose proof (fraction_0 T) as H0.
    split; [exact Hsorted |]. split; [| split; [| intros ?; lia]].
    + eapply Forall_impl; [exact Hall |]. cbv beta. intros q [Hq1 Hq2].
      assert (fraction hi T <= 1)%Q by (apply fraction_le_1; lia).
      unfold in_unit. split; lra.
    + destruct (fst (verifyArchive_lines pArchive T (strtok_lines mfBuf) st0))
        as [broke st'] eqn:Hrun.
      cbv zeta. cbn [fst snd] in *.
      destruct broke; [discriminate |].
      destruct (Z.ltb_spec (first_unverified (unverified st') 0)
                  (mzZipEntryCount pArchive)) as [| Hge]; [discriminate |].
      intros _ _. destruct (Hend eq_refl) as [[Hd' Hacc'] Hdone].
      pose proof Hrun as Hcov. apply verifyArchive_lines_covers in Hcov.
      cbn [name unverified st0] in Hcov.
      pose proof (covers_length _ _ _ _ Hcov) as Hlen'.
      destruct (first_unverified_spec (unverified st') 0) as [Hr Hiff].
      assert (Hnone : forall j, nth j (unverified st') false = false).
      { apply Hiff. unfold mzZipEntryCount in Hge. lia. }
      rewrite (pending_bytes_none pArchive _ Hnone) in Hacc'.
      assert (HhiT : hi = T) by lia. rewrite HhiT in Hlast.
      pose proof (fraction_1 T ltac:(lia)) as H1.
      destruct (last (progress_of (snd (verifyArchive_lines pArchive T
                                          (strtok_lines mfBuf) st0)))) as [q |];
        unfold default in Hlast; cbn [from_option id] in Hlast.
      * exists q. split; [reflexivity |]. lra.
      * lra.
Qed.

Lemma verify_jar_signature_progress (pArchive : ZipArchive)
    (pKeys : list RSAPublicKey) :
  jar_total pArchive < UINT_MAX1 ->
  let ps := progress_of (snd (verify_jar_signature pArchive pKeys)) in
  StronglySorted Qle ps /\ Forall in_unit ps /\
  (fst (verify_jar_signature pArchive pKeys) = true -> 0 < jar_total pArchive ->
   exists q, last ps = Some q /\ (q == 1)%Q) /\
  (jar_total pArchive = 0 -> ps = []).
Proof.
  intros Hsmall. cbv zeta.
  assert (Hempty :
            StronglySorted Qle (@nil Q) /\ Forall in_unit (@nil Q) /\
            (false = true -> 0 < jar_total pArchive ->
             exists q, last (@nil Q) = Some q /\ (q == 1)%Q) /\
            (jar_total pArchive = 0 -> @nil Q = [])).
  { repeat split; try constructor. discriminate. }
  unfold verify_jar_signature.
  rewrite snd_bind, fst_bind, progress_of_app, progress_of_verifySignature.
  cbn [app].
  destruct (fst (verifySignature pArchive pKeys)) as [sfEntry |]; [| exact Hempty].
  destruct (pArchive !! sfEntry) as [sf |]; [| exact Hempty].
  rewrite snd_bind, fst_bind, progress_of_app, progress_of_verifyManifest.
  cbn [app].
  destruct (fst (verifyManifest pArchive sf)) as [mfEntry |] eqn:Hmf;
    [| exact Hempty].
  apply verifyManifest_spec in Hmf.
  destruct Hmf as (before & line & after & expected & mf & _ & _ & _ & _ & _ & _
                   & Hfind & _).
  assert (Htotal : jar_total pArchive = covered_bytes pArchive mfEntry).
  { unfold jar_total, manifest_index. rewrite Hfind. reflexivity. }
  rewrite Htotal in *. apply verifyArchive_progress. exact Hsmall.
Qed.

Lemma progress_of_verify_file_keys pKeys eocd eocd_size sha1 :
  progress_of (snd (verify_file_keys pKeys eocd eocd_size sha1)) = [].
Proof.
  induction pKeys as [| key pKeys IH]; cbn [verify_file_keys]; [reflexivity |].
  destruct (read_at eocd (eocd_size - 6 - RSANUMBYTES) RSANUMBYTES) as [sig |];
    [| reflexivity].
  rewrite snd_bind. cbn [call fst snd app].
  destruct (RSA_verify key sig RSANUMBYTES sha1); [reflexivity | exact IH].
Qed.

Lemma verify_file_progress_accepted fs path pKeys f :
  fs path = Some f -> format_checks f = true ->
  let ps := progress_of (snd (verify_file fs path pKeys)) in
  ps = 0%Q :: progress_of (hash_trace f) /\
  StronglySorted Qle ps /\ Forall in_unit ps /\
  exists q, last ps = Some q /\ (1 <= double_add q double_0_02)%Q /\
            ((98 # 100) - (1 # 2 ^ 52) <= q)%Q.
Proof.
  intros Hf Hck. cbv zeta.
  destruct (verify_file_accepted fs path pKeys f Hf Hck) as [_ ->].
  destruct (format_checks_ranges f Hck) as (H6 & Hc & He & Hs & Hl).
  assert (Hps : progress_of
                  (ui_set_progress 0 :: SHA_init :: hash_trace f ++ SHA_final ::
                   snd (verify_file_keys pKeys (eocdTail f) (commentLen f + 22)
                          (SHA (take (Z.to_nat (signedLen f)) f))))
                = 0%Q :: progress_of (hash_trace f)).
  { match goal with
    | |- progress_of (?a :: ?b :: ?l ++ ?c :: ?r) = _ =>
      change (a :: b :: l ++ c :: r) with ([a; b] ++ l ++ [c] ++ r)
    end.
    rewrite !progress_of_app, progress_of_verify_file_keys.
    change (progress_of [ui_set_progress 0; SHA_init]) with [0%Q].
    change (progress_of [SHA_final]) with (@nil Q).
    rewrite !app_nil_r. reflexivity. }
  rewrite Hps. split; [reflexivity |].
  assert (HL : 0 < signedLen f) by (unfold signedLen; lia).
  destruct (hash_loop_progress f (signedLen f) (S (Z.to_nat (signedLen f))) HL
              ltac:(lia) 0 [] (-1)%Q ltac:(lia) ltac:(lia) (or_introl HL))
    as (Hall & Hsorted & Hlast).
  fold (hash_trace f) in Hall, Hsorted, Hlast.
  pose proof (fraction_0 (signedLen f)) as H0.
  split; [| split].
  - constructor; [exact Hsorted |].
    eapply Forall_impl; [exact Hall |]. cbv beta. intros q [Hq _]. lra.
  - constructor; [unfold in_unit; lra |].
    eapply Forall_impl; [exact Hall |]. cbv beta. intros q [Hq1 Hq2].
    unfold in_unit. lra.
  - rewrite last_cons. pose proof (double_add_reaches_1 _ Hlast) as Hbound.
    destruct (last (progress_of (hash_trace f))) as [q |];
      unfold default in Hlast, Hbound; cbn [from_option id] in Hlast, Hbound.
    + exists q. split; [reflexivity |]. split; assumption.
    + exfalso. change (2 ^ 52)%positive with 4503599627370496%positive in Hbound.
      lra.
Qed.

(** C9 (amended).  The fractions handed to [ui_set_progress] by a call of
    [verify_file] do not decrease and lie in [0, 1].  When the file passes
    the checks on its footer and tail, they are 0 followed by the reports of
    the hashing loop, which after each block reports the fraction hashed, a
    double, exactly when it is greater than the double sum of the last
    fraction reported and 0.02, or the block is the first; the last report
    [q] has [q + 0.02 >= 1] in double arithmetic, so it is 0.98 or more up
    to that rounding (less than 2^-52); otherwise the only report is 0.  In
    a call of [verify_jar_signature] on an archive whose entries that are
    not exempt hold fewer than 2^32 bytes, the fractions do not decrease
    and lie in [0, 1]; the last one is 1 when the call returns true and
    those entries hold at least one byte, and there is no report when they
    hold none. *)
Theorem progress_reports :
  (forall fs path pKeys,
     let ps := progress_of (snd (verify_file fs path pKeys)) in
     StronglySorted Qle ps /\ Forall in_unit ps /\
     (forall f, fs path = Some f -> format_checks f = true ->
        (exists q, last ps = Some q /\ (1 <= double_add q double_0_02)%Q /\
                   ((98 # 100) - (1 # 2 ^ 52) <= q)%Q) /\
        ps = 0%Q :: progress_of (hash_trace f) /\
        report_rule (signedLen f) (hash_trace f) 0 (-1)%Q) /\
     (fs path = None \/ (exists f, fs path = Some f /\ format_checks f = false) ->
      ps = [0%Q]))
  /\
  (forall pArchive pKeys,
     jar_total pArchive < UINT_MAX1 ->
     let ps := progress_of (snd (verify_jar_signature pArchive pKeys)) in
     StronglySorted Qle ps /\ Forall in_unit ps /\
     (fst (verify_jar_signature pArchive pKeys) = true -> 0 < jar_total pArchive ->
      exists q, last ps = Some q /\ (q == 1)%Q) /\
     (jar_total pArchive = 0 -> ps = [])).
Proof.
  split; [| apply verify_jar_signature_progress].
  intros fs path pKeys. cbv zeta.
  assert (Hzero : StronglySorted Qle [0%Q] /\ Forall in_unit [0%Q]).
  { split; repeat constructor; unfold in_unit; lra. }
  assert (Hrej : fs path = None \/
                 (exists f, fs path = Some f /\ format_checks f = false) ->
                 snd (verify_file fs path pKeys) = [ui_set_progress 0]).
  { intros [Hnone | (f & Hf & Hck)].
    - rewrite (verify_file_no_file fs path pKeys Hnone). reflexivity.
    - rewrite (verify_file_rejected fs path pKeys f Hf Hck). reflexivity. }
  destruct (fs path) as [f |] eqn:Hf.
  - destruct (format_checks f) eqn:Hck.
    + destruct (verify_file_progress_accepted fs path pKeys f Hf Hck)
        as (Hps & Hsorted & Hall & Hlast).
      split; [exact Hsorted |]. split; [exact Hall |]. split.
      * intros f' [= <-] _. split; [exact Hlast |]. split; [exact Hps |].
        destruct (format_checks_ranges f Hck) as (H6 & Hc & He & Hs & Hl).
        apply hash_loop_report_rule; lia.
      * intros [Hnone | (f' & [= <-] & Hck')]; congruence.
    + rewrite Hrej by eauto. change (progress_of [ui_set_progress 0]) with [0%Q].
      destruct Hzero as [Hz1 Hz2]. split; [exact Hz1 |]. split; [exact Hz2 |].
      split; [| reflexivity]. intros f' [= <-] Hck'. congruence.
  - rewrite Hrej by auto. change (progress_of [ui_set_progress 0]) with [0%Q].
    destruct Hzero as [Hz1 Hz2]. split; [exact Hz1 |]. split; [exact Hz2 |].
    split; [| reflexivity]. intros f' [=].
Qed.

(** ** A manifest that ends early *)

Lemma verifyArchive_lines_app (pArchive : ZipArchive) (total : Z)
    (lines1 lines2 : list (list byte)) :
  forall st st1,
    fst (verifyArchive_lines pArchive total lines1 st) = (false, st1) ->
    fst (verifyArchive_lines pArchive total (lines1 ++ lines2) st)
    = fst (verifyArchive_lines pArchive total lines2 st1).
Proof.
  induction lines1 as [| line lines1 IH]; intros st st1; cbn [verifyArchive_lines app].
  - cbn [ret fst]. intros [= <-]. reflexivity.
  - rewrite !fst_bind.
    destruct (fst (verifyArchive_line pArchive total line st)) as [st' | st'];
      [apply IH | discriminate].
Qed.

(** A [Name:] line at the end of a manifest that the loop went through with
    no name pending does not make the loop stop: the name stays pending and
    the flags are as before. *)
Lemma final_name_line_tolerated (pArchive : ZipArchive) (total : Z)
    (lines : list (list byte)) (line : list byte) (st st1 : manifest_state) :
  starts_with eqb_nocase (bytes "Name: ") line = true ->
  fst (verifyArchive_lines pArchive total lines st) = (false, st1) ->
  name st1 = None ->
  fst (verifyArchive_lines pArchive total (lines ++ [line]) st)
  = (false, {| name := Some (drop 6 line); unverified := unverified st1;
               done_bytes := done_bytes st1 |}).
Proof.
  intros Hname Hrun Hnone.
  rewrite (verifyArchive_lines_app pArchive total lines [line] st st1 Hrun).
  cbn [verifyArchive_lines]. rewrite fst_bind.
  unfold verifyArchive_line. rewrite Hname, Hnone. reflexivity.
Qed.

(** ** The loops of the model have fuel enough *)

Lemma verify_file_fuel fs path pKeys :
  fst (verify_file fs path pKeys) <> Out_of_fuel.
Proof.
  destruct (fs path) as [f |] eqn:Hf.
  - destruct (format_checks f) eqn:Hck.
    + destruct (verify_file_accepted fs path pKeys f Hf Hck) as [-> _].
      destruct (read_at (eocdTail f) (commentLen f + 22 - 6 - RSANUMBYTES)
                  RSANUMBYTES) as [sig |] eqn:Hsig.
      * rewrite (verify_file_keys_in_bounds pKeys _ _ _ sig Hsig). discriminate.
      * rewrite (verify_file_keys_out_of_bounds pKeys _ _ _ Hsig).
        destruct pKeys; discriminate.
    + rewrite (verify_file_rejected fs path pKeys f Hf Hck). discriminate.
  - rewrite (verify_file_no_file fs path pKeys Hf). discriminate.
Qed.

(** * Further properties of the verifier *)

(** ** [verify_file]: files that are turned away at once *)

(** X1.  A path that cannot be opened, a file of fewer than 6 bytes, and a
    file shorter than the comment its footer announces plus the 22-byte
    EOCD record are rejected; the only call made is [ui_set_progress(0.0)]. *)
Theorem truncated_file_rejected fs path pKeys :
  fs path = None \/
  (exists f, fs path = Some f /\
             (fileLen f < 6 \/ fileLen f < commentLen f + 22)) ->
  verify_file fs path pKeys = (Returned VERIFY_FAILURE, [ui_set_progress 0]).
Proof.
  intros [Hnone | (f & Hf & Hshort)].
  - apply verify_file_no_file, Hnone.
  - apply (verify_file_rejected fs path pKeys f Hf).
    unfold format_checks. destruct Hshort as [H6 | Hc].
    + destruct (Z.leb_spec 6 (fileLen f)); [lia | reflexivity].
    + destruct (Z.leb_spec 0 (eocdStart f)) as [He |];
        [unfold eocdStart in He; lia |].
      rewrite !andb_false_r. reflexivity.
Qed.

(** ** [verify_file]: what is hashed *)

Lemma SHA_data_of_app (t1 t2 : list event) :
  SHA_data_of (t1 ++ t2) = SHA_data_of t1 ++ SHA_data_of t2.
Proof. apply omap_app. Qed.

Lemma SHA_data_of_cons_update (data : list byte) (t : list event) :
  SHA_data_of (SHA_update data :: t) = data :: SHA_data_of t.
Proof. reflexivity. Qed.

Lemma SHA_data_of_cons_progress (q : Q) (t : list event) :
  SHA_data_of (ui_set_progress q :: t) = SHA_data_of t.
Proof. reflexivity. Qed.

Lemma SHA_data_of_verify_file_keys pKeys eocd eocd_size sha1 :
  SHA_data_of (snd (verify_file_keys pKeys eocd eocd_size sha1)) = [].
Proof.
  induction pKeys as [| key pKeys IH]; cbn [verify_file_keys]; [reflexivity |].
  destruct (read_at eocd (eocd_size - 6 - RSANUMBYTES) RSANUMBYTES) as [sig |];
    [| reflexivity].
  rewrite snd_bind. cbn [call fst snd app].
  destruct (RSA_verify key sig RSANUMBYTES sha1); [reflexivity | exact IH].
Qed.

(** The blocks of the hashing loop from [so_far] on: together they are the
    bytes [so_far, signed_len) of the file, and none is empty or longer than
    the buffer. *)
Lemma hash_loop_blocks (f : list byte) (signed_len : Z) (fuel : nat) :
  signed_len <= fileLen f ->
  forall so_far ctx frac,
    0 <= so_far <= signed_len ->
    signed_len - so_far < Z.of_nat fuel ->
    let bs := SHA_data_of (snd (hash_loop fuel f signed_len so_far so_far ctx frac)) in
    concat bs = take (Z.to_nat (signed_len - so_far)) (drop (Z.to_nat so_far) f) /\
    Forall (fun data => (0 < length data <= 4096)%nat) bs.
Proof.
  intros Hlen. induction fuel as [| fuel IH]; intros so_far ctx frac Hso Hfuel;
    [lia |].
  cbn [hash_loop].
  destruct (Z.ltb_spec so_far signed_len) as [Hlt | Hge].
  - pose proof (hash_loop_size signed_len so_far Hlt) as Hsize.
    cbv zeta in Hsize.
    set (size := if signed_len - so_far <? BUFFER_SIZE
                 then signed_len - so_far else BUFFER_SIZE) in *.
    assert (Hsize' : size <= 4096)
      by (clear Hsize; subst size; unfold BUFFER_SIZE;
          destruct (Z.ltb_spec (signed_len - so_far) 4096); lia).
    assert (Hbuf : Z.of_nat (length (fread f so_far size)) = size)
      by (apply length_fread; unfold fileLen in *; lia).
    rewrite Hbuf, Z.eqb_refl. cbn [negb].
    rewrite snd_bind. cbn [call snd fst app]. rewrite SHA_data_of_cons_update.
    assert (Hrest :
              forall frac',
                concat (fread f so_far size ::
                        SHA_data_of (snd (hash_loop fuel f signed_len (so_far + size)
                                            (so_far + size)
                                            (ctx ++ fread f so_far size) frac')))
                = take (Z.to_nat (signed_len - so_far)) (drop (Z.to_nat so_far) f) /\
                Forall (fun data => (0 < length data <= 4096)%nat)
                  (fread f so_far size ::
                   SHA_data_of (snd (hash_loop fuel f signed_len (so_far + size)
                                       (so_far + size)
                                       (ctx ++ fread f so_far size) frac')))).
    { intros frac'.
      destruct (IH (so_far + size) (ctx ++ fread f so_far size) frac')
        as [Hcat Hall]; try lia.
      split; [| constructor; [lia | exact Hall]].
      cbn [concat]. rewrite Hcat. unfold fread.
      replace (drop (Z.to_nat (so_far + size)) f)
        with (drop (Z.to_nat size) (drop (Z.to_nat so_far) f))
        by (rewrite drop_drop; f_equal; lia).
      rewrite take_take_drop. f_equal. lia. }
    cbv zeta.
    match goal with |- context [if ?c then _ else _] => destruct c end.
    + rewrite snd_bind. cbn [call snd fst app]. rewrite SHA_data_of_cons_progress.
      apply Hrest.
    + apply Hrest.
  - cbn [ret snd]. cbv zeta. change (SHA_data_of []) with (@nil (list byte)).
    replace (Z.to_nat (signed_len - so_far)) with 0%nat by lia.
    split; [reflexivity | constructor].
Qed.

(** X2.  When a file passes the checks, the blocks handed to [SHA_update]
    are, put together, the bytes [0, signedLen) of the file, where
    [signedLen] leaves out the comment and the two bytes before it; each
    block holds between 1 and 4096 bytes. *)
Theorem signed_range_hashed fs path pKeys f :
  fs path = Some f -> format_checks f = true ->
  let bs := SHA_data_of (snd (verify_file fs path pKeys)) in
  concat bs = take (Z.to_nat (signedLen f)) f /\
  Forall (fun data => (0 < length data <= 4096)%nat) bs /\
  signedLen f = fileLen f - commentLen f - 2.
Proof.
  intros Hf Hck. cbv zeta.
  destruct (verify_file_accepted fs path pKeys f Hf Hck) as [_ ->].
  destruct (format_checks_ranges f Hck) as (H6 & Hc & He & Hs & Hl).
  match goal with
  | |- context [SHA_data_of (?a :: ?b :: ?l ++ ?c :: ?r)] =>
    change (a :: b :: l ++ c :: r) with ([a; b] ++ l ++ [c] ++ r)
  end.
  rewrite !SHA_data_of_app, SHA_data_of_verify_file_keys.
  change (SHA_data_of [ui_set_progress 0; SHA_init]) with (@nil (list byte)).
  change (SHA_data_of [SHA_final]) with (@nil (list byte)).
  rewrite !app_nil_r. cbn [app].
  destruct (hash_loop_blocks f (signedLen f) (S (Z.to_nat (signedLen f)))
              ltac:(lia) 0 [] (-1)%Q) as [Hcat Hall]; try lia.
  fold (hash_trace f) in Hcat, Hall.
  split; [| split; [exact Hall | unfold signedLen, eocdStart; lia]].
  rewrite Hcat. rewrite Z.sub_0_r. reflexivity.
Qed.

(** ** [verify_file]: how often progress is reported *)




(** ** The trusted keys are a set *)

Lemma existsb_same_elements {A} (p : A -> bool) (l l' : list A) :
  (forall x, In x l <-> In x l') -> existsb p l = existsb p l'.
Proof.
  intros Hsame. apply Bool.eq_iff_eq_true. rewrite !existsb_exists.
  split; intros (x & Hin & Hp); exists x; (split; [apply Hsame, Hin | exact Hp]).
Qed.

Lemma verify_file_same_keys fs path (pKeys pKeys' : list RSAPublicKey) :
  (forall key, In key pKeys <-> In key pKeys') ->
  fst (verify_file fs path pKeys) = fst (verify_file fs path pKeys').
Proof.
  intros Hsame.
  destruct (fs path) as [f |] eqn:Hf;
    [| rewrite !(verify_file_no_file fs path _ Hf); reflexivity].
  destruct (format_checks f) eqn:Hck;
    [| rewrite !(verify_file_rejected fs path _ f Hf Hck); reflexivity].
  destruct (verify_file_accepted fs path pKeys f Hf Hck) as [-> _].
  destruct (verify_file_accepted fs path pKeys' f Hf Hck) as [-> _].
  destruct (read_at (eocdTail f) (commentLen f + 22 - 6 - RSANUMBYTES) RSANUMBYTES)
    as [sig |] eqn:Hsig.
  - rewrite !(verify_file_keys_in_bounds _ _ _ _ sig Hsig). cbn [fst].
    rewrite (existsb_same_elements _ pKeys pKeys' Hsame). reflexivity.
  - rewrite !(verify_file_keys_out_of_bounds _ _ _ _ Hsig). cbn [fst].
    destruct pKeys as [| k l], pKeys' as [| k' l']; try reflexivity.
    + exfalso. apply (Hsame k'). left. reflexivity.
    + exfalso. apply (Hsame k). left. reflexivity.
Qed.

Lemma verifySignature_loop_same_keys (pArchive : ZipArchive)
    (pKeys pKeys' : list RSAPublicKey) (rest : list ZipEntry) :
  (forall key, In key pKeys <-> In key pKeys') ->
  fst (verifySignature_loop pArchive pKeys rest)
  = fst (verifySignature_loop pArchive pKeys' rest).
Proof.
  intros Hsame. induction rest as [| rsaEntry rest IH]; [reflexivity |].
  cbn [verifySignature_loop]. rewrite !fst_bind, !verifySignature_entry_fst.
  destruct (is_rsa_candidate rsaEntry); [| exact IH].
  destruct (mzFindZipEntry pArchive (sf_name (fileName rsaEntry))) as [sfEntry |];
    [| exact IH].
  destruct (pArchive !! sfEntry) as [sf |]; [| exact IH].
  rewrite (existsb_same_elements _ pKeys pKeys' Hsame).
  match goal with |- context [if ?c then Some sfEntry else None] => destruct c end;
    [reflexivity | exact IH].
Qed.

Lemma verify_jar_signature_same_keys (pArchive : ZipArchive)
    (pKeys pKeys' : list RSAPublicKey) :
  (forall key, In key pKeys <-> In key pKeys') ->
  fst (verify_jar_signature pArchive pKeys)
  = fst (verify_jar_signature pArchive pKeys').
Proof.
  intros Hsame. unfold verify_jar_signature, verifySignature.
  rewrite !fst_bind.
  rewrite (verifySignature_loop_same_keys pArchive pKeys pKeys' pArchive Hsame).
  reflexivity.
Qed.

(** X4.  The outcome of both entry points depends on the trusted keys only
    as a set: neither the order of the keys nor a key given twice changes
    what [verify_file] and [verify_jar_signature] return. *)
Theorem trusted_keys_as_a_set fs path (pArchive : ZipArchive)
    (pKeys pKeys' : list RSAPublicKey) :
  (forall key, In key pKeys <-> In key pKeys') ->
  fst (verify_file fs path pKeys) = fst (verify_file fs path pKeys') /\
  fst (verify_jar_signature pArchive pKeys)
  = fst (verify_jar_signature pArchive pKeys').
Proof.
  intros Hsame. split.
  - apply verify_file_same_keys, Hsame.
  - apply verify_jar_signature_same_keys, Hsame.
Qed.

(** ** [verify_file]: when the signature is read outside the buffer *)

(** X10.  For a file that passes the checks and a non-empty list of keys,
    the pointer [eocd + eocd_size - 6 - RSANUMBYTES] handed to [RSA_verify]
    lies before the buffer [eocd] exactly when the comment and the EOCD
    record together hold fewer than [RSANUMBYTES + 6] bytes. *)
Theorem signature_read_out_of_bounds fs path pKeys f :
  fs path = Some f -> format_checks f = true -> pKeys <> [] ->
  0 <= RSANUMBYTES ->
  (fst (verify_file fs path pKeys) = Undefined <->
   commentLen f + 22 < RSANUMBYTES + 6).
Proof.
  intros Hf Hck Hkeys HN.
  destruct (format_checks_ranges f Hck) as (H6 & Hc & He & Hs & Hl).
  rewrite verify_file_undefined.
  assert (Hread :
            read_at (eocdTail f) (commentLen f + 22 - 6 - RSANUMBYTES) RSANUMBYTES
            = None <-> commentLen f + 22 < RSANUMBYTES + 6).
  { unfold read_at. rewrite Hl.
    destruct (Z.leb_spec 0 (commentLen f + 22 - 6 - RSANUMBYTES));
      destruct (Z.leb_spec 0 RSANUMBYTES);
      destruct (Z.leb_spec (commentLen f + 22 - 6 - RSANUMBYTES + RSANUMBYTES)
                  (commentLen f + 22));
      cbn [andb]; split; intros; try discriminate; try reflexivity; lia. }
  split.
  - intros (f' & Hf' & _ & _ & Hnone).
    assert (f' = f) by congruence. subst f'. apply Hread, Hnone.
  - intros Hshort. exists f. repeat split; try assumption. apply Hread, Hshort.
Qed.

(** ** [verifyManifest]: exactly when the signature file vouches *)

Lemma verifyManifest_lines_first (before : list (list byte)) (line : list byte)
    (after : list (list byte)) (expected : list byte) :
  Forall (fun l => starts_with eqb_nocase (bytes "SHA1-Digest-Manifest: ") l = false)
         before ->
  starts_with eqb_nocase (bytes "SHA1-Digest-Manifest: ") line = true ->
  b64_pton (drop 22 line) 23 = (20, expected) ->
  fst (verifyManifest_lines (before ++ line :: after)) = Some expected.
Proof.
  intros Hall Hl Hb.
  induction Hall as [| l before Hnl _ IH]; cbn [app verifyManifest_lines].
  - rewrite Hl. change (SHA_DIGEST_SIZE + 3) with 23. rewrite Hb.
    rewrite fst_bind. reflexivity.
  - rewrite Hnl. exact IH.
Qed.

Lemma verifyManifest_complete (pArchive : ZipArchive) (sf : ZipEntry) (mfEntry : nat) :
  vouches pArchive sf mfEntry -> fst (verifyManifest pArchive sf) = Some mfEntry.
Proof.
  intros (before & line & after & expected & mf & Hint & Hinf & Hlines & Hall & Hl
          & Hb & Hfind & Hmf & Hinfm & Heq).
  unfold verifyManifest, slurpEntry. rewrite Hint, Hinf. cbn [negb].
  rewrite fst_bind, Hlines,
    (verifyManifest_lines_first before line after expected Hall Hl Hb), Hfind, Hmf.
  rewrite fst_bind, digestEntry_digest, Hinfm.
  change (Z.to_nat SHA_DIGEST_SIZE) with 20%nat.
  apply memcmp_eq_20 in Heq. rewrite Heq. reflexivity.
Qed.

(** X5.  [verifyManifest] returns the manifest exactly when the signature
    file vouches for it: the signature file can be read, its first line
    that begins with SHA1-Digest-Manifest: decodes to 20 bytes, and these
    are the SHA-1 of the entry META-INF/MANIFEST.MF.  Later lines with the
    same prefix are not looked at. *)
Theorem manifest_vouched (pArchive : ZipArchive) (sf : ZipEntry) (mfEntry : nat) :
  fst (verifyManifest pArchive sf) = Some mfEntry <-> vouches pArchive sf mfEntry.
Proof.
  split; [apply verifyManifest_spec | apply verifyManifest_complete].
Qed.

(** ** [verifyArchive]: exactly when the manifest covers the archive *)

Lemma verifyArchive_lines_well_formed (pArchive : ZipArchive) (total : Z)
    (lines : list (list byte)) :
  forall st st',
    fst (verifyArchive_lines pArchive total lines st) = (false, st') ->
    well_formed lines (name st).
Proof.
  induction lines as [| line lines IH]; intros st st'; cbn [verifyArchive_lines].
  - intros _. exact I.
  - rewrite fst_bind.
    destruct (fst (verifyArchive_line pArchive total line st)) as [st1 | st1] eqn:Hl;
      [| discriminate].
    intros Hrest. apply IH in Hrest.
    apply verifyArchive_line_step in Hl. cbn [well_formed].
    destruct (classify line) as [value | tail | base64 |].
    + destruct Hl as (Hn0 & Hn & _). rewrite Hn in Hrest. split; assumption.
    + destruct Hl as (Hn & _). rewrite Hn in Hrest. exact Hrest.
    + destruct Hl as (nm & i & Hn & _ & _ & Hn' & _).
      rewrite Hn' in Hrest. split; [congruence | exact Hrest].
    + subst st1. exact Hrest.
Qed.

(** What makes a line go through. *)
Lemma verifyArchive_line_accepts (pArchive : ZipArchive) (total : Z)
    (line : list byte) (st : manifest_state) :
  match classify line with
  | Name_line value =>
    name st = None ->
    exists st', fst (verifyArchive_line pArchive total line st) = inl st' /\
                name st' = Some value /\ unverified st' = unverified st
  | Continuation_line tail =>
    exists st', fst (verifyArchive_line pArchive total line st) = inl st' /\
                name st' = Some (default (bytes "(null)") (name st) ++ tail) /\
                unverified st' = unverified st
  | Digest_line base64 =>
    forall nm i,
      name st = Some nm -> stanza_matches pArchive (nm, base64) i ->
      nth i (unverified st) false = true ->
      exists st', fst (verifyArchive_line pArchive total line st) = inl st' /\
                  name st' = None /\
                  unverified st' = <[i := false]> (unverified st)
  | Other_line => fst (verifyArchive_line pArchive total line st) = inl st
  end.
Proof.
  unfold verifyArchive_line, classify.
  destruct (starts_with eqb_nocase (bytes "Name: ") line).
  { intros ->. eexists. split; [reflexivity |]. split; reflexivity. }
  destruct (starts_with eqb_nocase (bytes " ") line).
  { eexists. split; [reflexivity |]. cbn [name unverified].
    split; [| reflexivity]. destruct (name st); reflexivity. }
  destruct (starts_with eqb_nocase (bytes "SHA1-Digest: ") line); [| reflexivity].
  intros nm i Hn (entry & expected & Hfind & Hentry & Hint & Hinf & Hb & Heq) Hflag.
  cbn [fst snd] in Hfind, Hb.
  rewrite Hn, Hfind, Hentry, Hint, Hflag. cbn [negb].
  change (SHA_DIGEST_SIZE + 3) with 23. rewrite Hb.
  rewrite fst_bind. cbn [call fst].
  change (negb (20 =? SHA_DIGEST_SIZE)) with false. cbv iota.
  rewrite fst_bind, digestEntry_digest, Hinf.
  change (Z.to_nat SHA_DIGEST_SIZE) with 20%nat.
  apply memcmp_eq_20 in Heq. rewrite Heq. cbn [negb ret fst].
  eexists. split; [reflexivity |]. split; reflexivity.
Qed.

Lemma verifyArchive_lines_complete (pArchive : ZipArchive) (total : Z)
    (lines : list (list byte)) :
  forall st flags',
    well_formed lines (name st) ->
    covers pArchive (stanzas lines (name st)) (unverified st) flags' ->
    exists st', fst (verifyArchive_lines pArchive total lines st) = (false, st') /\
                unverified st' = flags'.
Proof.
  induction lines as [| line lines IH]; intros st flags';
    cbn [verifyArchive_lines well_formed stanzas].
  - intros _ Hcov. exists st. split; [reflexivity | symmetry; exact Hcov].
  - rewrite fst_bind.
    pose proof (verifyArchive_line_accepts pArchive total line st) as Hl.
    destruct (classify line) as [value | tail | base64 |].
    + intros [Hn Hwf] Hcov. destruct (Hl Hn) as (st1 & -> & Hn1 & Hu1).
      apply IH; rewrite ?Hn1, ?Hu1; assumption.
    + intros Hwf Hcov. destruct Hl as (st1 & -> & Hn1 & Hu1).
      apply IH; rewrite ?Hn1, ?Hu1; assumption.
    + revert Hl. destruct (name st) as [nm |]; intros Hl [Hn Hwf] Hcov;
        [| contradiction].
      cbn [covers] in Hcov. destruct Hcov as (i & Hm & Hflag & Hcov).
      destruct (Hl nm i eq_refl Hm Hflag) as (st1 & -> & Hn1 & Hu1).
      apply IH; rewrite ?Hn1, ?Hu1; assumption.
    + intros Hwf Hcov. rewrite Hl. apply IH; assumption.
Qed.

Lemma verifyArchive_sound (pArchive : ZipArchive) (mfEntry : nat) :
  fst (verifyArchive pArchive mfEntry) = true -> archive_covered pArchive mfEntry.
Proof.
  unfold verifyArchive, slurpEntry, archive_covered.
  destruct (pArchive !! mfEntry) as [mf |]; [| discriminate].
  destruct (intact mf) eqn:Hint; [| discriminate].
  destruct (inflates mf) eqn:Hinf; [| discriminate].
  cbn [negb].
  pose proof (mark_unverified_fst mfEntry pArchive 0 0) as Hflags.
  destruct (mark_unverified mfEntry pArchive 0 0) as [flags total] eqn:Hmark.
  cbn [fst] in Hflags. rewrite fst_bind.
  destruct (fst (verifyArchive_lines pArchive total
                   (strtok_lines (contents mf ++ [x00]))
                   {| name := None; unverified := flags; done_bytes := 0 |}))
    as [broke st'] eqn:Hrun.
  cbn [fst snd]. destruct broke; [discriminate |].
  pose proof (verifyArchive_lines_well_formed _ _ _ _ _ Hrun) as Hwf.
  apply verifyArchive_lines_covers in Hrun. cbn [name unverified] in Hrun, Hwf.
  destruct (Z.ltb_spec (first_unverified (unverified st') 0)
              (mzZipEntryCount pArchive)) as [| Hge]; [discriminate |].
  intros _. exists mf, (unverified st').
  split; [reflexivity |]. split; [exact Hint |]. split; [exact Hinf |].
  split; [exact Hwf |]. rewrite Hflags in Hrun. split; [exact Hrun |].
  pose proof (covers_length _ _ _ _ Hrun) as Hlen'. rewrite length_imap in Hlen'.
  destruct (first_unverified_spec (unverified st') 0) as [Hr Hiff].
  apply Hiff. unfold mzZipEntryCount in Hge. lia.
Qed.

Lemma verifyArchive_complete (pArchive : ZipArchive) (mfEntry : nat) :
  archive_covered pArchive mfEntry -> fst (verifyArchive pArchive mfEntry) = true.
Proof.
  intros (mf & flags' & Hmf & Hint & Hinf & Hwf & Hcov & Hnone).
  unfold verifyArchive, slurpEntry. rewrite Hmf, Hint, Hinf. cbn [negb].
  pose proof (mark_unverified_fst mfEntry pArchive 0 0) as Hflags.
  destruct (mark_unverified mfEntry pArchive 0 0) as [flags total].
  cbn [fst] in Hflags. rewrite fst_bind.
  destruct (verifyArchive_lines_complete pArchive total
              (strtok_lines (contents mf ++ [x00]))
              {| name := None; unverified := flags; done_bytes := 0 |} flags')
    as (st' & Hrun & Hu).
  { exact Hwf. }
  { cbn [name unverified]. rewrite Hflags. exact Hcov. }
  rewrite Hrun. cbn [fst snd]. rewrite Hu.
  destruct (first_unverified_spec flags' 0) as [_ Hiff].
  apply Hiff in Hnone. cbv zeta. rewrite Hnone.
  pose proof (covers_length _ _ _ _ Hcov) as Hlen. rewrite length_imap in Hlen.
  unfold mzZipEntryCount.
  destruct (Z.ltb_spec (0 + Z.of_nat (length flags')) (Z.of_nat (length pArchive)));
    [lia | reflexivity].
Qed.

(** X6.  [verifyArchive] returns true exactly when the manifest can be read,
    no Name: line comes while a name waits for its digest and no
    SHA1-Digest: line comes with no name waiting (a name still waiting when
    the manifest ends is let through), every stanza in turn names an entry
    that is still to be verified and carries its SHA-1, and after the last
    stanza no entry is left to verify; to begin with, the entries to verify
    are those that are not skipped. *)
Theorem archive_checked (pArchive : ZipArchive) (mfEntry : nat) :
  fst (verifyArchive pArchive mfEntry) = true <-> archive_covered pArchive mfEntry.
Proof.
  split; [apply verifyArchive_sound | apply verifyArchive_complete].
Qed.

(** ** [verify_jar_signature]: exactly when the chain holds *)

Lemma signs_functional (pArchive : ZipArchive) (pKeys : list RSAPublicKey)
    (rsaEntry : ZipEntry) (s s' : nat) :
  signs pArchive pKeys rsaEntry s -> signs pArchive pKeys rsaEntry s' -> s = s'.
Proof.
  rewrite <- !verifySignature_entry_spec. congruence.
Qed.

Lemma verifySignature_first (pArchive : ZipArchive) (pKeys : list RSAPublicKey)
    (i : nat) (rsaEntry : ZipEntry) (sfEntry : nat) :
  pArchive !! i = Some rsaEntry ->
  signs pArchive pKeys rsaEntry sfEntry ->
  (forall j e s, (j < i)%nat -> pArchive !! j = Some e ->
                 ~ signs pArchive pKeys e s) ->
  fst (verifySignature pArchive pKeys) = Some sfEntry.
Proof.
  intros Hi Hsigns Hfirst. unfold verifySignature.
  pose proof (verifySignature_loop_spec pArchive pKeys pArchive) as Hloop.
  destruct (fst (verifySignature_loop pArchive pKeys pArchive)) as [s' |].
  - destruct Hloop as (i' & rsa' & Hi' & Hs' & Hfirst').
    destruct (lt_eq_lt_dec i i') as [[Hlt | Heq] | Hgt].
    + exfalso. apply (Hfirst' i rsaEntry sfEntry Hlt Hi Hsigns).
    + subst i'. rewrite Hi in Hi'. injection Hi' as <-. f_equal.
      apply (signs_functional pArchive pKeys rsaEntry s' sfEntry Hs' Hsigns).
    + exfalso. apply (Hfirst i' rsa' s' Hgt Hi' Hs').
  - exfalso. apply (Hloop rsaEntry sfEntry); [| exact Hsigns].
    apply list_elem_of_In, (list_elem_of_lookup_2 _ i), Hi.
Qed.

(** X7.  [verify_jar_signature] returns true exactly when the chain holds:
    the first entry that signs a signature file signs one that vouches for
    the manifest, and the manifest covers the archive. *)
Theorem jar_accepted_iff (pArchive : ZipArchive) (pKeys : list RSAPublicKey) :
  fst (verify_jar_signature pArchive pKeys) = true <->
  exists i rsaEntry sfEntry sf mfEntry,
    pArchive !! i = Some rsaEntry /\
    signs pArchive pKeys rsaEntry sfEntry /\
    (forall j e s, (j < i)%nat -> pArchive !! j = Some e ->
                   ~ signs pArchive pKeys e s) /\
    pArchive !! sfEntry = Some sf /\
    vouches pArchive sf mfEntry /\
    archive_covered pArchive mfEntry.
Proof.
  split.
  - intros Hres. apply verify_jar_signature_signed in Hres.
    destruct Hres as (i & rsaEntry & sfEntry & sf & mfEntry & Hi & Hs & Hfirst
                      & Hsf & Hv & Harch).
    exists i, rsaEntry, sfEntry, sf, mfEntry.
    repeat (split; [assumption |]). apply verifyArchive_sound, Harch.
  - intros (i & rsaEntry & sfEntry & sf & mfEntry & Hi & Hs & Hfirst & Hsf & Hv
            & Harch).
    apply verify_jar_signature_true. exists sfEntry, sf, mfEntry.
    split; [apply (verifySignature_first pArchive pKeys i rsaEntry); assumption |].
    split; [exact Hsf |].
    split; [apply verifyManifest_complete, Hv | apply verifyArchive_complete, Harch].
Qed.

(** ** What the manifest need not list *)

Lemma starts_with_case_nocase (lit s : list byte) :
  starts_with eqb_case lit s = true -> starts_with eqb_nocase lit s = true.
Proof.
  revert s. induction lit as [| p lit IH]; intros [| c s]; cbn [starts_with];
    try reflexivity; try discriminate.
  intros H. apply andb_prop in H. destruct H as [Hpc Hrest].
  unfold eqb_case in Hpc. apply Byte.byte_dec_bl in Hpc. subst c.
  unfold eqb_nocase at 1. rewrite Z.eqb_refl. apply IH, Hrest.
Qed.

Lemma starts_with_app (eqb : byte -> byte -> bool) (lit s t : list byte) :
  (length lit <= length s)%nat ->
  starts_with eqb lit (s ++ t) = starts_with eqb lit s.
Proof.
  revert s. induction lit as [| p lit IH]; intros [| c s]; cbn [starts_with length app];
    intros Hlen; try reflexivity; [lia |].
  rewrite IH by lia. reflexivity.
Qed.

Lemma is_rsa_candidate_skipped (mfEntry i : nat) (entry : ZipEntry) :
  is_rsa_candidate entry = true -> skipped mfEntry i entry = true.
Proof.
  unfold is_rsa_candidate, skipped. cbv zeta. intros H.
  apply andb_prop in H. destruct H as [H Hrsa].
  apply andb_prop in H. destruct H as [_ Hmeta].
  apply starts_with_case_nocase in Hmeta. apply starts_with_case_nocase in Hrsa.
  replace (Z.of_nat (length (fileName entry)) - 5 + 1)
    with (Z.of_nat (length (fileName entry)) - 4) in Hrsa by lia.
  rewrite Hmeta, Hrsa. cbn [andb orb].
  destruct (Nat.eqb i mfEntry); [reflexivity |].
  match goal with |- (if ?c then true else true) = true => destruct c end;
    reflexivity.
Qed.

(** X8.  The entries of the signature are not asked of the manifest: an
    entry that signs the archive is skipped by [verifyArchive], and so is
    the signature file it signs when its name holds no NUL character. *)
Theorem signature_entries_exempt (pArchive : ZipArchive)
    (pKeys : list RSAPublicKey) (mfEntry i : nat) (rsaEntry : ZipEntry)
    (sfEntry : nat) (sf : ZipEntry) :
  signs pArchive pKeys rsaEntry sfEntry ->
  pArchive !! sfEntry = Some sf ->
  skipped mfEntry i rsaEntry = true /\
  (~ In x00 (fileName rsaEntry) -> skipped mfEntry sfEntry sf = true).
Proof.
  intros Hsigns Hsf. split.
  - apply is_rsa_candidate_skipped.
    destruct Hsigns as (base & sf' & key & Hname & Hmeta & Hlen & _).
    apply is_rsa_candidate_spec. split; [exact Hlen |]. split; [exact Hmeta |].
    exists base. exact Hname.
  - intros Hnul.
    destruct Hsigns as (base & sf' & key & Hname & Hmeta & _ & Hfind & _).
    rewrite Hname in Hmeta, Hnul.
    pose proof (rsa_name_length base Hmeta) as Hbase.
    unfold mzFindZipEntry in Hfind. rewrite c_str_no_NUL in Hfind.
    2:{ intros Hin. apply in_app_or in Hin. destruct Hin as [Hin | Hin].
        - apply Hnul, in_or_app. left. exact Hin.
        - cbn in Hin. repeat (destruct Hin as [Hin | Hin]; [discriminate |]).
          exact Hin. }
    apply find_name_Some in Hfind. destruct Hfind as (e & He & Hnm & _).
    rewrite Nat.sub_0_r, Hsf in He. injection He as <-.
    unfold skipped. cbv zeta. rewrite Hnm.
    assert (Hm : starts_with eqb_nocase (bytes "META-INF/") (base ++ bytes ".SF")
                 = true).
    { apply starts_with_case_nocase.
      rewrite starts_with_app by exact Hbase.
      rewrite starts_with_app in Hmeta by exact Hbase. exact Hmeta. }
    assert (Hs : starts_with eqb_nocase (bytes ".SF")
                   (drop (Z.to_nat (Z.of_nat (length (base ++ bytes ".SF")) - 3))
                      (base ++ bytes ".SF")) = true).
    { rewrite drop_app_length'; [reflexivity |].
      rewrite length_app. change (length (bytes ".SF")) with 3%nat. lia. }
    rewrite Hm, Hs, orb_true_r. cbn [andb].
    destruct (Nat.eqb sfEntry mfEntry); [reflexivity |].
    match goal with |- (if ?c then true else true) = true => destruct c end;
      reflexivity.
Qed.

(** ** Entries that cannot be read *)

(** X9.  An entry that is not exempt and fails its integrity check, or
    cannot be decompressed, makes [verify_jar_signature] return false. *)
Theorem corrupt_entry_rejected (pArchive : ZipArchive) (pKeys : list RSAPublicKey)
    (i : nat) (entry : ZipEntry) :
  pArchive !! i = Some entry -> exempt pArchive i entry = false ->
  intact entry = false \/ inflates entry = false ->
  fst (verify_jar_signature pArchive pKeys) = false.
Proof.
  intros Hi Hex Hbad.
  destruct (fst (verify_jar_signature pArchive pKeys)) eqn:Hres; [| reflexivity].
  exfalso. apply verify_jar_signature_covered in Hres.
  destruct Hres as [Hall _].
  destruct (Hall i entry Hi Hex) as (k & stanza & _ & Hm & _).
  destruct Hm as (entry' & expected & _ & Hi' & Hint & Hinf & _).
  rewrite Hi in Hi'. injection Hi' as <-.
  destruct Hbad; congruence.
Qed.

(** ** JAR mode: what [RSA_verify] is called with *)

Lemma keys_tried_In (pKeys : list RSAPublicKey) (sig sha1 : list byte) (key : RSAPublicKey) :
  In key (keys_tried pKeys sig sha1) -> In key pKeys.
Proof.
  induction pKeys as [| k pKeys IH]; cbn [keys_tried]; [intros [] |].
  intros [<- | Hin]; [left; reflexivity |].
  right. destruct (RSA_verify k sig RSANUMBYTES sha1); [destruct Hin | exact (IH Hin)].
Qed.

Lemma RSA_calls_of_digestEntry (pEntry : ZipEntry) (done : option Z) (total : Z) :
  RSA_calls_of (snd (digestEntry pEntry done total)) = [].
Proof. apply RSA_calls_of_hashing, digestEntry_events. Qed.

Lemma RSA_calls_of_verifyManifest_lines (lines : list (list byte)) :
  RSA_calls_of (snd (verifyManifest_lines lines)) = [].
Proof.
  induction lines as [| line lines IH]; cbn [verifyManifest_lines]; [reflexivity |].
  destruct (starts_with eqb_nocase (bytes "SHA1-Digest-Manifest: ") line);
    [| exact IH].
  destruct (b64_pton (drop 22 line) (SHA_DIGEST_SIZE + 3)) as [n expected].
  rewrite snd_bind, RSA_calls_of_app. cbn [call snd].
  destruct (negb (n =? SHA_DIGEST_SIZE)); reflexivity.
Qed.

Lemma RSA_calls_of_verifyManifest (pArchive : ZipArchive) (sf : ZipEntry) :
  RSA_calls_of (snd (verifyManifest pArchive sf)) = [].
Proof.
  unfold verifyManifest.
  destruct (slurpEntry sf) as [sfBuf |]; [| reflexivity].
  rewrite snd_bind, RSA_calls_of_app, RSA_calls_of_verifyManifest_lines.
  destruct (fst (verifyManifest_lines (strtok_lines sfBuf))) as [expected |];
    [| reflexivity].
  destruct (mzFindZipEntry pArchive _) as [mfEntry |]; [| reflexivity].
  destruct (pArchive !! mfEntry) as [mf |]; [| reflexivity].
  rewrite snd_bind, RSA_calls_of_app, RSA_calls_of_digestEntry.
  destruct (fst (digestEntry mf None 0)).1 as [actual |]; [| reflexivity].
  destruct (negb _); reflexivity.
Qed.

Lemma RSA_calls_of_verifyArchive_line (pArchive : ZipArchive) (total : Z)
    (line : list byte) (st : manifest_state) :
  RSA_calls_of (snd (verifyArchive_line pArchive total line st)) = [].
Proof.
  unfold verifyArchive_line.
  destruct (starts_with eqb_nocase (bytes "Name: ") line).
  { destruct (name st); reflexivity. }
  destruct (starts_with eqb_nocase (bytes " ") line); [reflexivity |].
  destruct (starts_with eqb_nocase (bytes "SHA1-Digest: ") line); [| reflexivity].
  destruct (name st) as [nm |]; [| reflexivity].
  destruct (mzFindZipEntry pArchive nm) as [i |]; [| reflexivity].
  destruct (pArchive !! i) as [entry |]; [| reflexivity].
  destruct (negb (intact entry)); [reflexivity |].
  destruct (negb (nth i (unverified st) false)); [reflexivity |].
  destruct (b64_pton (drop 13 line) (SHA_DIGEST_SIZE + 3)) as [n expected].
  rewrite snd_bind, RSA_calls_of_app. cbn [call snd].
  change (RSA_calls_of [b64_pton_call (drop 13 line) (SHA_DIGEST_SIZE + 3) n])
    with (@nil (RSAPublicKey * list byte * list byte)).
  cbn [app].
  destruct (negb (n =? SHA_DIGEST_SIZE)); [reflexivity |].
  rewrite snd_bind, RSA_calls_of_app, RSA_calls_of_digestEntry.
  destruct (fst (digestEntry entry _ total)).1; [| reflexivity].
  destruct (negb _); reflexivity.
Qed.

Lemma RSA_calls_of_verifyArchive_lines (pArchive : ZipArchive) (total : Z)
    (lines : list (list byte)) :
  forall st, RSA_calls_of (snd (verifyArchive_lines pArchive total lines st)) = [].
Proof.
  induction lines as [| line lines IH]; intros st; cbn [verifyArchive_lines];
    [reflexivity |].
  rewrite snd_bind, RSA_calls_of_app, RSA_calls_of_verifyArchive_line.
  destruct (fst (verifyArchive_line pArchive total line st)) as [st1 | st1];
    [apply IH | reflexivity].
Qed.

Lemma RSA_calls_of_verifyArchive (pArchive : ZipArchive) (mfEntry : nat) :
  RSA_calls_of (snd (verifyArchive pArchive mfEntry)) = [].
Proof.
  unfold verifyArchive.
  destruct (pArchive !! mfEntry) as [mf |]; [| reflexivity].
  destruct (slurpEntry mf) as [mfBuf |]; [| reflexivity].
  destruct (mark_unverified mfEntry pArchive 0 0) as [flags total].
  rewrite snd_bind, RSA_calls_of_app, RSA_calls_of_verifyArchive_lines.
  cbv zeta.
  destruct (fst (fst (verifyArchive_lines pArchive total (strtok_lines mfBuf) _)));
    [reflexivity |].
  destruct (_ <? _); reflexivity.
Qed.

(** The calls one turn of the loop of [verifySignature] makes. *)
Lemma RSA_calls_of_verifySignature_entry (pArchive : ZipArchive)
    (pKeys : list RSAPublicKey) (rsaEntry : ZipEntry)
    (key : RSAPublicKey) (sig sha : list byte) :
  In (key, sig, sha)
     (RSA_calls_of (snd (verifySignature_entry pArchive pKeys rsaEntry))) ->
  In key pKeys /\ is_rsa_candidate rsaEntry = true /\
  exists sfEntry sf,
    mzFindZipEntry pArchive (sf_name (fileName rsaEntry)) = Some sfEntry /\
    pArchive !! sfEntry = Some sf /\
    sig = signature_of rsaEntry /\
    sha = take 20 (SHA (contents sf)).
Proof.
  unfold verifySignature_entry.
  destruct (is_rsa_candidate rsaEntry) eqn:Hcand; [| intros []].
  destruct (mzFindZipEntry pArchive _) as [sfEntry |] eqn:Hfind; [| intros []].
  destruct (pArchive !! sfEntry) as [sf |] eqn:Hsf; [| intros []].
  rewrite snd_bind, RSA_calls_of_app, RSA_calls_of_digestEntry.
  rewrite digestEntry_digest. cbn [app].
  destruct (inflates sf); [| intros []].
  unfold slurpEntry.
  destruct (negb (intact rsaEntry)); [intros [] |].
  destruct (negb (inflates rsaEntry)); [intros [] |].
  rewrite snd_bind, RSA_calls_of_app.
  destruct (verifySignature_keys_spec pKeys
              (take (Z.to_nat RSANUMBYTES)
                 (drop (Z.to_nat (mzGetZipEntryUncompLen rsaEntry - RSANUMBYTES))
                    (contents rsaEntry ++ [x00])))
              (take (Z.to_nat SHA_DIGEST_SIZE) (SHA (contents sf)))) as [_ ->].
  rewrite RSA_calls_of_map_call.
  apply is_rsa_candidate_spec in Hcand as Hc. destruct Hc as (Hlen & _).
  rewrite (signature_of_spec rsaEntry Hlen).
  change (Z.to_nat SHA_DIGEST_SIZE) with 20%nat.
  intros Hin. apply in_app_or in Hin. destruct Hin as [Hin | Hin].
  - apply in_map_iff in Hin. destruct Hin as (k & [= -> <- <-] & Hk).
    split; [eapply keys_tried_In, Hk |]. split; [reflexivity |].
    exists sfEntry, sf. repeat split; first [reflexivity | assumption].
  - exfalso. revert Hin.
    destruct (fst (verifySignature_keys pKeys _ _)); intros [].
Qed.

Lemma RSA_calls_of_verifySignature_loop (pArchive : ZipArchive)
    (pKeys : list RSAPublicKey) (rest : list ZipEntry) (c : RSAPublicKey * list byte * list byte) :
  In c (RSA_calls_of (snd (verifySignature_loop pArchive pKeys rest))) ->
  exists rsaEntry,
    In rsaEntry rest /\
    In c (RSA_calls_of (snd (verifySignature_entry pArchive pKeys rsaEntry))).
Proof.
  induction rest as [| e rest IH]; cbn [verifySignature_loop]; [intros [] |].
  rewrite snd_bind, RSA_calls_of_app. intros Hin.
  apply in_app_or in Hin. destruct Hin as [Hin | Hin].
  - exists e. split; [left; reflexivity | exact Hin].
  - destruct (fst (verifySignature_entry pArchive pKeys e)); [destruct Hin |].
    destruct (IH Hin) as (e' & He' & Hc). exists e'. split; [right |]; assumption.
Qed.

(** X11.  In the JAR mode [RSA_verify] is only ever called with a trusted
    key, the last [RSANUMBYTES] bytes of a signature block candidate, and
    the SHA-1 of the entry that has the candidate's name with .SF for
    .RSA; checking the manifest and the entries calls it no more. *)
Theorem jar_RSA_verify_calls (pArchive : ZipArchive) (pKeys : list RSAPublicKey)
    (key : RSAPublicKey) (sig sha : list byte) :
  In (key, sig, sha) (RSA_calls_of (snd (verify_jar_signature pArchive pKeys))) ->
  In key pKeys /\
  exists rsaEntry sfEntry sf,
    In rsaEntry pArchive /\ is_rsa_candidate rsaEntry = true /\
    mzFindZipEntry pArchive (sf_name (fileName rsaEntry)) = Some sfEntry /\
    pArchive !! sfEntry = Some sf /\
    sig = signature_of rsaEntry /\
    sha = take 20 (SHA (contents sf)).
Proof.
  unfold verify_jar_signature. rewrite snd_bind, RSA_calls_of_app.
  intros Hin. apply in_app_or in Hin. destruct Hin as [Hin | Hin].
  - apply RSA_calls_of_verifySignature_loop in Hin.
    destruct Hin as (rsaEntry & Hrsa & Hin).
    apply RSA_calls_of_verifySignature_entry in Hin.
    destruct Hin as (Hkey & Hcand & sfEntry & sf & Hfind & Hsf & Hsig & Hsha).
    split; [exact Hkey |]. exists rsaEntry, sfEntry, sf. repeat split; assumption.
  - exfalso. revert Hin.
    destruct (fst (verifySignature pArchive pKeys)) as [sfEntry |]; [| intros []].
    destruct (pArchive !! sfEntry) as [sf |]; [| intros []].
    rewrite snd_bind, RSA_calls_of_app, RSA_calls_of_verifyManifest. cbn [app].
    destruct (fst (verifyManifest pArchive sf)) as [mfEntry |]; [| intros []].
    rewrite RSA_calls_of_verifyArchive. intros [].
Qed.

(** ** [digestEntry] and [updateHash] *)

Lemma updateHash_data (data : list byte) (context : DigestContext) :
  SHA_data_of (snd (updateHash data context)) = [data].
Proof.
  unfold updateHash. rewrite snd_bind. cbn [call snd app].
  rewrite SHA_data_of_cons_update. f_equal.
  destruct (doneBytes context); [| reflexivity].
  destruct (0 <? totalBytes context); [rewrite snd_bind |]; reflexivity.
Qed.

Lemma updateHash_counter (data : list byte) (context : DigestContext) (d : Z) :
  doneBytes context = Some d ->
  doneBytes (fst (updateHash data context))
  = Some ((d + Z.of_nat (length data)) mod UINT_MAX1).
Proof.
  intros Hd. unfold updateHash. rewrite Hd, fst_bind. cbn [call fst].
  destruct (0 <? totalBytes context); [rewrite fst_bind |]; reflexivity.
Qed.

Lemma process_blocks_data (bs : list (list byte)) :
  forall context, SHA_data_of (snd (process_blocks bs context)) = bs.
Proof.
  induction bs as [| data bs IH]; intros context; cbn [process_blocks];
    [reflexivity |].
  rewrite snd_bind, SHA_data_of_app, updateHash_data, IH. reflexivity.
Qed.

(** The counter is an [unsigned]: it counts the bytes modulo 2^32. *)
Lemma process_blocks_counter (bs : list (list byte)) :
  forall context d,
    doneBytes context = Some d -> 0 <= d < UINT_MAX1 ->
    doneBytes (fst (process_blocks bs context))
    = Some ((d + total_blocks bs) mod UINT_MAX1).
Proof.
  induction bs as [| data bs IH]; intros context d Hd Hrange; cbn [process_blocks].
  - change (total_blocks []) with 0. rewrite Z.add_0_r, Z.mod_small by exact Hrange.
    exact Hd.
  - rewrite fst_bind.
    rewrite (IH _ _ (updateHash_counter data context d Hd))
      by (apply Z.mod_pos_bound; reflexivity).
    rewrite total_blocks_cons, Zplus_mod_idemp_l. do 2 f_equal. lia.
Qed.

(** X12.  [digestEntry] hands the blocks of the entry to [SHA_update] as
    the reader delivers them; the digest is the first 20 bytes of the SHA-1
    of the whole contents, however they are split into blocks, and there is
    none when decompression fails; the counter [doneBytes] points to grows
    by the length of the entry modulo 2^32, and with no counter nothing is
    reported. *)
Theorem entry_digest (pEntry : ZipEntry) (done : option Z) (total : Z) :
  SHA_data_of (snd (digestEntry pEntry done total)) = blocks pEntry /\
  fst (fst (digestEntry pEntry done total))
  = (if inflates pEntry then Some (take 20 (SHA (contents pEntry))) else None) /\
  (forall d, done = Some d -> 0 <= d < UINT_MAX1 ->
             snd (fst (digestEntry pEntry done total))
             = Some ((d + mzGetZipEntryUncompLen pEntry) mod UINT_MAX1)) /\
  (done = None ->
   snd (fst (digestEntry pEntry done total)) = None /\
   progress_of (snd (digestEntry pEntry done total)) = []).
Proof.
  split; [| split; [apply digestEntry_digest | split]].
  - unfold digestEntry. rewrite !snd_bind, !SHA_data_of_app, process_blocks_data.
    cbn [call snd]. change (SHA_data_of [SHA_init]) with (@nil (list byte)).
    cbn [app].
    destruct (inflates pEntry); cbn [negb]; [rewrite snd_bind |];
      cbn [call ret snd app];
      [change (SHA_data_of [SHA_final]) with (@nil (list byte)) |
       change (SHA_data_of []) with (@nil (list byte))];
      apply app_nil_r.
  - intros d -> Hrange. unfold digestEntry. rewrite !fst_bind. cbn [call fst].
    pose proof (process_blocks_counter (blocks pEntry)
                  {| digest := []; doneBytes := Some d; totalBytes := total |}
                  d eq_refl Hrange) as Hcount.
    change (total_blocks (blocks pEntry)) with (mzGetZipEntryUncompLen pEntry)
      in Hcount.
    destruct (inflates pEntry); cbn [negb]; [rewrite fst_bind |];
      cbn [call ret fst snd]; exact Hcount.
  - intros ->. split; [| apply digestEntry_silent].
    unfold digestEntry. rewrite !fst_bind. cbn [call fst].
    destruct (process_blocks_silent (blocks pEntry)
                {| digest := []; doneBytes := None; totalBytes := total |} eq_refl)
      as [Hnone _].
    destruct (inflates pEntry); cbn [negb]; [rewrite fst_bind |];
      cbn [call ret fst snd]; exact Hnone.
Qed.

(** ** JAR mode: an entry that was changed *)

Lemma find_name_insert (nm : list byte) (es : list ZipEntry) :
  forall i k e e',
    es !! i = Some e -> fileName e' = fileName e ->
    find_name nm (<[i := e']> es) k = find_name nm es k.
Proof.
  induction es as [| x es IH]; intros i k e e' Hi Hn; [reflexivity |].
  destruct i as [| i]; simpl in Hi.
  - injection Hi as ->. simpl. rewrite Hn. reflexivity.
  - simpl. rewrite (IH i (S k) e e' Hi Hn). reflexivity.
Qed.

Lemma mzFindZipEntry_insert (pArchive : ZipArchive) (nm : list byte) (i : nat)
    (e e' : ZipEntry) :
  pArchive !! i = Some e -> fileName e' = fileName e ->
  mzFindZipEntry (<[i := e']> pArchive) nm = mzFindZipEntry pArchive nm.
Proof. intros Hi Hn. apply (find_name_insert _ _ i 0%nat e e' Hi Hn). Qed.

(** Replacing an entry the manifest has to list leaves the manifest as it
    was. *)
Lemma manifest_stanzas_insert (pArchive : ZipArchive) (i : nat) (e e' : ZipEntry) :
  pArchive !! i = Some e -> fileName e' = fileName e ->
  exempt pArchive i e = false ->
  manifest_stanzas (<[i := e']> pArchive) = manifest_stanzas pArchive.
Proof.
  intros Hi Hn Hex. unfold manifest_stanzas, manifest_lines, manifest_index.
  rewrite (mzFindZipEntry_insert pArchive _ i e e' Hi Hn).
  unfold exempt, manifest_index in Hex.
  destruct (mzFindZipEntry pArchive (bytes "META-INF/MANIFEST.MF")) as [mfEntry |];
    [| reflexivity].
  assert (Hne : i <> mfEntry).
  { intros ->. unfold skipped in Hex. rewrite Nat.eqb_refl in Hex. discriminate. }
  rewrite (list_lookup_insert_ne pArchive i mfEntry e' Hne). reflexivity.
Qed.

(** X15.  When an archive verifies, the same archive with other contents
    for one of the entries the manifest has to list, under the same name
    and with another SHA-1, does not. *)
Theorem changed_entry_rejected (pArchive : ZipArchive) (pKeys : list RSAPublicKey)
    (i : nat) (e e' : ZipEntry) :
  fst (verify_jar_signature pArchive pKeys) = true ->
  pArchive !! i = Some e -> exempt pArchive i e = false ->
  fileName e' = fileName e ->
  take 20 (SHA (contents e')) <> take 20 (SHA (contents e)) ->
  fst (verify_jar_signature (<[i := e']> pArchive) pKeys) = false.
Proof.
  intros Hres Hi Hex Hn Hsha.
  destruct (fst (verify_jar_signature (<[i := e']> pArchive) pKeys)) eqn:Hres';
    [| reflexivity].
  exfalso. apply Hsha.
  apply verify_jar_signature_covered in Hres.
  apply verify_jar_signature_covered in Hres'.
  destruct Hres as [Hall _]. destruct Hres' as [_ Hstanzas].
  rewrite (manifest_stanzas_insert pArchive i e e' Hi Hn Hex) in Hstanzas.
  destruct (Hall i e Hi Hex) as (k & stanza & Hk & Hm & _).
  destruct (Hstanzas k stanza Hk) as (i' & entry' & Hm' & _).
  destruct Hm as (entry & expected & Hfind & He & _ & _ & Hb & Heq).
  destruct Hm' as (entry1 & expected' & Hfind' & He' & _ & _ & Hb' & Heq').
  rewrite (mzFindZipEntry_insert pArchive _ i e e' Hi Hn), Hfind in Hfind'.
  injection Hfind' as <-.
  rewrite Hi in He. injection He as <-.
  rewrite list_lookup_insert_eq in He'
    by (apply lookup_lt_is_Some; rewrite Hi; eauto).
  injection He' as <-.
  rewrite Hb in Hb'. injection Hb' as <-.
  rewrite <- Heq, <- Heq'. reflexivity.
Qed.

(** ** [verifyArchive]: the bytes to verify *)

(** X14.  [totalBytes], against which [verifyArchive] reports progress, is
    an [unsigned]: it is the sum of the lengths of the entries that are
    not skipped, modulo 2^32. *)
Theorem total_bytes_wrap (pArchive : ZipArchive) (mfEntry : nat) :
  snd (mark_unverified mfEntry pArchive 0 0)
  = covered_bytes pArchive mfEntry mod UINT_MAX1.
Proof.
  rewrite mark_unverified_total by (split; [lia | reflexivity]).
  rewrite mark_unverified_fst, Z.add_0_l. reflexivity.
Qed.

(** ** Coverage as the code reads the manifest and as the specification does *)

Lemma stated_stanzas_proper (lines : list (list byte)) :
  forall pending,
    proper lines pending -> stated_stanzas lines pending = stanzas lines pending.
Proof.
  induction lines as [| line lines IH]; intros pending; [reflexivity |].
  cbn [proper stated_stanzas stanzas].
  destruct (classify line) as [value | tail | base64 |].
  - apply IH.
  - intros [Hsome Hrest]. destruct pending as [nm |]; [| contradiction].
    apply IH, Hrest.
  - intros Hrest. rewrite (IH None Hrest). reflexivity.
  - apply IH.
Qed.

Lemma listed_names_proper (lines : list (list byte)) :
  forall pending,
    well_formed lines pending -> proper lines pending ->
    listed_names lines pending = fst <$> stanzas lines pending.
Proof.
  induction lines as [| line lines IH]; intros pending;
    cbn [well_formed proper listed_names stanzas].
  - intros _ ->. reflexivity.
  - destruct (classify line) as [value | tail | base64 |].
    + intros [-> Hwf] Hrest. apply IH; assumption.
    + intros Hwf [Hsome Hrest]. destruct pending as [nm |]; [| contradiction].
      apply IH; assumption.
    + intros [Hsome Hwf] Hrest. destruct pending as [nm |]; [| contradiction].
      cbn [app fmap list_fmap fst]. f_equal. apply IH; assumption.
    + apply IH.
Qed.

Lemma verify_jar_signature_well_formed (pArchive : ZipArchive)
    (pKeys : list RSAPublicKey) :
  fst (verify_jar_signature pArchive pKeys) = true ->
  well_formed (manifest_lines pArchive) None.
Proof.
  intros Hres. apply verify_jar_signature_signed in Hres.
  destruct Hres as (i & rsaEntry & sfEntry & sf & mfEntry & _ & _ & _ & _ & Hv
                    & Harch).
  destruct Hv as (before & line & after & expected & mf & _ & _ & _ & _ & _ & _
                  & Hfind & Hmf & _).
  apply verifyArchive_sound in Harch.
  destruct Harch as (mf' & flags' & Hmf' & _ & _ & Hwf & _).
  rewrite Hmf in Hmf'. injection Hmf' as <-.
  unfold manifest_lines, manifest_index. rewrite Hfind, Hmf. exact Hwf.
Qed.

(** X16.  When [verify_jar_signature] returns true, every entry that is not
    exempt (the manifest, directories, signature files under META-INF/) is
    matched by exactly one stanza of the manifest, with the SHA-1 of its
    contents, and every stanza matches such an entry; an archive with a
    missing, duplicated or extra entry relative to the stanzas is rejected.
    A stanza is a SHA1-Digest: line with the name pending when it is read.
    In a manifest in which every continuation line continues a name and no
    name is left without its digest at the end, the stanzas are those of
    the specification, their names are the names the manifest lists, and
    coverage holds as the specification words it. *)
Theorem jar_coverage (pArchive : ZipArchive) (pKeys : list RSAPublicKey) :
  (fst (verify_jar_signature pArchive pKeys) = true -> coverage pArchive) /\
  (missing_entry pArchive \/ duplicated_entry pArchive \/ extra_entry pArchive ->
   fst (verify_jar_signature pArchive pKeys) = false) /\
  (proper (manifest_lines pArchive) None ->
   manifest_stated_stanzas pArchive = manifest_stanzas pArchive /\
   coverage_as_stated pArchive pKeys).
Proof.
  split; [apply verify_jar_signature_covered |].
  split; [apply verify_jar_signature_defect |].
  intros Hproper.
  assert (Hss : manifest_stated_stanzas pArchive = manifest_stanzas pArchive)
    by (apply stated_stanzas_proper, Hproper).
  split; [exact Hss |]. split.
  - intros Hres. unfold coverage_stated. rewrite Hss.
    apply (verify_jar_signature_covered pArchive pKeys Hres).
  - intros Hbad.
    destruct (fst (verify_jar_signature pArchive pKeys)) eqn:Hres; [| reflexivity].
    pose proof (verify_jar_signature_well_formed pArchive pKeys Hres) as Hwf.
    assert (Hnames : manifest_names pArchive = fst <$> manifest_stanzas pArchive)
      by (apply listed_names_proper; assumption).
    rewrite <- Hres. apply verify_jar_signature_defect.
    destruct Hbad as [Hmiss | [Hdup | Hextra]].
    + left. destruct Hmiss as (k & nm & Hk & Hnone).
      rewrite Hnames in Hk. apply list_lookup_fmap_Some_1 in Hk.
      destruct Hk as (stanza & -> & Hk). exists k, stanza. split; assumption.
    + right. left.
      destruct Hdup as (k1 & k2 & nm1 & nm2 & i & Hne & Hk1 & Hk2 & Hr1 & Hr2).
      rewrite Hnames in Hk1, Hk2.
      apply list_lookup_fmap_Some_1 in Hk1. destruct Hk1 as (s1 & -> & Hk1).
      apply list_lookup_fmap_Some_1 in Hk2. destruct Hk2 as (s2 & -> & Hk2).
      exists k1, k2, s1, s2, i. repeat split; assumption.
    + right. right. destruct Hextra as (i & entry & Hentry & Hex & Hnot).
      exists i, entry. split; [exact Hentry |]. split; [exact Hex |].
      intros k stanza Hk. apply (Hnot k (fst stanza)).
      rewrite Hnames. apply list_lookup_fmap_Some_2, Hk.
Qed.

End Verifier.

Arguments ui_set_progress {RSAPublicKey} fraction.
Arguments SHA_init {RSAPublicKey}.
Arguments SHA_update {RSAPublicKey} data.
Arguments SHA_final {RSAPublicKey}.
Arguments RSA_verify_call {RSAPublicKey} key signature sha.
Arguments b64_pton_call {RSAPublicKey} src targsize n.
Arguments progress_of {RSAPublicKey} t.
Arguments RSA_calls_of {RSAPublicKey} t.
Arguments b64_calls_of {RSAPublicKey} t.
Arguments progress_contract {RSAPublicKey} t.

Arguments SHA_data_of {RSAPublicKey} t.

(** * The reboot menu *)

Section RebootMenuFacts.

Variables REBOOTMENU_MAIN REBOOTMENU_RECOVERY REBOOTMENU_BOOTLOADER kGoBack : Z.
Variable get_menu_selection : nat -> Z.

Local Abbreviation switch :=
  (RebootMenu_switch REBOOTMENU_MAIN REBOOTMENU_RECOVERY REBOOTMENU_BOOTLOADER kGoBack).
Local Abbreviation loop_from :=
  (RebootMenu_from REBOOTMENU_MAIN REBOOTMENU_RECOVERY REBOOTMENU_BOOTLOADER kGoBack
     get_menu_selection).

Lemma RebootMenu_switch_None (sel : Z) :
  switch sel = None <->
  sel <> REBOOTMENU_MAIN /\ sel <> REBOOTMENU_RECOVERY /\
  sel <> REBOOTMENU_BOOTLOADER /\ sel <> kGoBack.
Proof.
  unfold RebootMenu_switch.
  destruct (Z.eqb_spec sel REBOOTMENU_MAIN);
    [split; [discriminate | intros (? & _); contradiction] |].
  destruct (Z.eqb_spec sel REBOOTMENU_RECOVERY);
    [split; [discriminate | intros (_ & ? & _); contradiction] |].
  destruct (Z.eqb_spec sel REBOOTMENU_BOOTLOADER);
    [split; [discriminate | intros (_ & _ & ? & _); contradiction] |].
  destruct (Z.eqb_spec sel kGoBack);
    [split; [discriminate | intros (_ & _ & _ & ?); contradiction] |].
  split; [intros _; repeat split; assumption | reflexivity].
Qed.

(** Answers the [switch] has no case for are passed over. *)
Lemma RebootMenu_from_skip (n : nat) :
  forall fuel calls,
    (forall j, (calls <= j < calls + n)%nat ->
               switch (get_menu_selection j) = None) ->
    loop_from (n + fuel) calls = loop_from fuel (calls + n).
Proof.
  induction n as [| n IH]; intros fuel calls Hskip.
  - rewrite Nat.add_0_r. reflexivity.
  - cbn [Nat.add RebootMenu_from].
    rewrite (Hskip calls) by lia.
    rewrite IH by (intros j Hj; apply Hskip; lia).
    f_equal. lia.
Qed.

Lemma RebootMenu_from_None (fuel : nat) :
  forall calls,
    (forall j, (calls <= j < calls + fuel)%nat ->
               switch (get_menu_selection j) = None) ->
    loop_from fuel calls = None.
Proof.
  induction fuel as [| fuel IH]; intros calls Hskip; [reflexivity |].
  cbn [RebootMenu_from]. rewrite (Hskip calls) by lia.
  apply IH. intros j Hj. apply Hskip. lia.
Qed.

(** X13.  [RebootMenu] passes over every answer of [get_menu_selection]
    that is neither a menu item nor [kGoBack], and returns at the first
    that is: the item itself, or -1 for [kGoBack]; it does not return
    before. *)
Theorem RebootMenu_returns (n : nat) :
  (forall j, (j < n)%nat ->
             get_menu_selection j <> REBOOTMENU_MAIN /\
             get_menu_selection j <> REBOOTMENU_RECOVERY /\
             get_menu_selection j <> REBOOTMENU_BOOTLOADER /\
             get_menu_selection j <> kGoBack) ->
  (forall fuel, (fuel <= n)%nat ->
     RebootMenu REBOOTMENU_MAIN REBOOTMENU_RECOVERY REBOOTMENU_BOOTLOADER kGoBack
       get_menu_selection fuel = None) /\
  (forall fuel, (n < fuel)%nat ->
     (get_menu_selection n = REBOOTMENU_MAIN \/
      get_menu_selection n = REBOOTMENU_RECOVERY \/
      get_menu_selection n = REBOOTMENU_BOOTLOADER ->
      RebootMenu REBOOTMENU_MAIN REBOOTMENU_RECOVERY REBOOTMENU_BOOTLOADER kGoBack
        get_menu_selection fuel
      = Some (get_menu_selection n)) /\
     (get_menu_selection n = kGoBack ->
      kGoBack <> REBOOTMENU_MAIN -> kGoBack <> REBOOTMENU_RECOVERY ->
      kGoBack <> REBOOTMENU_BOOTLOADER ->
      RebootMenu REBOOTMENU_MAIN REBOOTMENU_RECOVERY REBOOTMENU_BOOTLOADER kGoBack
        get_menu_selection fuel
      = Some (-1))).
Proof.
  intros Hskip.
  assert (Hnone : forall j, (j < n)%nat ->
                            switch (get_menu_selection j) = None)
    by (intros j Hj; apply RebootMenu_switch_None, Hskip, Hj).
  split.
  - intros fuel Hfuel. apply RebootMenu_from_None.
    intros j Hj. apply Hnone. lia.
  - intros fuel Hfuel. unfold RebootMenu.
    replace fuel with (n + S (fuel - S n))%nat by lia.
    rewrite RebootMenu_from_skip by (intros j Hj; apply Hnone; lia).
    cbn [Nat.add RebootMenu_from]. unfold RebootMenu_switch.
    split.
    + intros Hitem.
      destruct (Z.eqb_spec (get_menu_selection n) REBOOTMENU_MAIN) as [-> | H1];
        [reflexivity |].
      destruct (Z.eqb_spec (get_menu_selection n) REBOOTMENU_RECOVERY) as [-> | H2];
        [reflexivity |].
      destruct (Z.eqb_spec (get_menu_selection n) REBOOTMENU_BOOTLOADER)
        as [-> | H3]; [reflexivity |].
      exfalso. destruct Hitem as [? | [? | ?]]; contradiction.
    + intros Hback H1 H2 H3. rewrite Hback.
      destruct (Z.eqb_spec kGoBack REBOOTMENU_MAIN); [contradiction |].
      destruct (Z.eqb_spec kGoBack REBOOTMENU_RECOVERY); [contradiction |].
      destruct (Z.eqb_spec kGoBack REBOOTMENU_BOOTLOADER); [contradiction |].
      rewrite Z.eqb_refl. reflexivity.
Qed.

End RebootMenuFacts.

(** * The claims on the sample inputs *)

Module Examples.
Import Samples.
Local Open Scope string_scope.

Abbreviation verify_file := (verify_file (list byte) 256 SHA RSA_verify).
Abbreviation verify_jar_signature :=
  (verify_jar_signature (list byte) 256 SHA RSA_verify b64_pton).

(** S1: the signed file verifies with its key, tried after another. *)
Example whole_file_happy_path :
  verify_file (disk update_zip) "update.zip" [key2; key1]
  = (Returned VERIFY_SUCCESS,
     [ui_set_progress 0%Q; SHA_init;
      SHA_update (repeat x41 4096);
      ui_set_progress (fraction 4096 5020);
      SHA_update (repeat x41 904 ++ [x50; x4b; x05; x06] ++ repeat x00 16);
      ui_set_progress (fraction 5020 5020);
      SHA_final;
      RSA_verify_call key2 update_signature (SHA update_signed);
      RSA_verify_call key1 update_signature (SHA update_signed)]).
Proof. vm_compute. reflexivity. Qed.

(** S4: the signed archive verifies. *)
Example jar_happy_path : fst (verify_jar_signature update_jar [key2; key1]) = true.
Proof. vm_compute. reflexivity. Qed.

(** C1, as stated, fails: S3, a file whose comment holds a second EOCD
    marker, is rejected although [key1] verifies the bytes before the footer
    against the digest of the signed range. *)
Lemma whole_file_contract_fails :
  ~ whole_file_contract (list byte) 256 SHA RSA_verify
      (disk hostile_zip) "update.zip" [key1].
Proof.
  unfold whole_file_contract. intros [_ Hsuccess].
  assert (Hres : fst (verify_file (disk hostile_zip) "update.zip" [key1])
                 = Returned VERIFY_FAILURE) by (vm_compute; reflexivity).
  rewrite Hres in Hsuccess.
  enough (Returned VERIFY_FAILURE = Returned VERIFY_SUCCESS) by discriminate.
  apply Hsuccess.
  eexists hostile_zip, _, key1.
  split; [reflexivity |]. split; [vm_compute; reflexivity |].
  split; [left; reflexivity |]. vm_compute. reflexivity.
Qed.

(** S1 again, through the characterisation of success. *)
Lemma verify_file_success_witness :
  fst (verify_file (disk update_zip) "update.zip" [key2; key1])
  = Returned VERIFY_SUCCESS.
Proof.
  apply (proj1 (verify_file_success (list byte) 256 SHA RSA_verify
                  (disk update_zip) "update.zip" [key2; key1])).
  exists update_zip, update_signature, key1.
  split; [reflexivity |]. split; [vm_compute; reflexivity |].
  split; [vm_compute; discriminate |]. split; [vm_compute; reflexivity |].
  split; [right; left; reflexivity |]. vm_compute. reflexivity.
Defined.

(** S3: the marker sits at offset 22 of the tail, the start of the comment. *)
Lemma hostile_eocd_rejected_witness :
  fst (verify_file (disk hostile_zip) "update.zip" [key1])
  = Returned VERIFY_FAILURE.
Proof.
  apply (hostile_eocd_rejected (list byte) 256 SHA RSA_verify
           (disk hostile_zip) "update.zip" [key1] hostile_zip).
  - reflexivity.
  - left. exists 22. vm_compute. repeat split; discriminate.
Defined.

(** C5, as stated, fails: with [sigStart = 300] the signature handed to
    [RSA_verify] is still the 256 bytes before the footer, not the bytes
    that start 300 bytes before the end. *)
Lemma signature_at_sigStart_fails :
  ~ signature_at_sigStart (list byte) 256 SHA RSA_verify
      (disk far_sigstart_zip) "update.zip" [key1].
Proof.
  unfold signature_at_sigStart. intros H.
  specialize (H far_sigstart_zip key1 update_signature (SHA update_signed)
                eq_refl).
  assert (Hat : read_at far_sigstart_zip
                  (fileLen far_sigstart_zip - sigStart far_sigstart_zip) 256
                = Some update_signature).
  { apply H; [vm_compute; reflexivity |]. vm_compute. left. reflexivity. }
  apply (f_equal (fun o => match o with
                           | Some (b :: _) => Some b
                           | _ => None
                           end)) in Hat.
  vm_compute in Hat. discriminate Hat.
Qed.

(** In S1, where [sigStart = 262], the two places are the same. *)
Lemma signature_before_footer_witness :
  (read_at (eocdTail update_zip) (commentLen update_zip + 22 - 6 - 256) 256
   = Some update_signature /\
   read_at update_zip (fileLen update_zip - 6 - 256) 256 = Some update_signature /\
   (sigStart update_zip = 256 + 6 ->
    read_at update_zip (fileLen update_zip - sigStart update_zip) 256
    = Some update_signature)) /\
  RSA_calls_of (snd (verify_file (disk update_zip) "update.zip" [key1])) <> [] /\
  (RSA_calls_of (snd (verify_file (disk short_comment_zip) "update.zip" [key1])) = [] /\
   fst (verify_file (disk short_comment_zip) "update.zip" [key1]) = Undefined).
Proof.
  assert (Hck : format_checks 256 update_zip = true) by (vm_compute; reflexivity).
  assert (Hck' : format_checks 256 short_comment_zip = true)
    by (vm_compute; reflexivity).
  assert (HN : 0 <= 256) by lia.
  destruct (signature_before_footer (list byte) 256 SHA RSA_verify
              (disk update_zip) "update.zip" [key1] update_zip eq_refl Hck)
    as (Hcalls & Hmade & _).
  destruct (signature_before_footer (list byte) 256 SHA RSA_verify
              (disk short_comment_zip) "update.zip" [key1] short_comment_zip
              eq_refl Hck')
    as (_ & _ & Hout).
  split; [| split].
  - apply (Hcalls key1 update_signature (SHA update_signed)).
    vm_compute. left. reflexivity.
  - destruct (Hmade HN) as (sig & _ & _ & Hne); [vm_compute; discriminate |].
    apply Hne. discriminate.
  - destruct (Hout HN) as [Hnone Hundef]; [vm_compute; reflexivity |].
    split; [exact Hnone | apply Hundef; discriminate].
Defined.

(** S2 and a signature block that is too short. *)
Lemma bad_footer_rejected_witness :
  (fst (verify_file (disk no_sentinel_zip) "update.zip" [key1])
   = Returned VERIFY_FAILURE /\
   Forall (fun e => is_SHA_call (list byte) e = false)
     (snd (verify_file (disk no_sentinel_zip) "update.zip" [key1]))) /\
  fst (verify_file (disk short_signature_zip) "update.zip" [key1])
  = Returned VERIFY_FAILURE.
Proof.
  split.
  - apply (bad_footer_rejected (list byte) 256 SHA RSA_verify
             (disk no_sentinel_zip) "update.zip" [key1] no_sentinel_zip).
    + reflexivity.
    + vm_compute. discriminate.
    + right. vm_compute. discriminate.
  - apply (bad_footer_rejected (list byte) 256 SHA RSA_verify
             (disk short_signature_zip) "update.zip" [key1] short_signature_zip).
    + reflexivity.
    + vm_compute. discriminate.
    + vm_compute. reflexivity.
Defined.

(** C9, as stated, fails: on S2 the only fraction reported is 0. *)
Lemma progress_contract_fails :
  ~ progress_contract
      (snd (verify_file (disk no_sentinel_zip) "update.zip" [key1])).
Proof.
  unfold progress_contract. intros (_ & _ & q & Hlast & Hq).
  vm_compute in Hlast. injection Hlast as <-.
  vm_compute in Hq. apply Hq. reflexivity.
Qed.

(** A signed range of 4097 bytes: the end of the hashing is not reported. *)
Example completion_not_reported :
  progress_of (snd (verify_file (disk two_block_zip) "update.zip" [key1]))
  = [0%Q; fraction 4096 4097].
Proof. vm_compute. reflexivity. Qed.

(** Fifty blocks of 4096 bytes, each 0.02 of the file.  The double sum
    0.02 + 0.02 is the double 0.04, so the second block is not reported; the
    sum 0.18 + 0.02 is the double below 0.2, so the tenth block is reported
    after the ninth.  There are 27 calls, the last with 1.0. *)
Example exact_advance_not_reported :
  progress_of (snd (verify_file (disk fifty_block_zip) "update.zip" [key1]))
  = 0%Q :: map (fun block => fraction (4096 * block) 204800)
             [1; 3; 5; 7; 9; 10; 12; 14; 16; 18; 20; 22; 24; 26; 28; 30; 32; 34;
              36; 38; 40; 42; 44; 46; 48; 50]
  /\
  last (progress_of (snd (verify_file (disk fifty_block_zip) "update.zip" [key1])))
  = Some 1%Q.
Proof. vm_compute. split; reflexivity. Qed.

(** Doubles of the model against their IEEE 754 values: 0.02 is
    0x147AE147AE147B * 2^-58, 0.1 + 0.2 is the double above 0.3, and
    1 / 3 is 0x15555555555555 * 2^-54. *)
Example double_values :
  double_0_02 = (5764607523034235 # 2 ^ 58)%Q /\
  double_add (to_double (1 # 10)) (to_double (2 # 10))
  = (1351079888211149 # 2 ^ 52)%Q /\
  to_double (3 # 10) = (5404319552844595 # 2 ^ 54)%Q /\
  double_div 1 3 = (6004799503160661 # 2 ^ 54)%Q.
Proof. vm_compute. repeat split; reflexivity. Qed.

(** The last reports of a file hashed in two blocks and of S4. *)
Lemma progress_reports_witness :
  (exists q,
     last (progress_of (snd (verify_file (disk two_block_zip) "update.zip" [key1])))
     = Some q /\ (1 <= double_add q double_0_02)%Q /\
     ((98 # 100) - (1 # 2 ^ 52) <= q)%Q) /\
  (exists q,
     last (progress_of (snd (verify_jar_signature update_jar [key1]))) = Some q /\
     (q == 1)%Q).
Proof.
  destruct (progress_reports (list byte) 256 SHA RSA_verify b64_pton)
    as [Hfile Hjar].
  split.
  - destruct (Hfile (disk two_block_zip) "update.zip" [key1]) as (_ & _ & Hacc & _).
    destruct (Hacc two_block_zip eq_refl) as [Hlast _];
      [vm_compute; reflexivity | exact Hlast].
  - destruct (Hjar update_jar [key1]) as (_ & _ & Hlast & _);
      [vm_compute; reflexivity |].
    apply Hlast; vm_compute; reflexivity.
Defined.

(** C6: the manifest of [dangling_jar] ends with the name recovery.img
    pending, and the archive is accepted. *)
Lemma dangling_name_accepted :
  pending_name (manifest_lines dangling_jar) None = Some (bytes "recovery.img") /\
  fst (verify_jar_signature dangling_jar [key1]) = true.
Proof. vm_compute. split; reflexivity. Qed.

(** The same name with no digest before the other stanzas is rejected. *)
Example unfinished_stanza_rejected :
  fst (verify_jar_signature unfinished_jar [key1]) = false.
Proof. vm_compute. reflexivity. Qed.

(** A manifest digest of 19 bytes: the archive is rejected. *)
Lemma base64_digest_length_witness :
  23 = 23 /\ 19 = fst (b64_pton short_digest 23) /\
  (19 <> 20 -> fst (verify_jar_signature short_digest_jar [key1]) = false).
Proof.
  apply (base64_digest_length (list byte) 256 SHA RSA_verify b64_pton
           short_digest_jar [key1] short_digest 23 19).
  vm_compute. right. left. reflexivity.
Defined.




(** C2.  The manifest of [dangling_jar] lists recovery.img, which the
    archive does not hold: an entry is missing relative to the manifest, and
    [verify_jar_signature] returns true. *)
Lemma missing_entry_accepted :
  manifest_names dangling_jar
  = [bytes "system/build.prop"; bytes "boot.img"; bytes "recovery.img"] /\
  mzFindZipEntry dangling_jar (bytes "recovery.img") = None /\
  fst (verify_jar_signature dangling_jar [key1]) = true.
Proof. vm_compute. repeat split; reflexivity. Qed.

(** So coverage as the specification words it fails on [dangling_jar]. *)
Lemma listed_name_missing_accepted :
  ~ coverage_as_stated (list byte) 256 SHA RSA_verify b64_pton dangling_jar [key1].
Proof.
  intros [_ Hbad].
  assert (Hres : fst (verify_jar_signature dangling_jar [key1]) = false).
  { apply Hbad. left. exists 2%nat, (bytes "recovery.img").
    split; vm_compute; reflexivity. }
  vm_compute in Hres. discriminate Hres.
Qed.

(** An entry with no Name: line, matched by a digest after a continuation
    line that continues no name: the archive verifies, and no stanza of the
    specification names the entry. *)
Example orphan_continuation_accepted :
  fst (verify_jar_signature orphan_jar [key1]) = true /\
  manifest_stanzas orphan_jar
  = [(bytes "system/build.prop", SHA build_prop); (bytes "boot.img", SHA boot_img);
     (bytes "(null)foo", SHA (bytes "bar"))] /\
  manifest_stated_stanzas orphan_jar
  = [(bytes "system/build.prop", SHA build_prop); (bytes "boot.img", SHA boot_img)].
Proof. vm_compute. repeat split; reflexivity. Qed.

(** S4 is covered, also in the words of the specification; S5, with the
    entry su that the manifest does not list, is rejected. *)
Lemma jar_coverage_witness :
  coverage SHA b64_pton update_jar /\
  fst (verify_jar_signature extra_jar [key1]) = false /\
  coverage_stated SHA b64_pton update_jar.
Proof.
  split; [| split].
  - apply (proj1 (jar_coverage (list byte) 256 SHA RSA_verify b64_pton
                    update_jar [key1])).
    vm_compute. reflexivity.
  - apply (proj1 (proj2 (jar_coverage (list byte) 256 SHA RSA_verify b64_pton
                           extra_jar [key1]))).
    right. right. exists 6%nat, (file_entry (bytes "su") (bytes "root")).
    split; [reflexivity |]. split; [vm_compute; reflexivity |].
    intros k stanza Hk.
    assert (Hms : manifest_stanzas extra_jar
                  = [(bytes "system/build.prop", SHA build_prop);
                     (bytes "boot.img", SHA boot_img)])
      by (vm_compute; reflexivity).
    rewrite Hms in Hk.
    destruct k as [| [| k]]; simpl in Hk; try discriminate Hk;
      injection Hk as <-; vm_compute; discriminate.
  - destruct (proj2 (proj2 (jar_coverage (list byte) 256 SHA RSA_verify b64_pton
                              update_jar [key1]))) as [_ [Hcov _]].
    + vm_compute. reflexivity.
    + apply Hcov. vm_compute. reflexivity.
Defined.

(** * Further properties on the sample inputs *)

(** Eight bytes of FF: the comment would be 65535 bytes long. *)
Lemma truncated_file_rejected_witness :
  verify_file (disk truncated_zip) "update.zip" [key1]
  = (Returned VERIFY_FAILURE, [ui_set_progress 0%Q]).
Proof.
  apply (truncated_file_rejected (list byte) 256 SHA RSA_verify
           (disk truncated_zip) "update.zip" [key1]).
  right. exists truncated_zip. split; [reflexivity |].
  right. vm_compute. reflexivity.
Defined.

(** S1: the 5020 bytes before the comment length are hashed, in a block of
    4096 bytes and one of 924. *)
Lemma signed_range_hashed_witness :
  let bs := SHA_data_of (snd (verify_file (disk update_zip) "update.zip" [key1])) in
  concat bs = take (Z.to_nat (signedLen update_zip)) update_zip /\
  Forall (fun data => (0 < length data <= 4096)%nat) bs /\
  signedLen update_zip = fileLen update_zip - commentLen update_zip - 2.
Proof.
  apply (signed_range_hashed (list byte) 256 SHA RSA_verify
           (disk update_zip) "update.zip" [key1] update_zip).
  - reflexivity.
  - vm_compute. reflexivity.
Defined.

(** S1 and S4 with the keys in another order and one of them twice. *)
Lemma trusted_keys_as_a_set_witness :
  fst (verify_file (disk update_zip) "update.zip" [key2; key1])
  = fst (verify_file (disk update_zip) "update.zip" [key1; key2; key1]) /\
  fst (verify_jar_signature update_jar [key2; key1])
  = fst (verify_jar_signature update_jar [key1; key2; key1]).
Proof.
  apply (trusted_keys_as_a_set (list byte) 256 SHA RSA_verify b64_pton
           (disk update_zip) "update.zip" update_jar
           [key2; key1] [key1; key2; key1]).
  intros key. simpl. tauto.
Defined.

(** The comment of [short_comment_zip] and the EOCD record hold 28 bytes,
    fewer than the 262 the signature and the footer take. *)
Lemma signature_read_out_of_bounds_witness :
  fst (verify_file (disk short_comment_zip) "update.zip" [key1]) = Undefined.
Proof.
  apply (signature_read_out_of_bounds (list byte) 256 SHA RSA_verify
           (disk short_comment_zip) "update.zip" [key1] short_comment_zip).
  - reflexivity.
  - vm_compute. reflexivity.
  - discriminate.
  - lia.
  - vm_compute. reflexivity.
Defined.

(** S4: CERT.RSA signs CERT.SF, the entry at index 1; the manifest lists
    neither. *)
Lemma signature_entries_exempt_witness :
  skipped 0 2 cert_rsa = true /\ skipped 0 1 cert_sf = true.
Proof.
  destruct (signature_entries_exempt (list byte) 256 SHA RSA_verify
              update_jar [key1] 0%nat 2%nat cert_rsa 1%nat cert_sf) as [Hrsa Hsf].
  - apply verifySignature_entry_spec. vm_compute. reflexivity.
  - reflexivity.
  - split; [exact Hrsa |]. apply Hsf. vm_compute.
    intros H. repeat (destruct H as [H | H]; [discriminate H |]). exact H.
Defined.

(** boot.img fails its integrity check. *)
Lemma corrupt_entry_rejected_witness :
  fst (verify_jar_signature corrupt_jar [key1]) = false.
Proof.
  apply (corrupt_entry_rejected (list byte) 256 SHA RSA_verify b64_pton
           corrupt_jar [key1] 5%nat corrupt_boot_img).
  - reflexivity.
  - vm_compute. reflexivity.
  - left. reflexivity.
Defined.

(** S4: the one call of [RSA_verify]. *)
Lemma jar_RSA_verify_calls_witness :
  In key1 [key1] /\
  exists rsaEntry sfEntry sf,
    In rsaEntry update_jar /\
    is_rsa_candidate 256 rsaEntry = true /\
    mzFindZipEntry update_jar (sf_name (fileName rsaEntry)) = Some sfEntry /\
    update_jar !! sfEntry = Some sf /\
    sign key1 (take 20 (SHA (signature_file manifest)))
    = signature_of 256 rsaEntry /\
    take 20 (SHA (signature_file manifest)) = take 20 (SHA (contents sf)).
Proof.
  apply (jar_RSA_verify_calls (list byte) 256 SHA RSA_verify b64_pton
           update_jar [key1] key1
           (sign key1 (take 20 (SHA (signature_file manifest))))
           (take 20 (SHA (signature_file manifest)))).
  vm_compute. left. reflexivity.
Defined.

(** The counter wraps: 22 bytes counted from 2^32 - 6 leave it at 16. *)
Lemma entry_digest_witness :
  snd (fst (digestEntry (list byte) SHA (file_entry (bytes "boot.img") boot_img)
              (Some 4294967290) 100))
  = Some ((4294967290 + mzGetZipEntryUncompLen (file_entry (bytes "boot.img") boot_img))
          mod UINT_MAX1).
Proof.
  apply (proj1 (proj2 (proj2
           (entry_digest (list byte) SHA (file_entry (bytes "boot.img") boot_img)
              (Some 4294967290) 100)))).
  - reflexivity.
  - split; [lia | reflexivity].
Defined.

(** With the items 0, 1, 2 and -5 for [kGoBack]: the third answer ends the
    menu. *)
Lemma RebootMenu_returns_witness :
  RebootMenu 0 1 2 (-5) selections 3 = Some (-1).
Proof.
  assert (Hskip : forall j, (j < 2)%nat ->
                            selections j <> 0 /\ selections j <> 1 /\
                            selections j <> 2 /\ selections j <> -5).
  { intros j Hj. destruct j as [| [| j]]; [| | lia];
      cbn [selections]; repeat split; discriminate. }
  assert (Hfuel : (2 < 3)%nat) by lia.
  apply (proj2 (proj2 (RebootMenu_returns 0 1 2 (-5) selections 2 Hskip) 3%nat Hfuel)).
  - reflexivity.
  - discriminate.
  - discriminate.
  - discriminate.
Defined.

(** S4 with other contents for boot.img. *)
Lemma changed_entry_rejected_witness :
  fst (verify_jar_signature
         (<[5%nat := file_entry (bytes "boot.img") (bytes "ANDROID! patched")]>
            update_jar) [key1]) = false.
Proof.
  apply (changed_entry_rejected (list byte) 256 SHA RSA_verify b64_pton
           update_jar [key1] 5%nat (file_entry (bytes "boot.img") boot_img)).
  - vm_compute. reflexivity.
  - reflexivity.
  - vm_compute. reflexivity.
  - reflexivity.
  - vm_compute. discriminate.
Defined.

End Examples.
